(** * Phase Noise Analyser: the conditioning pipeline

    A shallow embedding of the numeric core of the application
    (src/utils.cpp, src/constants.h and the spur-removal and spot-noise
    methods of src/phasenoiseanalyzerapp.cpp) together with the properties
    its specification states about it.

    - [double] is IEEE 754 binary64: Rocq's primitive [float].
    - [int] is [Z]; every integer the code computes is bounded by a vector
      length plus a window size, so the development assumes no wrap-around.
    - [QVector<T>] is [list T], read with [at_] and written with [set_];
      both fail ([None]) outside [0 .. size-1], where the C++ code would
      leave the vector.  A function returns [Some] exactly when it runs to
      completion without such an access.
    - [QMap<QString, T>] is [gmap string T]. *)

From Stdlib Require Import ZArith Zquot Floats Lia.
From stdpp Require Import base option list strings gmap pretty.

Local Open Scope Z_scope.

(** ** Doubles *)

Module Double.

(** [std::numeric_limits<double>::epsilon()], 2^-52. *)
Definition epsilon : float := 0x1p-52%float.

(** [std::numeric_limits<double>::max()]. *)
Definition max : float := 0x1.fffffffffffffp+1023%float.

(** [std::numeric_limits<double>::quiet_NaN()]. *)
Definition quiet_NaN : float := nan.

(** [std::isnan]. *)
Definition isnan (x : float) : bool := is_nan x.

(** [qFabs], that is [std::fabs]. *)
Definition qFabs (x : float) : float := abs x.

(** [qAbs<double>]: [t >= 0 ? t : -t]. *)
Definition qAbs (t : float) : float :=
  if (0 <=? t)%float then t else (- t)%float.

(** Conversion of a non-negative [int] to [double] (exact below 2^53). *)
Definition of_int (z : Z) : float := of_uint63 (Uint63.of_Z z).

(** [a > b] on doubles. *)
Definition gtb (a b : float) : bool := (b <? a)%float.

End Double.

(** ** Vectors and loops *)

Section Vectors.
Context {A : Type}.

(** [v.size()] *)
Definition size (v : list A) : Z := Z.of_nat (length v).

(** [v[i]] as an rvalue. *)
Definition at_ (v : list A) (i : Z) : option A :=
  if (0 <=? i) && (i <? size v) then v !! Z.to_nat i else None.

(** [v[i] = x]. *)
Definition set_ (v : list A) (i : Z) (x : A) : option (list A) :=
  if (0 <=? i) && (i <? size v) then Some (<[Z.to_nat i := x]> v) else None.

(** [QVector<A> v(n, x)]; a negative size is not a vector. *)
Definition filled (n : Z) (x : A) : list A := replicate (Z.to_nat n) x.
End Vectors.

Section Loops.
Context {S : Type}.

(** [for (int i = lo; i < hi; ++i) body], the body changing neither [i]
    nor the bounds: [hi - lo] iterations when [lo < hi], none otherwise. *)
Fixpoint for_iter (n : nat) (i : Z) (body : Z -> S -> option S) (s : S)
  : option S :=
  match n with
  | O => Some s
  | Datatypes.S n' => s' ← body i s; for_iter n' (i + 1) body s'
  end.

Definition for_range (lo hi : Z) (body : Z -> S -> option S) (s : S)
  : option S :=
  for_iter (Z.to_nat (hi - lo)) lo body s.

(** [while (cond) body] with an iteration budget; the result is [None]
    when the budget runs out before the condition fails. *)
Fixpoint while_loop (fuel : nat) (cond : S -> option bool)
    (body : S -> option S) (s : S) : option S :=
  match fuel with
  | O => None
  | Datatypes.S fuel' =>
      b ← cond s;
      if b : bool then s' ← body s; while_loop fuel' cond body s'
      else Some s
  end.
End Loops.

(** ** constants.h *)

Module Constants.

Definition SPUR_THRESHOLD : float := 5%float.
Definition DEFAULT_SPUR_WINDOW_SIZE : Z := 21.

(** The first entry is the double nearest to 0.1. *)
Definition FREQ_POINTS : list float :=
  [0x1.999999999999ap-4; 1; 10; 100; 1000; 10000; 100000; 1000000;
   10000000]%float.

(** [QString::number(x, 'f', 0)], the text [arg(x, 0, 'f', 0)]
    substitutes: [x] rounded to an integer, ties to even, in decimal. *)
Definition roundHalfEven (m : positive) (e : Z) : Z :=
  if 0 <=? e then Z.pos m * 2 ^ e
  else
    let d := 2 ^ (- e) in
    let q := Z.pos m / d in
    let r := Z.pos m mod d in
    if 2 * r <? d then q
    else if d <? 2 * r then q + 1
    else if Z.even q then q else q + 1.

Definition number_f0 (x : float) : string :=
  match Prim2SF x with
  | S754_nan => "nan"
  | S754_infinity s => if s then "-inf" else "inf"
  | S754_zero s => if s then "-0" else "0"
  | S754_finite s m e =>
      (if s then "-" else "") +:+ pretty (Z.to_N (roundHalfEven m e))
  end.

(** [FrequencyPointInfo], without [formattedName], which the
    conditioning pipeline never reads. *)
Record FrequencyPointInfo := {
  value : float;
  displayName : string;
}.

Definition getFreqInfo (freq : float) : FrequencyPointInfo :=
  if (1000000 <=? freq)%float then
    {| value := freq; displayName := number_f0 (freq / 1000000) +:+ " MHz" |}
  else if (1000 <=? freq)%float then
    {| value := freq; displayName := number_f0 (freq / 1000) +:+ " kHz" |}
  else
    {| value := freq; displayName := number_f0 freq +:+ " Hz" |}.

Definition generateFreqPointInfos : list FrequencyPointInfo :=
  map getFreqInfo FREQ_POINTS.

Definition FREQ_POINT_INFOS : list FrequencyPointInfo :=
  generateFreqPointInfos.

Definition DEFAULT_WINDOW_SIZE : Z := 11.
Definition MIN_WINDOW_SIZE : Z := 3.
Definition MAX_WINDOW_SIZE : Z := 51.

End Constants.

(** ** utils.cpp *)

Module Utils.
Import Double.

(** [if (windowSize % 2 == 0) windowSize++;] *)
Definition oddify (windowSize : Z) : Z :=
  if Z.rem windowSize 2 =? 0 then windowSize + 1 else windowSize.

(** [data.isEmpty()] *)
Definition isEmpty {A} (data : list A) : bool :=
  match data with [] => true | _ => false end.

(** The inner loop of [movingAverage] at position [i]: the running sum
    and the number of terms over the offsets [-halfWindow .. halfWindow]
    that fall inside the vector. *)
Definition movingAverage_window (data : list float) (halfWindow i : Z)
  : option (float * Z) :=
  for_range (- halfWindow) (halfWindow + 1)
    (fun j '(currentSum, count) =>
       let index := i + j in
       if (0 <=? index) && (index <? size data) then
         x ← at_ data index;
         Some ((currentSum + x)%float, count + 1)
       else Some (currentSum, count))
    (0%float, 0).

Definition movingAverage (data : list float) (windowSize : Z)
  : option (list float) :=
  let windowSize := oddify windowSize in
  if (windowSize <? 3) || isEmpty data then Some data
  else
    let halfWindow := Z.quot windowSize 2 in
    for_range 0 (size data)
      (fun i smoothed =>
         '(currentSum, count) ← movingAverage_window data halfWindow i;
         if 0 <? count then
           set_ smoothed i (currentSum / of_int count)%float
         else x ← at_ data i; set_ smoothed i x)
      (filled (size data) 0%float).

(** [std::sort] on doubles with [operator<].  The standard fixes the
    result only up to the order of equivalent elements and only when no
    element is NaN; this is insertion sort, which agrees with every
    conforming implementation on such input up to the sign of zeros. *)
Fixpoint sort_insert (x : float) (l : list float) : list float :=
  match l with
  | [] => [x]
  | y :: l' =>
      if (x <? y)%float then x :: y :: l' else y :: sort_insert x l'
  end.

Definition std_sort (l : list float) : list float :=
  foldr sort_insert [] l.

(** The window [medianFilter] collects at position [i], indices clamped
    to the vector. *)
Definition medianFilter_window (data : list float) (halfWindow i : Z)
  : option (list float) :=
  for_range (- halfWindow) (halfWindow + 1)
    (fun j window =>
       let index := i + j in
       let index := Z.max 0 (Z.min (size data - 1) index) in
       x ← at_ data index;
       Some (window ++ [x]))
    [].

Definition medianFilter (data : list float) (windowSize : Z)
  : option (list float) :=
  let windowSize := oddify windowSize in
  if (windowSize <? 3) || isEmpty data then Some data
  else
    let halfWindow := Z.quot windowSize 2 in
    for_range 0 (size data)
      (fun i filtered =>
         window ← medianFilter_window data halfWindow i;
         let window := std_sort window in
         m ← at_ window (Z.quot (size window) 2);
         set_ filtered i m)
      (filled (size data) 0%float).

Definition rollingMedian (data : list float) (windowSize : Z)
  : option (list float) :=
  medianFilter data windowSize.

Definition coeffs_5 : list float := [-3; 12; 17; 12; -3]%float.
Definition norm_5 : float := 35%float.
Definition coeffs_7 : list float := [-2; 3; 6; 7; 6; 3; -2]%float.
Definition norm_7 : float := 21%float.
Definition coeffs_11 : list float :=
  [-36; 9; 44; 69; 84; 89; 84; 69; 44; 9; -36]%float.
Definition norm_11 : float := 429%float.

(** The coefficient table, its divisor and the window actually used;
    [None] is the final [else { return data; }]. *)
Definition selectCoeffs (windowSize : Z) : option (list float * float * Z) :=
  if windowSize =? 5 then Some (coeffs_5, norm_5, windowSize)
  else if windowSize =? 7 then Some (coeffs_7, norm_7, windowSize)
  else if (9 <=? windowSize) && (windowSize <=? 15) then
    Some (coeffs_11, norm_11, 11)
  else if 15 <? windowSize then Some (coeffs_11, norm_11, 11)
  else None.

(** The index read for offset [j] at position [i]: reflected at both
    ends, then clamped. *)
Definition reflectIndex (n i j : Z) : Z :=
  let index := i + j in
  let index := if index <? 0 then - index else index in
  let index := if n <=? index then 2 * (n - 1) - index else index in
  Z.max 0 (Z.min (n - 1) index).

(** The inner loop of [savitzkyGolay] at position [i]. *)
Definition savitzkyGolay_sum (coeffs data : list float) (halfWindow i : Z)
  : option float :=
  for_range (- halfWindow) (halfWindow + 1)
    (fun j sum =>
       let index := reflectIndex (size data) i j in
       c ← at_ coeffs (j + halfWindow);
       x ← at_ data index;
       Some (sum + c * x)%float)
    0%float.

(** [for (i = lo; i < hi; ++i) smoothed[i] = data[i];] *)
Definition copyRange (data : list float) (lo hi : Z) (smoothed : list float)
  : option (list float) :=
  for_range lo hi (fun i smoothed => x ← at_ data i; set_ smoothed i x)
    smoothed.

Definition savitzkyGolay (data : list float) (windowSize polyOrder : Z)
  : option (list float) :=
  let windowSize := oddify windowSize in
  if (windowSize <? 5) || (windowSize <=? polyOrder)
     || (size data <? windowSize)
  then Some data
  else
    match selectCoeffs windowSize with
    | None => Some data
    | Some (coeffs, norm, windowSize) =>
        let halfWindow := Z.quot windowSize 2 in
        smoothed ←
          for_range 0 (size data)
            (fun i smoothed =>
               sum ← savitzkyGolay_sum coeffs data halfWindow i;
               set_ smoothed i (sum / norm)%float)
            (filled (size data) 0%float);
        smoothed ← copyRange data 0 halfWindow smoothed;
        copyRange data (size data - halfWindow) (size data) smoothed
    end.

(** The default argument of [savitzkyGolay] in utils.h. *)
Definition defaultPolyOrder : Z := 3.

Definition linearInterpolate (x1 y1 x2 y2 x : float) : float :=
  if (qFabs (x2 - x1) <? epsilon)%float then y1
  else (y1 + (y2 - y1) * (x - x1) / (x2 - x1))%float.

End Utils.

(** ** phasenoiseanalyzerapp.cpp: spur removal and spot noise *)

Module App.
Import Double Constants Utils.

(** [a && b] on conditions that read vectors: [b] is evaluated only
    when [a] holds. *)
Definition andThen (a b : option bool) : option bool :=
  x ← a; if x : bool then b else Some false.

(** The numeric part of [PlotData].  [graphMeasured] is the pointer to
    the measured graph, [None] for [nullptr], with the (key, value)
    pairs of the graph's data container. *)
Record PlotData := {
  frequencyOffset : list float;
  phaseNoise : list float;
  referenceNoise : list float;
  phaseNoiseFiltered : list float;
  referenceNoiseFiltered : list float;
  hasReferenceData : bool;
  isVisible : bool;
  graphMeasured : option (list (float * float));
}.

Definition set_phaseNoiseFiltered (v : list float) (d : PlotData) :=
  {| frequencyOffset := frequencyOffset d;
     phaseNoise := phaseNoise d;
     referenceNoise := referenceNoise d;
     phaseNoiseFiltered := v;
     referenceNoiseFiltered := referenceNoiseFiltered d;
     hasReferenceData := hasReferenceData d;
     isVisible := isVisible d;
     graphMeasured := graphMeasured d |}.

Definition set_referenceNoiseFiltered (v : list float) (d : PlotData) :=
  {| frequencyOffset := frequencyOffset d;
     phaseNoise := phaseNoise d;
     referenceNoise := referenceNoise d;
     phaseNoiseFiltered := phaseNoiseFiltered d;
     referenceNoiseFiltered := v;
     hasReferenceData := hasReferenceData d;
     isVisible := isVisible d;
     graphMeasured := graphMeasured d |}.

(** The literal [1e-9], as the nearest double. *)
Definition freqTolerance : float := 0x1.12e0be826d695p-30%float.

(** The iteration budget of every scan over a vector of [N] entries:
    an index moves by one or more at each turn and stays in [-1 .. N]. *)
Definition budget (N : Z) : nat := Datatypes.S (Z.to_nat N).

(** *** Method 1: baseline comparison *)

(** [!isnan(sourceRef[i]) && !isnan(baseline[i]) &&
     (sourceRef[i] - baseline[i]) > SPUR_THRESHOLD] *)
Definition aboveBaseline (sourceRef baseline : list float) (i : Z)
  : option bool :=
  andThen (r ← at_ sourceRef i; Some (negb (isnan r)))
    (andThen (b ← at_ baseline i; Some (negb (isnan b)))
       (r ← at_ sourceRef i; b ← at_ baseline i;
        Some (gtb (r - b) SPUR_THRESHOLD))).

Definition markSpurs (sourceRef baseline : list float) (N : Z)
  : option (list bool) :=
  for_range 0 N
    (fun i isSpur =>
       c ← aboveBaseline sourceRef baseline i;
       if c : bool then set_ isSpur i true else Some isSpur)
    (filled N false).

(** [while (i < N && isSpur[i]) i++;] *)
Definition skipSpurs (isSpur : list bool) (N i : Z) : option Z :=
  while_loop (budget N)
    (fun i => andThen (Some (i <? N)) (at_ isSpur i))
    (fun i => Some (i + 1)) i.

(** [while (left >= 0 && isSpur[left]) left--; if (left < 0) left = 0;] *)
Definition findLeft (isSpur : list bool) (N start : Z) : option Z :=
  left ← while_loop (budget N)
            (fun left => andThen (Some (0 <=? left)) (at_ isSpur left))
            (fun left => Some (left - 1)) (start - 1);
  Some (if left <? 0 then 0 else left).

(** [while (right < N && isSpur[right]) right++;
     if (right >= N) right = N - 1;] *)
Definition findRight (isSpur : list bool) (N end_ : Z) : option Z :=
  right ← while_loop (budget N)
             (fun right => andThen (Some (right <? N)) (at_ isSpur right))
             (fun right => Some (right + 1)) (end_ + 1);
  Some (if N <=? right then N - 1 else right).

(** One turn of [while (i < N)] in method 1; the state is [i] and
    [processedMeas]. *)
Definition pass1_body (isSpur : list bool) (freq : list float) (N : Z)
    (st : Z * list float) : option (Z * list float) :=
  let '(i, processedMeas) := st in
  s ← at_ isSpur i;
  if s : bool then
    let start := i in
    i ← skipSpurs isSpur N i;
    let end_ := i - 1 in
    left ← findLeft isSpur N start;
    right ← findRight isSpur N end_;
    leftVal ← at_ processedMeas left;
    rightVal ← at_ processedMeas right;
    leftFreq ← at_ freq left;
    rightFreq ← at_ freq right;
    processedMeas ←
      for_range start (end_ + 1)
        (fun j processedMeas =>
           if (left <? right)
              && gtb (qAbs (rightFreq - leftFreq)) freqTolerance
           then
             fj ← at_ freq j;
             set_ processedMeas j
               (linearInterpolate leftFreq leftVal rightFreq rightVal fj)
           else set_ processedMeas j leftVal)
        processedMeas;
    Some (i, processedMeas)
  else Some (i + 1, processedMeas).

Definition pass1 (isSpur : list bool) (freq : list float) (N : Z)
    (processedMeas : list float) : option (list float) :=
  st ← while_loop (budget N)
          (fun st : Z * list float => Some (st.1 <? N))
          (pass1_body isSpur freq N) (0, processedMeas);
  Some st.2.

(** *** Method 2: edge detection *)

(** [!isnan(currentRef[i]) && !isnan(currentRef[i-1]) &&
     (currentRef[i] - currentRef[i-1]) > SPUR_THRESHOLD] *)
Definition risingEdge (currentRef : list float) (i : Z) : option bool :=
  andThen (a ← at_ currentRef i; Some (negb (isnan a)))
    (andThen (b ← at_ currentRef (i - 1); Some (negb (isnan b)))
       (a ← at_ currentRef i; b ← at_ currentRef (i - 1);
        Some (gtb (a - b) SPUR_THRESHOLD))).

(** [!isnan(currentRef[j]) && !isnan(currentRef[j-1]) &&
     (currentRef[j-1] - currentRef[j]) > SPUR_THRESHOLD] *)
Definition fallingEdge (currentRef : list float) (j : Z) : option bool :=
  andThen (a ← at_ currentRef j; Some (negb (isnan a)))
    (andThen (b ← at_ currentRef (j - 1); Some (negb (isnan b)))
       (b ← at_ currentRef (j - 1); a ← at_ currentRef j;
        Some (gtb (b - a) SPUR_THRESHOLD))).

(** [while (j < N) { if (falling edge at j) break; j++; }] from
    [j = start + 1]. *)
Definition findFalling (currentRef : list float) (N start : Z) : option Z :=
  while_loop (budget N)
    (fun j =>
       andThen (Some (j <? N)) (f ← fallingEdge currentRef j; Some (negb f)))
    (fun j => Some (j + 1)) (start + 1).

(** One turn of [while (i < N - 1)] in method 2; the state is [i] and
    [finalMeas]. *)
Definition pass2_body (currentRef freq : list float) (N : Z)
    (st : Z * list float) : option (Z * list float) :=
  let '(i, finalMeas) := st in
  r ← risingEdge currentRef i;
  if r : bool then
    let start := i in
    j ← findFalling currentRef N start;
    if j <? N then
      leftVal ← at_ finalMeas (start - 1);
      rightVal ← at_ finalMeas j;
      leftFreq ← at_ freq (start - 1);
      rightFreq ← at_ freq j;
      finalMeas ←
        for_range start j
          (fun k finalMeas =>
             if gtb (qFabs (rightFreq - leftFreq)) freqTolerance then
               fk ← at_ freq k;
               set_ finalMeas k
                 (linearInterpolate leftFreq leftVal rightFreq rightVal fk)
             else set_ finalMeas k leftVal)
          finalMeas;
      Some (j, finalMeas)
    else
      leftVal ← at_ finalMeas (start - 1);
      finalMeas ←
        for_range start N (fun k finalMeas => set_ finalMeas k leftVal)
          finalMeas;
      Some (N, finalMeas)
  else Some (i + 1, finalMeas).

Definition pass2_cond (N : Z) (st : Z * list float) : option bool :=
  Some (st.1 <? N - 1).

(** The scan of method 2 resumed in state [st] with [fuel] turns left. *)
Definition pass2_from (currentRef freq : list float) (N : Z) (fuel : nat)
    (st : Z * list float) : option (Z * list float) :=
  while_loop fuel (pass2_cond N) (pass2_body currentRef freq N) st.

(** The states the scan of method 2 passes through at the head of its
    loop: [pass2_reaches currentRef freq N st st'] when the scan started
    in [st] comes to [st'] after some turns. *)
Inductive pass2_reaches (currentRef freq : list float) (N : Z)
  : Z * list float -> Z * list float -> Prop :=
| pass2_reaches_here st : pass2_reaches currentRef freq N st st
| pass2_reaches_turn st st' st'' :
    pass2_cond N st = Some true ->
    pass2_body currentRef freq N st = Some st' ->
    pass2_reaches currentRef freq N st' st'' ->
    pass2_reaches currentRef freq N st st''.

Definition pass2 (currentRef freq : list float) (N : Z)
    (processedMeas : list float) : option (list float) :=
  let finalMeas := processedMeas in
  st ← pass2_from currentRef freq N (budget N) (1, finalMeas);
  Some st.2.

(** *** The per-dataset body of [applySpurRemoval] *)

(** The isSpur flags of method 1. *)
Definition spurFlags (sourceRef : list float) : option (list bool) :=
  baseline ← rollingMedian sourceRef DEFAULT_SPUR_WINDOW_SIZE;
  markSpurs sourceRef baseline (size sourceRef).

(** [processedMeas] after method 1, for [N >= 3]. *)
Definition removeSpurs_pass1 (sourceMeas sourceRef freq : list float)
  : option (list float) :=
  isSpur ← spurFlags sourceRef;
  pass1 isSpur freq (size sourceRef) sourceMeas.

(** The value assigned to [data.phaseNoiseFiltered] for a dataset that
    has reference data: the source measurement when [N < 3], otherwise
    [finalMeas]. *)
Definition removeSpurs (sourceMeas sourceRef freq : list float)
  : option (list float) :=
  let processedMeas := sourceMeas in
  let N := size sourceRef in
  if N <? 3 then Some processedMeas
  else
    processedMeas ← removeSpurs_pass1 sourceMeas sourceRef freq;
    pass2 sourceRef freq N processedMeas.

(** The measurement a dataset's spur removal starts from. *)
Definition sourceMeasOf (m_filteringEnabled : bool) (data : PlotData)
  : list float :=
  if m_filteringEnabled then phaseNoiseFiltered data else phaseNoise data.

Definition sourceRefOf (m_filteringEnabled : bool) (data : PlotData)
  : list float :=
  if m_filteringEnabled then referenceNoiseFiltered data
  else referenceNoise data.

(** A dataset left as it is: with filtering on the filtered vectors are
    kept, otherwise they are reset to the raw ones. *)
Definition keepSource (m_filteringEnabled : bool) (data : PlotData)
  : PlotData :=
  if m_filteringEnabled then data
  else set_referenceNoiseFiltered (referenceNoise data)
         (set_phaseNoiseFiltered (phaseNoise data) data).

(** The body of [for (PlotData& data : m_datasets)] when spur removal is
    enabled. *)
Definition applySpurRemoval_dataset (m_filteringEnabled : bool)
    (data : PlotData) : option PlotData :=
  if negb (hasReferenceData data) || isEmpty (frequencyOffset data) then
    Some (keepSource m_filteringEnabled data)
  else
    let sourceRef := sourceRefOf m_filteringEnabled data in
    let sourceMeas := sourceMeasOf m_filteringEnabled data in
    finalMeas ← removeSpurs sourceMeas sourceRef (frequencyOffset data);
    let data' := set_phaseNoiseFiltered finalMeas data in
    if size sourceRef <? 3 then Some data'
    else if m_filteringEnabled then Some data'
    else Some (set_referenceNoiseFiltered (referenceNoise data) data').

Definition applySpurRemoval (m_filteringEnabled m_spurRemovalEnabled : bool)
    (m_datasets : list PlotData) : option (list PlotData) :=
  if negb m_spurRemovalEnabled then
    Some (map (keepSource m_filteringEnabled) m_datasets)
  else mapM (applySpurRemoval_dataset m_filteringEnabled) m_datasets.

(** *** Spot noise *)

(** The type of [m_spotNoiseData]: frequency and noise of the chosen
    sample under the display name of the target. *)
Abbreviation SpotNoiseData := (gmap string (float * float)).

Section SpotNoise.
(** [qLn], the natural logarithm of the C library. *)
Variable qLn : float -> float.

(** The locals of the search for the closest sample. *)
Record Closest := {
  minDist : float;
  closestFreq : float;
  closestNoise : float;
  found : bool;
}.

Definition closest_init : Closest :=
  {| minDist := Double.max;
     closestFreq := quiet_NaN;
     closestNoise := quiet_NaN;
     found := false |}.

(** The log distance of a sample frequency to the target. *)
Definition logDist (targetFreq currentFreq : float) : float :=
  qAbs (qLn currentFreq - qLn targetFreq).

(** One turn of the loop over the graph's data container. *)
Definition closest_step (targetFreq : float) (st : Closest)
    (it : float * float) : Closest :=
  let currentFreq := it.1 in
  let dist := logDist targetFreq currentFreq in
  if (dist <? minDist st)%float then
    {| minDist := dist;
       closestFreq := currentFreq;
       closestNoise := it.2;
       found := true |}
  else st.

Definition findClosest (targetFreq : float)
    (dataContainer : list (float * float)) : Closest :=
  foldl (closest_step targetFreq) closest_init dataContainer.

(** The body of [for (const auto& freqInfo : FREQ_POINT_INFOS)]. *)
Definition spotNoise_step (dataContainer : list (float * float))
    (xMinView xMaxView : float) (m_spotNoiseData : SpotNoiseData)
    (freqInfo : FrequencyPointInfo) : SpotNoiseData :=
  let targetFreq := value freqInfo in
  if (targetFreq <? xMinView)%float || gtb targetFreq xMaxView then
    m_spotNoiseData
  else
    let c := findClosest targetFreq dataContainer in
    if found c then
      if (qFabs (qLn (closestFreq c) - qLn targetFreq) <? qLn 5)%float
      then
        <[displayName freqInfo := (closestFreq c, closestNoise c)]>
          m_spotNoiseData
      else m_spotNoiseData
    else m_spotNoiseData.

(** The entry one turn of that loop adds for its target, if any. *)
Definition spotNoise_entry (dataContainer : list (float * float))
    (xMinView xMaxView : float) (freqInfo : FrequencyPointInfo)
  : option (float * float) :=
  let targetFreq := value freqInfo in
  if (targetFreq <? xMinView)%float || gtb targetFreq xMaxView then None
  else
    let c := findClosest targetFreq dataContainer in
    if found c
       && (qFabs (qLn (closestFreq c) - qLn targetFreq) <? qLn 5)%float
    then Some (closestFreq c, closestNoise c)
    else None.

(** The loop over the nine targets, from the cleared map. *)
Definition extractSpotNoise (dataContainer : list (float * float))
    (xMinView xMaxView : float) : SpotNoiseData :=
  foldl (spotNoise_step dataContainer xMinView xMaxView) ∅
    FREQ_POINT_INFOS.

Definition firstVisibleData (m_datasets : list PlotData)
  : option PlotData :=
  List.find
    (fun data =>
       isVisible data
       && bool_decide (is_Some (graphMeasured data))
       && negb (isEmpty (frequencyOffset data)))
    m_datasets.

(** [calculateSpotNoise], returning the new [m_spotNoiseData];
    [xMinView] and [xMaxView] are the bounds of the plot's x axis. *)
Definition calculateSpotNoise (m_datasets : list PlotData)
    (xMinView xMaxView : float) : SpotNoiseData :=
  match firstVisibleData m_datasets with
  | None => ∅
  | Some data =>
      match graphMeasured data with
      | None => ∅
      | Some dataContainer =>
          extractSpotNoise dataContainer xMinView xMaxView
      end
  end.
End SpotNoise.

End App.

(** ** A natural logarithm on doubles

    [qLn] is the C library's [log]; the development is parametric in it.
    This one, computed from the atanh series, instantiates the parameter
    where a concrete logarithm is needed. *)

Module Log.

Definition ln2 : float := 0x1.62e42fefa39efp-1%float.

(** [z + z^3/3 + z^5/5 + ...], [n] terms from the odd power [zk = z^k]. *)
Fixpoint atanh_terms (n : nat) (z2 zk : float) (k : Z) : float :=
  match n with
  | O => 0%float
  | Datatypes.S n' =>
      (zk / Double.of_int k + atanh_terms n' z2 (zk * z2) (k + 2))%float
  end.

Definition of_Z (z : Z) : float :=
  if z <? 0 then (- Double.of_int (- z))%float else Double.of_int z.

(** [ln (m * 2^e) = 2 atanh ((m - 1) / (m + 1)) + e ln 2] with
    [m] in [[0.5, 1)]. *)
Definition ln (x : float) : float :=
  if is_nan x then nan
  else if (x <? 0)%float then nan
  else if (x =? 0)%float then neg_infinity
  else if (x =? infinity)%float then infinity
  else
    let '(m, e) := frshiftexp x in
    let z := ((m - 1) / (m + 1))%float in
    (2 * atanh_terms 40 (z * z) z 1
     + of_Z (Uint63.to_Z e - FloatOps.shift) * ln2)%float.

End Log.


(** * The specification's own formulations

    Definitions that follow the words of the specification, to be compared
    with the code above. *)

Module Spec.

(** The integers [lo, lo + 1, ..., lo + n - 1]. *)
Definition zrange (lo : Z) (n : nat) : list Z :=
  (fun k => lo + Z.of_nat k) <$> seq 0 n.

(** The window after an even one is incremented to make it odd. *)
Definition oddified (window : Z) : Z :=
  if Z.even window then window + 1 else window.

(** The fixed 11-point kernel and its divisor. *)
Definition kernel11 : list float :=
  [-36; 9; 44; 69; 84; 89; 84; 69; 44; 9; -36]%float.
Definition divisor11 : float := 429%float.

(** Reflected indexing: an index below 0 reflects to its opposite, an
    index from [n] on reflects to [2 * (n - 1) - index]; the result is
    clamped to the valid range. *)
Definition reflect (n index : Z) : Z :=
  let r :=
    if index <? 0 then - index
    else if n <=? index then 2 * (n - 1) - index
    else index in
  Z.max 0 (Z.min (n - 1) r).

(** The convolution of [data] with the 11-point kernel at position [i],
    divided by 429; the terms are added from offset -5 to offset 5. *)
Definition convolution11 (data : list float) (i : Z) : option float :=
  terms ← mapM (fun j =>
                  c ← kernel11 !! Z.to_nat (j + 5);
                  x ← at_ data (reflect (size data) (i + j));
                  Some (c * x)%float)
               (zrange (-5) 11);
  Some (foldl PrimFloat.add 0%float terms / divisor11)%float.

(** Sample [k] of [data] is [p], no sample is closer to the target than
    [p] under the distance [dist] on frequencies, and no sample before
    position [k] is as close. *)
Definition firstClosest (dist : float -> float) (data : list (float * float))
    (k : nat) (p : float * float) : Prop :=
  data !! k = Some p
  /\ (forall k' p', data !! k' = Some p' ->
        (dist p'.1 <? dist p.1)%float = false)
  /\ (forall k' p', (k' < k)%nat -> data !! k' = Some p' ->
        (dist p'.1 <=? dist p.1)%float = false).

End Spec.

(** ** Sample inputs *)

Module Samples.

(** Thirteen samples, all zero but a one at index 5. *)
Definition impulse13 : list float :=
  [0; 0; 0; 0; 0; 1; 0; 0; 0; 0; 0; 0; 0]%float.

(** Twelve samples, all zero but a one at index 5. *)
Definition impulse12 : list float :=
  [0; 0; 0; 0; 0; 1; 0; 0; 0; 0; 0; 0]%float.

(** Fifteen samples counting up from one. *)
Definition ramp15 : list float :=
  [1; 2; 3; 4; 5; 6; 7; 8; 9; 10; 11; 12; 13; 14; 15]%float.

(** The end-to-end spur scenario of the specification. *)
Definition scenarioFreq : list float := [1; 2; 3; 4; 5; 6; 7]%float.
Definition scenarioRef : list float := [0; 0; 0; 20; 20; 0; 0]%float.
Definition scenarioMeas : list float :=
  [-100; -100; -100; -60; -60; -100; -100]%float.

(** A measured curve with a sample at exactly 1000 Hz. *)
Definition curve : list (float * float) :=
  [(10, -80); (1000, -120); (99999, -150)]%float.

(** A reference with bumps below the threshold. *)
Definition quietRef : list float := [0; 1; 0; 2; 0]%float.
Definition quietMeas : list float := [-90; -91; -92; -93; -94]%float.
Definition quietFreq : list float := [1; 2; 3; 4; 5]%float.

(** A reference that rises by 10 dB at index 2 and never falls. *)
Definition riseRef : list float := [0; 0; 10; 10; 10]%float.
Definition riseMeas : list float := [-90; -91; -92; -93; -94]%float.
Definition riseFreq : list float := [1; 2; 3; 4; 5]%float.

(** A reference that steps up by 10 dB and stays there. *)
Definition stepRef : list float := [0; 10; 10]%float.
Definition stepMeas : list float := [1; 2; 3]%float.
Definition stepFreq : list float := [1; 2; 3]%float.

End Samples.

(** * Formulations used for the rest of the code *)

Module Shape.

(** The samples of [data] at the indices [i - h .. i + h] that exist, in
    index order. *)
Definition windowSamples (data : list float) (h i : Z) : list float :=
  omap (at_ data) (Spec.zrange (i - h) (Z.to_nat (2 * h + 1))).

(** The left-to-right sum of a list of doubles, from 0. *)
Definition sum (l : list float) : float := foldl PrimFloat.add 0%float l.

(** The convolution of [data] at position [i] with a kernel of
    [2 * h + 1] coefficients, divided by [divisor]; the terms are added
    from offset [-h] to offset [h]. *)
Definition convolution (kernel : list float) (divisor : float) (h : Z)
    (data : list float) (i : Z) : option float :=
  terms ← mapM (fun j =>
                  c ← kernel !! Z.to_nat (j + h);
                  x ← at_ data (i + j);
                  Some (c * x)%float)
               (Spec.zrange (- h) (Z.to_nat (2 * h + 1)));
  Some (sum terms / divisor)%float.

End Shape.

(** * The rest of the data path

    What happens to a dataset around the filters and the spur removal:
    [loadData] builds it from the rows of a file, [applyDataFiltering]
    fills its filtered vectors, [updatePlot] chooses the vectors it plots
    and the range of the frequency axis from the two slider indices, and
    [onPlotMouseMove] looks for the sample under the cursor. *)

(** ** phasenoiseanalyzerapp.cpp: filtering and the plotted vectors *)

Module Filtering.
Import Double Utils App.

(** A filter applied to the raw measurement and, when the dataset has
    reference data, to the raw reference. *)
Definition filterVectors (filter : list float -> option (list float))
    (data : PlotData) : option PlotData :=
  measured ← filter (phaseNoise data);
  let data := set_phaseNoiseFiltered measured data in
  if hasReferenceData data then
    reference ← filter (referenceNoise data);
    Some (set_referenceNoiseFiltered reference data)
  else Some data.

(** The body of [for (PlotData& data : m_datasets)] of
    [applyDataFiltering]; [filterType] is the text of the combo box and
    [window] the value of the spin box. *)
Definition applyDataFiltering_dataset (filterType : string) (window : Z)
    (data : PlotData) : option PlotData :=
  if isEmpty (frequencyOffset data) then Some data
  else if String.eqb filterType "Moving Average" then
    filterVectors (fun v => movingAverage v window) data
  else if String.eqb filterType "Median Filter" then
    filterVectors (fun v => medianFilter v window) data
  else if String.eqb filterType "Savitzky-Golay" then
    filterVectors (fun v => savitzkyGolay v window defaultPolyOrder) data
  else
    Some (set_referenceNoiseFiltered (referenceNoise data)
            (set_phaseNoiseFiltered (phaseNoise data) data)).

(** [m_datasets] after [applyDataFiltering]. *)
Definition applyDataFiltering (m_filteringEnabled : bool)
    (filterType : string) (window : Z) (m_datasets : list PlotData)
  : option (list PlotData) :=
  if negb m_filteringEnabled || isEmpty m_datasets then Some m_datasets
  else mapM (applyDataFiltering_dataset filterType window) m_datasets.

(** [applyDataFiltering] ends in [updatePlot], which starts from
    [applySpurRemoval]: [m_datasets] when the graphs are built.  (With
    filtering on and no dataset the function returns before [updatePlot];
    the spur removal has nothing to change then.) *)
Definition applyDataFiltering_updatePlot
    (m_filteringEnabled m_spurRemovalEnabled : bool)
    (filterType : string) (window : Z) (m_datasets : list PlotData)
  : option (list PlotData) :=
  filtered ← applyDataFiltering m_filteringEnabled filterType window
               m_datasets;
  applySpurRemoval m_filteringEnabled m_spurRemovalEnabled filtered.

(** The vectors [updatePlot] hands to the measured and to the reference
    graph. *)
Definition noiseData (m_filteringEnabled m_spurRemovalEnabled : bool)
    (data : PlotData) : list float :=
  if m_spurRemovalEnabled then phaseNoiseFiltered data
  else if m_filteringEnabled then phaseNoiseFiltered data
  else phaseNoise data.

Definition refData (m_filteringEnabled : bool) (data : PlotData)
  : list float :=
  if m_filteringEnabled then referenceNoiseFiltered data
  else referenceNoise data.

(** The five vectors of a dataset have one length. *)
Definition sameLength (data : PlotData) : Prop :=
  size (phaseNoise data) = size (frequencyOffset data)
  /\ size (referenceNoise data) = size (frequencyOffset data)
  /\ size (phaseNoiseFiltered data) = size (frequencyOffset data)
  /\ size (referenceNoiseFiltered data) = size (frequencyOffset data).

(** Two states of a dataset with the same raw vectors and flags. *)
Definition sameRaw (data data' : PlotData) : Prop :=
  frequencyOffset data' = frequencyOffset data
  /\ phaseNoise data' = phaseNoise data
  /\ referenceNoise data' = referenceNoise data
  /\ hasReferenceData data' = hasReferenceData data
  /\ isVisible data' = isVisible data.

End Filtering.

(** ** phasenoiseanalyzerapp.cpp: [loadData] *)

Module Loader.
Import Double Utils App.

(** [QString::isEmpty] and [QString::startsWith]; the character is given
    as a string of length one. *)
Definition isEmptyString (s : string) : bool :=
  match s with EmptyString => true | String _ _ => false end.

Definition startsWith (c : string) (s : string) : bool :=
  String.prefix c s.

(** A default-constructed [PlotData], visible. *)
Definition emptyDataset : PlotData :=
  {| frequencyOffset := [];
     phaseNoise := [];
     referenceNoise := [];
     phaseNoiseFiltered := [];
     referenceNoiseFiltered := [];
     hasReferenceData := false;
     isVisible := true;
     graphMeasured := None |}.

Definition set_hasReferenceData (b : bool) (d : PlotData) : PlotData :=
  {| frequencyOffset := frequencyOffset d;
     phaseNoise := phaseNoise d;
     referenceNoise := referenceNoise d;
     phaseNoiseFiltered := phaseNoiseFiltered d;
     referenceNoiseFiltered := referenceNoiseFiltered d;
     hasReferenceData := b;
     isVisible := isVisible d;
     graphMeasured := graphMeasured d |}.

(** The three [append] calls of one accepted row. *)
Definition appendRow (freq noise ref : float) (d : PlotData) : PlotData :=
  {| frequencyOffset := frequencyOffset d ++ [freq];
     phaseNoise := phaseNoise d ++ [noise];
     referenceNoise := referenceNoise d ++ [ref];
     phaseNoiseFiltered := phaseNoiseFiltered d;
     referenceNoiseFiltered := referenceNoiseFiltered d;
     hasReferenceData := hasReferenceData d;
     isVisible := isVisible d;
     graphMeasured := graphMeasured d |}.

(** The locals of the loop over the lines of the file, and the one member
    it changes. *)
Record Load := {
  newDataset : PlotData;
  firstLineCheck : bool;
  columnCount : Z;
  currentHasReference : bool;
  m_plotReferenceDefault : bool;
}.

Definition set_newDataset (d : PlotData) (st : Load) : Load :=
  {| newDataset := d;
     firstLineCheck := firstLineCheck st;
     columnCount := columnCount st;
     currentHasReference := currentHasReference st;
     m_plotReferenceDefault := m_plotReferenceDefault st |}.

(** [for] over a list with a body that may fail. *)
Fixpoint for_each {A S : Type} (body : S -> A -> option S) (l : list A)
    (s : S) : option S :=
  match l with
  | [] => Some s
  | x :: l' => s' ← body s x; for_each body l' s'
  end.

Section Rows.
(** The string functions of Qt the loop calls: [QString::trimmed],
    [QString::split] with the separator expression and
    [Qt::SkipEmptyParts], and [QString::toDouble] with its [ok] flag. *)
Variable trimmed : string -> string.
Variable split : string -> list string.
Variable toDouble : string -> float * bool.

(** The first data line fixes the number of columns. *)
Definition checkFirstLine (fields : list string) (st : Load) : Load :=
  if firstLineCheck st then
    let columnCount := size fields in
    let currentHasReference := 3 <=? columnCount in
    {| newDataset := set_hasReferenceData currentHasReference (newDataset st);
       firstLineCheck := false;
       columnCount := columnCount;
       currentHasReference := currentHasReference;
       m_plotReferenceDefault :=
         if currentHasReference then m_plotReferenceDefault st
         else if m_plotReferenceDefault st then false
         else m_plotReferenceDefault st |}
  else st.

(** The body of [while (!in.atEnd())] for the line read. *)
Definition loadData_line (st : Load) (rawLine : string) : option Load :=
  let line := trimmed rawLine in
  if isEmptyString line || startsWith "#" line || startsWith ";" line
  then Some st
  else
    let fields := split line in
    let st := checkFirstLine fields st in
    if size fields <? 2 then Some st
    else
      field0 ← at_ fields 0;
      field1 ← at_ fields 1;
      let (freq, okFreq) := toDouble field0 in
      let (noise, okNoise) := toDouble field1 in
      parsedRef ←
        (if currentHasReference st && (3 <=? size fields) then
           field2 ← at_ fields 2; Some (toDouble field2)
         else Some (quiet_NaN, true));
      let (ref, okRef) := parsedRef : float * bool in
      if negb okFreq || negb okNoise || negb okRef then Some st
      else if gtb freq 0 then
        if currentHasReference st then
          Some (set_newDataset (appendRow freq noise ref (newDataset st)) st)
        else
          Some (set_newDataset
                  (appendRow freq noise quiet_NaN (newDataset st)) st)
      else Some st.

Definition loadData_rows (lines : list string)
    (plotReferenceDefault : bool) : option Load :=
  for_each loadData_line lines
    {| newDataset := emptyDataset;
       firstLineCheck := true;
       columnCount := 0;
       currentHasReference := false;
       m_plotReferenceDefault := plotReferenceDefault |}.

(** [m_datasets] after [loadData] on a file that could be opened and has
    the given lines. *)
Definition loadData (lines : list string) (plotReferenceDefault : bool)
    (m_datasets : list PlotData) : option (list PlotData) :=
  st ← loadData_rows lines plotReferenceDefault;
  let newDataset := newDataset st in
  if isEmpty (frequencyOffset newDataset) then Some m_datasets
  else
    Some (m_datasets ++
          [set_referenceNoiseFiltered (referenceNoise newDataset)
             (set_phaseNoiseFiltered (phaseNoise newDataset) newDataset)]).
End Rows.

(** A dataset as [loadData] leaves it. *)
Definition loaded (data : PlotData) : Prop :=
  frequencyOffset data <> []
  /\ size (phaseNoise data) = size (frequencyOffset data)
  /\ size (referenceNoise data) = size (frequencyOffset data)
  /\ phaseNoiseFiltered data = phaseNoise data
  /\ referenceNoiseFiltered data = referenceNoise data
  /\ (forall i f, at_ (frequencyOffset data) i = Some f ->
        (0 <? f)%float = true)
  /\ (hasReferenceData data = false ->
      forall i r, at_ (referenceNoise data) i = Some r -> isnan r = true).

(** What the loop over the lines keeps true of its locals. *)
Definition rowsInvariant (st : Load) : Prop :=
  let d := newDataset st in
  length (phaseNoise d) = length (frequencyOffset d)
  /\ length (referenceNoise d) = length (frequencyOffset d)
  /\ phaseNoiseFiltered d = [] /\ referenceNoiseFiltered d = []
  /\ Forall (fun f => (0 <? f)%float = true) (frequencyOffset d)
  /\ (firstLineCheck st = true ->
      frequencyOffset d = [] /\ hasReferenceData d = false)
  /\ (firstLineCheck st = false ->
      hasReferenceData d = currentHasReference st)
  /\ (hasReferenceData d = false ->
      Forall (fun r => isnan r = true) (referenceNoise d)).

End Loader.

(** ** phasenoiseanalyzerapp.cpp: the frequency range sliders *)

Module Sliders.
Import Double Constants Utils App.

Definition X_AXIS_MIN : float := 0x1.999999999999ap-4%float.
Definition X_AXIS_MAX : float := 10000000%float.

(** [qMax] and [qMin] of Qt, on doubles. *)
Definition qMax (a b : float) : float := if (a <? b)%float then b else a.
Definition qMin (a b : float) : float := if (a <? b)%float then a else b.

(** [std::lower_bound] on a vector of doubles, the bisection of the
    standard library: the distance from the start to the iterator it
    returns. *)
Definition lower_bound_step (v : list float) (value : float)
    (st : Z * Z) : option (Z * Z) :=
  let (first, len) := st in
  let half := Z.shiftr len 1 in
  let middle := first + half in
  x ← at_ v middle;
  if (x <? value)%float then Some (middle + 1, len - half - 1)
  else Some (first, half).

Definition lower_bound (v : list float) (value : float) : option Z :=
  st ← while_loop (budget (size v)) (fun st => Some (0 <? st.2))
         (lower_bound_step v value) (0, size v);
  Some st.1.

Definition findClosestFreqStepIndex (freq : float) : option Z :=
  if isEmpty FREQ_POINTS then Some 0
  else
    idx ← lower_bound FREQ_POINTS freq;
    if idx =? 0 then Some 0
    else if idx =? size FREQ_POINTS then Some (size FREQ_POINTS - 1)
    else
      upper ← at_ FREQ_POINTS idx;
      lower ← at_ FREQ_POINTS (idx - 1);
      if (qFabs (upper - freq) <? qFabs (lower - freq))%float then Some idx
      else Some (idx - 1).

(** [*std::min_element] and [*std::max_element]: the first smallest and
    the first largest element. *)
Definition min_element (v : list float) : option float :=
  match v with
  | [] => None
  | x :: v' =>
      Some (foldl (fun result y => if (y <? result)%float then y else result)
              x v')
  end.

Definition max_element (v : list float) : option float :=
  match v with
  | [] => None
  | x :: v' =>
      Some (foldl (fun result y => if (result <? y)%float then y else result)
              x v')
  end.

(** The two indices. *)
Record Range := {
  m_minFreqSliderIndex : Z;
  m_maxFreqSliderIndex : Z;
}.

(** The members as the class initialises them. *)
Definition initialRange : Range :=
  {| m_minFreqSliderIndex := 0;
     m_maxFreqSliderIndex := size FREQ_POINTS - 1 |}.

(** The indices [loadData] chooses from the first dataset's
    frequencies. *)
Definition loadData_sliders (frequencyOffset : list float)
  : option Range :=
  minFreqData ← min_element frequencyOffset;
  maxFreqData ← max_element frequencyOffset;
  let viewMinFreq :=
    qMax X_AXIS_MIN (minFreqData * 0x1.ccccccccccccdp-1)%float in
  let viewMaxFreq :=
    qMin (X_AXIS_MAX * 10)%float
         (maxFreqData * 0x1.199999999999ap+0)%float in
  let viewMaxFreq :=
    if (viewMaxFreq <=? viewMinFreq)%float then (viewMinFreq * 10)%float
    else viewMaxFreq in
  minIndex ← findClosestFreqStepIndex viewMinFreq;
  maxIndex ← findClosestFreqStepIndex viewMaxFreq;
  if maxIndex <? minIndex then
    let maxIndex := Z.min (minIndex + 1) (size FREQ_POINTS - 1) in
    if maxIndex <? minIndex then
      Some {| m_minFreqSliderIndex := Z.max 0 (maxIndex - 1);
              m_maxFreqSliderIndex := maxIndex |}
    else
      Some {| m_minFreqSliderIndex := minIndex;
              m_maxFreqSliderIndex := maxIndex |}
  else
    Some {| m_minFreqSliderIndex := minIndex;
            m_maxFreqSliderIndex := maxIndex |}.

(** [QSlider::value] after [setValue] on a slider whose range is
    [0 .. FREQ_POINTS.size() - 1]: the value is brought into the range. *)
Definition slider_setValue (value : Z) : Z :=
  Z.max 0 (Z.min (size FREQ_POINTS - 1) value).

Definition onMinFreqSliderChanged (value : Z) (r : Range) : Range :=
  if m_maxFreqSliderIndex r <=? value then
    {| m_minFreqSliderIndex :=
         slider_setValue (Z.max 0 (m_maxFreqSliderIndex r - 1));
       m_maxFreqSliderIndex := m_maxFreqSliderIndex r |}
  else
    {| m_minFreqSliderIndex := value;
       m_maxFreqSliderIndex := m_maxFreqSliderIndex r |}.

Definition onMaxFreqSliderChanged (value : Z) (r : Range) : Range :=
  if value <=? m_minFreqSliderIndex r then
    {| m_minFreqSliderIndex := m_minFreqSliderIndex r;
       m_maxFreqSliderIndex :=
         slider_setValue
           (Z.min (size FREQ_POINTS - 1) (m_minFreqSliderIndex r + 1)) |}
  else
    {| m_minFreqSliderIndex := m_minFreqSliderIndex r;
       m_maxFreqSliderIndex := value |}.

(** The range [updatePlot] gives the frequency axis. *)
Definition updatePlot_xRange (r : Range) : option (float * float) :=
  xMin ← at_ FREQ_POINTS (m_minFreqSliderIndex r);
  xMax ← at_ FREQ_POINTS (m_maxFreqSliderIndex r);
  let xMin := qMax X_AXIS_MIN xMin in
  let xMax := if (xMax <=? xMin)%float then (xMin * 10)%float else xMax in
  Some (xMin, xMax).

(** The indices a slider can hold, the minimum not above the maximum. *)
Definition ordered (r : Range) : Prop :=
  0 <= m_minFreqSliderIndex r
  /\ m_minFreqSliderIndex r <= m_maxFreqSliderIndex r
  /\ m_maxFreqSliderIndex r <= size FREQ_POINTS - 1.

End Sliders.

(** ** phasenoiseanalyzerapp.cpp: the crosshair of [onPlotMouseMove] *)

Module Crosshair.
Import Double App.

Section Search.
Variable qLn : float -> float.

(** One turn of the loop over the graph's data container; [x] is the
    frequency under the cursor. *)
Definition crosshair_step (x : float) (st : Closest) (it : float * float)
  : Closest :=
  let currentKey := it.1 in
  if gtb x 0 && gtb currentKey 0 then
    let dist := qAbs (qLn currentKey - qLn x) in
    if (dist <? minDist st)%float then
      {| minDist := dist;
         closestFreq := currentKey;
         closestNoise := it.2;
         found := true |}
    else st
  else st.

Definition crosshair (x : float) (dataContainer : list (float * float))
  : Closest :=
  foldl (crosshair_step x) closest_init dataContainer.
End Search.

End Crosshair.

(** ** Runs of flagged samples *)

Module Runs.
Import Double Utils App.

(** [s .. e] is a maximal run of flagged samples: all of them are flagged
    and the run cannot be extended on either side. *)
Definition maximalRun (isSpur : list bool) (s e : Z) : Prop :=
  0 <= s <= e /\ e < size isSpur
  /\ (forall k, s <= k <= e -> at_ isSpur k = Some true)
  /\ (s = 0 \/ at_ isSpur (s - 1) = Some false)
  /\ (e = size isSpur - 1 \/ at_ isSpur (e + 1) = Some false).

(** The value at frequency [freq[j]] of the line through the samples of
    [meas] at [left] and [right]; the left value when the two are the same
    sample or their frequencies are within the tolerance. *)
Definition bridged (freq meas : list float) (left right j : Z)
  : option float :=
  leftVal ← at_ meas left;
  rightVal ← at_ meas right;
  leftFreq ← at_ freq left;
  rightFreq ← at_ freq right;
  fj ← at_ freq j;
  Some (if (left <? right)
           && gtb (qAbs (rightFreq - leftFreq)) freqTolerance
        then linearInterpolate leftFreq leftVal rightFreq rightVal fj
        else leftVal).

(** The same line as method 2 computes it, between the sample before a
    rising edge and the sample at the falling edge. *)
Definition ramped (freq meas : list float) (left right k : Z)
  : option float :=
  leftVal ← at_ meas left;
  rightVal ← at_ meas right;
  leftFreq ← at_ freq left;
  rightFreq ← at_ freq right;
  fk ← at_ freq k;
  Some (if gtb (qFabs (rightFreq - leftFreq)) freqTolerance
        then linearInterpolate leftFreq leftVal rightFreq rightVal fk
        else leftVal).

End Runs.

(** ** Sample datasets *)

Module Datasets.
Import App.

(** The scenario of the specification as a dataset with reference data,
    as [loadData] would leave it. *)
Definition scenario : PlotData :=
  {| frequencyOffset := Samples.scenarioFreq;
     phaseNoise := Samples.scenarioMeas;
     referenceNoise := Samples.scenarioRef;
     phaseNoiseFiltered := Samples.scenarioMeas;
     referenceNoiseFiltered := Samples.scenarioRef;
     hasReferenceData := true;
     isVisible := true;
     graphMeasured := None |}.

(** The curve of three samples as a plotted dataset without reference
    data, and the same dataset hidden by a click on its legend entry. *)
Definition plotted : PlotData :=
  {| frequencyOffset := Samples.curve.*1;
     phaseNoise := Samples.curve.*2;
     referenceNoise := [Double.quiet_NaN; Double.quiet_NaN; Double.quiet_NaN];
     phaseNoiseFiltered := Samples.curve.*2;
     referenceNoiseFiltered :=
       [Double.quiet_NaN; Double.quiet_NaN; Double.quiet_NaN];
     hasReferenceData := false;
     isVisible := true;
     graphMeasured := Some Samples.curve |}.

Definition hidden : PlotData :=
  {| frequencyOffset := frequencyOffset plotted;
     phaseNoise := phaseNoise plotted;
     referenceNoise := referenceNoise plotted;
     phaseNoiseFiltered := phaseNoiseFiltered plotted;
     referenceNoiseFiltered := referenceNoiseFiltered plotted;
     hasReferenceData := hasReferenceData plotted;
     isVisible := false;
     graphMeasured := graphMeasured plotted |}.

End Datasets.

(** * Properties *)

Import Double Constants Utils App.

(** ** The order of doubles *)

Section FloatOrder.

Ltac sf_cases :=
  repeat match goal with
    | b : bool |- _ => destruct b
    | |- context [Z.compare ?a ?b] => destruct (Z.compare_spec a b)
    | H : context [Z.compare ?a ?b] |- _ => destruct (Z.compare_spec a b)
    | |- context [Pos.compare_cont Eq ?a ?b] =>
        change (Pos.compare_cont Eq a b) with (Pos.compare a b);
        destruct (Pos.compare_spec a b)
    | H : context [Pos.compare_cont Eq ?a ?b] |- _ =>
        change (Pos.compare_cont Eq a b) with (Pos.compare a b) in H;
        destruct (Pos.compare_spec a b)
    end;
  simpl in *; try congruence; try lia.

Lemma SFcompare_swap (x y : spec_float) :
  SFcompare y x = CompOpp <$> SFcompare x y.
Proof. destruct x, y; simpl; try reflexivity; sf_cases. Qed.

Lemma SFcompare_lt_trans (x y z : spec_float) :
  SFcompare x y = Some Lt -> SFcompare y z = Some Lt ->
  SFcompare x z = Some Lt.
Proof. destruct x, y, z; simpl; intros; try congruence; sf_cases. Qed.

Lemma SFcompare_eq_lt_trans (x y z : spec_float) :
  SFcompare x y = Some Eq -> SFcompare y z = Some Lt ->
  SFcompare x z = Some Lt.
Proof. destruct x, y, z; simpl; intros; try congruence; sf_cases. Qed.

Lemma leb_true_ltb_false (x y : float) :
  (x <=? y)%float = true -> (y <? x)%float = false.
Proof.
  rewrite leb_spec, ltb_spec. unfold SFleb, SFltb.
  rewrite (SFcompare_swap (Prim2SF x) (Prim2SF y)).
  destruct (SFcompare (Prim2SF x) (Prim2SF y)) as [[]|]; simpl; congruence.
Qed.

Lemma ltb_true_leb_false (x y : float) :
  (x <? y)%float = true -> (y <=? x)%float = false.
Proof.
  rewrite leb_spec, ltb_spec. unfold SFleb, SFltb.
  rewrite (SFcompare_swap (Prim2SF x) (Prim2SF y)).
  destruct (SFcompare (Prim2SF x) (Prim2SF y)) as [[]|]; simpl; congruence.
Qed.

Lemma ltb_trans (a b c : float) :
  (a <? b)%float = true -> (b <? c)%float = true -> (a <? c)%float = true.
Proof.
  rewrite !ltb_spec. unfold SFltb. intros Hab Hbc.
  destruct (SFcompare (Prim2SF a) (Prim2SF b)) as [[]|] eqn:E1; try discriminate.
  destruct (SFcompare (Prim2SF b) (Prim2SF c)) as [[]|] eqn:E2; try discriminate.
  now rewrite (SFcompare_lt_trans _ _ _ E1 E2).
Qed.

Lemma leb_ltb_trans (a b c : float) :
  (a <=? b)%float = true -> (b <? c)%float = true -> (a <? c)%float = true.
Proof.
  rewrite leb_spec, !ltb_spec. unfold SFleb, SFltb. intros Hab Hbc.
  destruct (SFcompare (Prim2SF b) (Prim2SF c)) as [[]|] eqn:E2; try discriminate.
  destruct (SFcompare (Prim2SF a) (Prim2SF b)) as [[]|] eqn:E1; try discriminate.
  - now rewrite (SFcompare_eq_lt_trans _ _ _ E1 E2).
  - now rewrite (SFcompare_lt_trans _ _ _ E1 E2).
Qed.

Lemma ltb_leb_trans (a b c : float) :
  (a <? b)%float = true -> (b <=? c)%float = true -> (a <? c)%float = true.
Proof.
  rewrite leb_spec, !ltb_spec. unfold SFleb, SFltb. intros Hab Hbc.
  destruct (Prim2SF a), (Prim2SF b), (Prim2SF c); simpl in *;
    try congruence; sf_cases.
Qed.

Lemma ltb_true_not_nan (a b : float) :
  (a <? b)%float = true -> is_nan a = false /\ is_nan b = false.
Proof.
  unfold is_nan. rewrite ltb_spec, !FloatAxioms.eqb_spec. unfold SFltb, SFeqb.
  destruct (Prim2SF a), (Prim2SF b); simpl; intros; try congruence;
    split; sf_cases.
Qed.

Lemma leb_false_ltb_true (a b : float) :
  is_nan a = false -> is_nan b = false ->
  (a <=? b)%float = false -> (b <? a)%float = true.
Proof.
  unfold is_nan. rewrite leb_spec, ltb_spec, !FloatAxioms.eqb_spec.
  unfold SFleb, SFltb, SFeqb.
  destruct (Prim2SF a), (Prim2SF b); simpl; intros; try congruence; sf_cases.
Qed.

Lemma ltb_irrefl (x : float) : (x <? x)%float = false.
Proof.
  rewrite ltb_spec. unfold SFltb.
  pose proof (SFcompare_swap (Prim2SF x) (Prim2SF x)) as H.
  destruct (SFcompare (Prim2SF x) (Prim2SF x)) as [[]|]; try reflexivity.
  discriminate H.
Qed.

Lemma Prim2SF_zero : Prim2SF 0 = S754_zero false.
Proof. reflexivity. Qed.

(** [qAbs] and [qFabs] differ at most in the sign of a zero, which no
    comparison sees. *)
Lemma qAbs_qFabs_ltb (x y : float) :
  (qFabs x <? y)%float = (qAbs x <? y)%float.
Proof.
  unfold qFabs, qAbs. destruct (0 <=? x)%float eqn:E;
    rewrite leb_spec, Prim2SF_zero in E; rewrite !ltb_spec;
    rewrite ?abs_spec, ?opp_spec; unfold SFleb, SFltb in *;
    destruct (Prim2SF x), (Prim2SF y); simpl in *; try congruence; sf_cases.
Qed.

Lemma qAbs_ltb_zero (x : float) : (qAbs x <? 0)%float = false.
Proof.
  unfold qAbs. destruct (0 <=? x)%float eqn:E.
  - now apply leb_true_ltb_false.
  - rewrite leb_spec, Prim2SF_zero in E. rewrite ltb_spec, Prim2SF_zero.
    rewrite opp_spec. unfold SFleb, SFltb in *.
    destruct (Prim2SF x); simpl in *; try congruence; sf_cases.
Qed.

Lemma Prim2SF_epsilon :
  Prim2SF epsilon = S754_finite false 4503599627370496 (-104).
Proof. vm_compute. reflexivity. Qed.

(** A zero difference passes the guard of [linearInterpolate]. *)
Lemma zero_below_epsilon (d : float) :
  (d =? 0)%float = true -> (qFabs d <? epsilon)%float = true.
Proof.
  unfold qFabs.
  rewrite FloatAxioms.eqb_spec, ltb_spec, abs_spec, Prim2SF_zero,
    Prim2SF_epsilon.
  unfold SFeqb, SFltb.
  destruct (Prim2SF d) as [[]|[]| |[] m e]; intros H; cbv in H;
    try discriminate H; reflexivity.
Qed.

(** The sign of a rounded number is the sign it was given. *)
Lemma binary_round_sign (s : bool) (m : positive) (e : Z) :
  match binary_round prec emax s m e with
  | S754_zero s' | S754_infinity s' | S754_finite s' _ _ => s' = s
  | S754_nan => True
  end.
Proof.
  unfold binary_round, binary_round_aux.
  destruct (shl_align _ _ _) as [mz ez].
  destruct (shr_fexp _ _ _ _ _) as [mrs' e'].
  destruct (shr_fexp _ _ _ _ _) as [mrs'' e''].
  destruct (shr_m mrs''); [reflexivity | | exact I].
  now destruct (e'' <=? emax - prec).
Qed.

Lemma SFsub_finite (sx : bool) (mx : positive) (ex : Z)
    (sy : bool) (my : positive) (ey : Z) :
  SF64sub (S754_finite sx mx ex) (S754_finite sy my ey)
  = binary_normalize prec emax
      (cond_Zopp sx (Z.pos (shl_align mx ex (Z.min ex ey)).1)
       - cond_Zopp sy (Z.pos (shl_align my ey (Z.min ex ey)).1))
      (Z.min ex ey) false.
Proof. reflexivity. Qed.

(** Two doubles cannot each exceed the other by more than a positive
    amount. *)
Lemma sub_gt_exclusive (a b c : float) :
  (0 <? c)%float = true ->
  (c <? a - b)%float = true -> (c <? b - a)%float = false.
Proof.
  rewrite !ltb_spec, !sub_spec, Prim2SF_zero. unfold SFltb.
  destruct (Prim2SF c) as [[]|[]| |[] mc ec]; try discriminate; intros _.
  - (* c is infinite *)
    destruct (SF64sub (Prim2SF a) (Prim2SF b)) as [[]|[]| |[] ? ?];
      discriminate.
  - (* c is finite and positive *)
    destruct (Prim2SF a) as [sa|sa| |sa ma ea],
             (Prim2SF b) as [sb|sb| |sb mb eb];
      try solve [ repeat match goal with s : bool |- _ => destruct s end;
                  cbn; intros H; first [discriminate H | reflexivity] ].
    rewrite !SFsub_finite. rewrite (Z.min_comm eb ea).
    set (u := cond_Zopp sa (Z.pos (shl_align ma ea (Z.min ea eb)).1)).
    set (v := cond_Zopp sb (Z.pos (shl_align mb eb (Z.min ea eb)).1)).
    replace (v - u) with (- (u - v)) by lia.
    destruct (u - v) as [|p|p]; cbv [Z.opp binary_normalize].
    + discriminate.
    + intros _.
      pose proof (binary_round_sign true p (Z.min ea eb)) as Hs.
      destruct (binary_round prec emax true p (Z.min ea eb))
        as [s'|s'| |s' ? ?]; try subst s'; reflexivity.
    + pose proof (binary_round_sign true p (Z.min ea eb)) as Hs.
      destruct (binary_round prec emax true p (Z.min ea eb))
        as [s'|s'| |s' ? ?]; try subst s'; discriminate.
Qed.

Lemma Prim2SF_infinity : Prim2SF infinity = S754_infinity false.
Proof. reflexivity. Qed.

(** A finite double minus itself is zero. *)
Lemma sub_self_finite (x : float) :
  is_finite x = true -> (x - x)%float = 0%float.
Proof.
  unfold is_finite, is_nan, is_infinity.
  rewrite !FloatAxioms.eqb_spec, abs_spec, Prim2SF_infinity.
  intros H. apply Prim2SF_inj. rewrite sub_spec, Prim2SF_zero.
  unfold SF64sub, SFeqb in *.
  destruct (Prim2SF x) as [[]|[]| |s m e]; try discriminate H;
    try reflexivity.
  unfold SFsub. now rewrite Z.sub_diag.
Qed.

End FloatOrder.

(** ** Vectors and loops *)

Section VectorFacts.
Context {A : Type}.
Implicit Types (v : list A) (i : Z) (x : A).

Lemma size_nonneg v : 0 <= size v.
Proof. unfold size. lia. Qed.

Lemma size_nil : size (@nil A) = 0.
Proof. reflexivity. Qed.

Lemma size_insert v (k : nat) x : size (<[k := x]> v) = size v.
Proof. unfold size. now rewrite length_insert. Qed.

Lemma size_filled (n : Z) x : 0 <= n -> size (filled n x) = n.
Proof. intros. unfold size, filled. rewrite length_replicate. lia. Qed.

Lemma size_app v w : size (v ++ w) = size v + size w.
Proof. unfold size. rewrite length_app. lia. Qed.

Lemma at_lookup v i :
  0 <= i < size v -> at_ v i = v !! Z.to_nat i.
Proof.
  intros. unfold at_.
  destruct (0 <=? i) eqn:E1; [|lia]. destruct (i <? size v) eqn:E2; [|lia].
  reflexivity.
Qed.

Lemma at_is_Some v i : 0 <= i < size v -> is_Some (at_ v i).
Proof.
  intros H. rewrite at_lookup by assumption.
  apply lookup_lt_is_Some. unfold size in H. lia.
Qed.

Lemma at_Some_range v i x : at_ v i = Some x -> 0 <= i < size v.
Proof.
  unfold at_. destruct (0 <=? i) eqn:E1; destruct (i <? size v) eqn:E2;
    simpl; try discriminate. lia.
Qed.

Lemma at_Some_lookup v i x : at_ v i = Some x -> v !! Z.to_nat i = Some x.
Proof.
  intros H. pose proof (at_Some_range _ _ _ H).
  now rewrite at_lookup in H.
Qed.

Lemma set_in_range v i x :
  0 <= i < size v -> set_ v i x = Some (<[Z.to_nat i := x]> v).
Proof.
  intros. unfold set_.
  destruct (0 <=? i) eqn:E1; [|lia]. destruct (i <? size v) eqn:E2; [|lia].
  reflexivity.
Qed.

Lemma set_Some v i x v' :
  set_ v i x = Some v' -> 0 <= i < size v /\ v' = <[Z.to_nat i := x]> v.
Proof.
  unfold set_. destruct (0 <=? i) eqn:E1; destruct (i <? size v) eqn:E2;
    simpl; try discriminate. intros [= <-]. split; [lia | reflexivity].
Qed.

Lemma at_insert_eq v i x :
  0 <= i < size v -> at_ (<[Z.to_nat i := x]> v) i = Some x.
Proof.
  intros H. rewrite at_lookup by now rewrite size_insert.
  apply list_lookup_insert_eq. unfold size in H. lia.
Qed.

Lemma at_insert_ne v i j x :
  0 <= i -> 0 <= j -> i <> j -> at_ (<[Z.to_nat i := x]> v) j = at_ v j.
Proof.
  intros Hi Hj Hne. unfold at_. rewrite size_insert.
  destruct ((0 <=? j) && (j <? size v)); [|reflexivity].
  apply list_lookup_insert_ne. lia.
Qed.

(** Two vectors with the same entries are equal. *)
Lemma vector_ext v w :
  size v = size w -> (forall i, 0 <= i < size v -> at_ v i = at_ w i) -> v = w.
Proof.
  intros Hs H. apply list_eq. intros k.
  destruct (decide (k < length v)%nat) as [Hk|Hk].
  - specialize (H (Z.of_nat k)). unfold size in *.
    rewrite !at_lookup in H by (unfold size; lia).
    rewrite Nat2Z.id in H. apply H. lia.
  - unfold size in Hs.
    rewrite !lookup_ge_None_2 by lia. reflexivity.
Qed.

End VectorFacts.

Section LoopFacts.
Context {S : Type}.
Implicit Types (body : Z -> S -> option S) (s : S).

(** The invariant rule of the counted loop. *)
Lemma for_iter_inv (P : Z -> S -> Prop) body (n : nat) (i : Z) s :
  P i s ->
  (forall k t, i <= k < i + Z.of_nat n -> P k t ->
     exists t', body k t = Some t' /\ P (k + 1) t') ->
  exists s', for_iter n i body s = Some s' /\ P (i + Z.of_nat n) s'.
Proof.
  revert i s. induction n as [|n IH]; intros i s HP Hstep.
  - exists s. split; [reflexivity|]. now replace (i + Z.of_nat 0) with i by lia.
  - destruct (Hstep i s ltac:(lia) HP) as (t & Hb & HP').
    destruct (IH (i + 1) t HP') as (s' & Hrun & HQ).
    { intros k u Hk. apply Hstep. lia. }
    exists s'. split.
    + simpl. rewrite Hb. simpl. exact Hrun.
    + now replace (i + Z.of_nat (Datatypes.S n)) with (i + 1 + Z.of_nat n) by lia.
Qed.

Lemma for_range_inv (P : Z -> S -> Prop) body (lo hi : Z) s :
  lo <= hi ->
  P lo s ->
  (forall k t, lo <= k < hi -> P k t ->
     exists t', body k t = Some t' /\ P (k + 1) t') ->
  exists s', for_range lo hi body s = Some s' /\ P hi s'.
Proof.
  intros Hle HP Hstep. unfold for_range.
  destruct (for_iter_inv P body (Z.to_nat (hi - lo)) lo s HP) as (s' & H1 & H2).
  { intros k t Hk. apply Hstep. lia. }
  exists s'. split; [exact H1|].
  now replace (lo + Z.of_nat (Z.to_nat (hi - lo))) with hi in H2 by lia.
Qed.

(** The same rule for a loop known to have run to its end. *)
Lemma for_iter_partial (P : Z -> S -> Prop) body (n : nat) (i : Z) s s' :
  P i s ->
  (forall k t t', i <= k < i + Z.of_nat n -> P k t -> body k t = Some t' ->
     P (k + 1) t') ->
  for_iter n i body s = Some s' -> P (i + Z.of_nat n) s'.
Proof.
  revert i s. induction n as [|n IH]; intros i s HP Hstep Hrun.
  - injection Hrun as <-. now replace (i + Z.of_nat 0) with i by lia.
  - simpl in Hrun. destruct (body i s) as [t|] eqn:Hb; [|discriminate].
    simpl in Hrun.
    replace (i + Z.of_nat (Datatypes.S n)) with (i + 1 + Z.of_nat n) by lia.
    apply (IH (i + 1) t); [| |exact Hrun].
    + apply (Hstep i s t); [lia | exact HP | exact Hb].
    + intros k u u' Hk. apply Hstep. lia.
Qed.

Lemma for_range_partial (P : Z -> S -> Prop) body (lo hi : Z) s s' :
  lo <= hi ->
  P lo s ->
  (forall k t t', lo <= k < hi -> P k t -> body k t = Some t' ->
     P (k + 1) t') ->
  for_range lo hi body s = Some s' -> P hi s'.
Proof.
  intros Hle HP Hstep Hrun. unfold for_range in Hrun.
  replace hi with (lo + Z.of_nat (Z.to_nat (hi - lo))) at 1 by lia.
  apply (for_iter_partial P body _ _ s s' HP); [|exact Hrun].
  intros k t t' Hk. apply Hstep. lia.
Qed.

Lemma for_range_empty body (lo hi : Z) s :
  hi <= lo -> for_range lo hi body s = Some s.
Proof.
  intros. unfold for_range. now replace (Z.to_nat (hi - lo)) with O by lia.
Qed.

(** A while loop whose condition fails at once. *)
Lemma while_loop_exit (fuel : nat) (cond : S -> option bool)
    (body : S -> option S) s :
  cond s = Some false -> while_loop (Datatypes.S fuel) cond body s = Some s.
Proof. intros H. simpl. now rewrite H. Qed.

Lemma while_loop_step (fuel : nat) (cond : S -> option bool)
    (body : S -> option S) s s' :
  cond s = Some true -> body s = Some s' ->
  while_loop (Datatypes.S fuel) cond body s = while_loop fuel cond body s'.
Proof. intros H1 H2. simpl. rewrite H1. simpl. now rewrite H2. Qed.

(** The invariant rule of the while loop: a measure bounded by the fuel
    decreases at every turn. *)
Lemma while_loop_inv (P : S -> Prop) (measure : S -> Z)
    (cond : S -> option bool) (body : S -> option S) (fuel : nat) s :
  P s ->
  measure s < Z.of_nat fuel ->
  (forall t, P t -> 0 <= measure t) ->
  (forall t, P t -> is_Some (cond t)) ->
  (forall t, P t -> cond t = Some true ->
     exists t', body t = Some t' /\ P t' /\ measure t' < measure t) ->
  exists s', while_loop fuel cond body s = Some s' /\ P s'
             /\ cond s' = Some false.
Proof.
  intros HP Hm Hpos Hcond Hstep. revert s HP Hm.
  induction fuel as [|fuel IH]; intros s HP Hm.
  - specialize (Hpos s HP). lia.
  - destruct (Hcond s HP) as [[] Hc].
    + destruct (Hstep s HP Hc) as (t & Hb & HPt & Hlt).
      destruct (IH t HPt ltac:(lia)) as (s' & Hrun & HP' & Hc').
      exists s'. split; [|now split].
      now rewrite (while_loop_step _ _ _ _ _ Hc Hb).
    + exists s. split; [|now split]. now apply while_loop_exit.
Qed.

End LoopFacts.

(** Apply the invariant rule to the counted loop in the goal. *)
Tactic Notation "loop_inv" uconstr(P) "as" simple_intropattern(pat) :=
  match goal with
  | |- context [for_range ?lo ?hi ?b ?s] =>
      destruct (for_range_inv P b lo hi s) as pat
  end.

Section WriteLoops.
Context {A : Type}.

Lemma for_range_ext {S : Type} (body body' : Z -> S -> option S)
    (lo hi : Z) (s : S) :
  (forall k t, lo <= k < hi -> body k t = body' k t) ->
  for_range lo hi body s = for_range lo hi body' s.
Proof.
  unfold for_range. intros H.
  assert (G : forall (n : nat) i t, lo <= i -> i + Z.of_nat n <= Z.max lo hi ->
            for_iter n i body t = for_iter n i body' t).
  { induction n as [|n IH]; intros i t Hlo Hhi; [reflexivity|].
    simpl. rewrite H by lia. destruct (body' i t); [|reflexivity].
    simpl. apply IH; lia. }
  apply G; lia.
Qed.

(** A loop that assigns [v[i] = f i] for [i] from [lo] up to [hi]: the
    entries in the range hold the values of [f], the others are kept. *)
Lemma for_range_write (f : Z -> option A) (lo hi : Z) (init : list A) :
  0 <= lo <= hi -> hi <= size init ->
  (forall i, lo <= i < hi -> is_Some (f i)) ->
  exists out,
    for_range lo hi (fun i v => x ← f i; set_ v i x) init = Some out
    /\ size out = size init
    /\ (forall i, lo <= i < hi -> at_ out i = f i)
    /\ (forall i, ~ lo <= i < hi -> at_ out i = at_ init i).
Proof.
  intros Hlo Hhi Hf.
  destruct (for_range_inv
    (fun k v => size v = size init
                /\ (forall i, lo <= i < k -> at_ v i = f i)
                /\ (forall i, ~ lo <= i < k -> at_ v i = at_ init i))
    (fun i v => x ← f i; set_ v i x) lo hi init) as (out & Hrun & Hs & Hin & Hout).
  - lia.
  - split; [reflexivity|]. split; [intros; lia | reflexivity].
  - intros k v Hk (Hs & Hin & Hout).
    destruct (Hf k Hk) as [x Hx]. rewrite Hx. simpl.
    rewrite set_in_range by lia.
    eexists. split; [reflexivity|].
    split; [now rewrite size_insert|]. split.
    + intros i Hi. destruct (decide (i = k)) as [->|Hne].
      * rewrite at_insert_eq by lia. now symmetry.
      * rewrite at_insert_ne by lia. apply Hin. lia.
    + intros i Hi. destruct (decide (0 <= i)) as [H0|H0].
      * rewrite at_insert_ne by lia. apply Hout. lia.
      * unfold at_. destruct (0 <=? i) eqn:E; [lia|reflexivity].
  - exists out. auto.
Qed.

End WriteLoops.

(** ** The filters *)

Section FilterFacts.

Lemma oddify_even (w : Z) :
  oddify w = if Z.even w then w + 1 else w.
Proof.
  unfold oddify. now rewrite <- Zquot.Zeven_rem.
Qed.

Lemma oddify_odd (w : Z) : Z.even (oddify w) = false.
Proof.
  rewrite oddify_even. destruct (Z.even w) eqn:E; [|exact E].
  rewrite Z.even_add, E. reflexivity.
Qed.

Lemma oddify_succ_even (w : Z) :
  Z.even w = true -> oddify (w + 1) = oddify w.
Proof.
  intros E. rewrite !oddify_even, E, Z.even_add, E. reflexivity.
Qed.

Lemma isEmpty_size {A} (data : list A) :
  isEmpty data = false -> 1 <= size data.
Proof. destruct data; [discriminate|]. unfold size. simpl. lia. Qed.

Lemma isEmpty_nil {A} (data : list A) : isEmpty data = true -> data = [].
Proof. now destruct data. Qed.

Lemma quot2_ge (w : Z) : 3 <= w -> 1 <= Z.quot w 2.
Proof.
  intros. rewrite Z.quot_div_nonneg by lia.
  apply Z.div_le_lower_bound; lia.
Qed.

Lemma movingAverage_window_total (data : list float) (halfWindow i : Z) :
  0 <= halfWindow -> is_Some (movingAverage_window data halfWindow i).
Proof.
  intros Hh. unfold movingAverage_window.
  loop_inv (fun _ _ => True) as (r & Hr & _);
    [lia | exact I | | rewrite Hr; eauto].
  intros k [s c] Hk _. simpl.
  destruct ((0 <=? i + k) && (i + k <? size data)) eqn:E; [|eauto].
  destruct (at_is_Some data (i + k)) as [x Hx]; [lia|].
  rewrite Hx. simpl. eauto.
Qed.

Lemma sort_insert_length (x : float) (l : list float) :
  length (sort_insert x l) = Datatypes.S (length l).
Proof.
  induction l as [|y l IH]; [reflexivity|].
  simpl. destruct (x <? y)%float; simpl; [reflexivity | now rewrite IH].
Qed.

Lemma std_sort_length (l : list float) : length (std_sort l) = length l.
Proof.
  induction l as [|x l IH]; [reflexivity|].
  unfold std_sort in *. simpl. now rewrite sort_insert_length, IH.
Qed.

Lemma medianFilter_window_total (data : list float) (halfWindow i : Z) :
  0 <= halfWindow -> 1 <= size data ->
  exists window, medianFilter_window data halfWindow i = Some window
                 /\ size window = 2 * halfWindow + 1.
Proof.
  intros Hh Hn. unfold medianFilter_window.
  loop_inv (fun j (window : list float) => size window = j + halfWindow)
    as (r & Hr & Hs).
  - lia.
  - rewrite size_nil. lia.
  - intros k w Hk Hw. simpl.
    destruct (at_is_Some data (Z.max 0 (Z.min (size data - 1) (i + k))))
      as [x Hx]; [lia|].
    rewrite Hx. simpl. eexists. split; [reflexivity|].
    rewrite size_app, Hw. unfold size. simpl. lia.
  - exists r. split; [exact Hr | lia].
Qed.

Lemma movingAverage_total (data : list float) (windowSize : Z) :
  is_Some (movingAverage data windowSize).
Proof.
  unfold movingAverage.
  destruct ((oddify windowSize <? 3) || isEmpty data) eqn:E; [eauto|].
  apply orb_false_iff in E as [Ew Ee]. apply Z.ltb_ge in Ew.
  pose proof (isEmpty_size _ Ee) as Hn. pose proof (quot2_ge _ Ew) as Hh.
  loop_inv (fun _ (v : list float) => size v = size data) as (r & Hr & _);
    [lia | apply size_filled; lia | | rewrite Hr; eauto].
  intros k v Hk Hv.
  destruct (movingAverage_window_total data (Z.quot (oddify windowSize) 2) k)
    as [[s c] Hw]; [lia|].
  rewrite Hw. simpl. destruct (0 <? c).
  - rewrite set_in_range by lia. eexists. split; [reflexivity|].
    now rewrite size_insert.
  - destruct (at_is_Some data k) as [x Hx]; [lia|]. rewrite Hx. simpl.
    rewrite set_in_range by lia. eexists. split; [reflexivity|].
    now rewrite size_insert.
Qed.

Lemma medianFilter_total (data : list float) (windowSize : Z) :
  exists out, medianFilter data windowSize = Some out
              /\ size out = size data.
Proof.
  unfold medianFilter.
  destruct ((oddify windowSize <? 3) || isEmpty data) eqn:E; [eauto|].
  apply orb_false_iff in E as [Ew Ee]. apply Z.ltb_ge in Ew.
  pose proof (isEmpty_size _ Ee) as Hn. pose proof (quot2_ge _ Ew) as Hh.
  set (h := Z.quot (oddify windowSize) 2) in *.
  loop_inv (fun _ (v : list float) => size v = size data) as (r & Hr & Hs);
    [lia | apply size_filled; lia | | exists r; auto].
  intros k v Hk Hv.
  destruct (medianFilter_window_total data h k) as (w & Hw & Hsw); [lia..|].
  rewrite Hw. simpl.
  assert (Hss : size (std_sort w) = 2 * h + 1).
  { unfold size in *. now rewrite std_sort_length. }
  destruct (at_is_Some (std_sort w) (Z.quot (size (std_sort w)) 2)) as [m Hm].
  { rewrite Hss. rewrite Z.quot_div_nonneg by lia.
    split; [apply Z.div_pos; lia | apply Z.div_lt_upper_bound; lia]. }
  rewrite Hm. simpl. rewrite set_in_range by lia.
  eexists. split; [reflexivity|]. now rewrite size_insert.
Qed.

End FilterFacts.

(** ** Savitzky-Golay *)

Section SavitzkyGolayFacts.

(** The window whose kernel [savitzkyGolay] applies. *)
Lemma selectCoeffs_odd (w : Z) :
  5 <= w -> Z.even w = false ->
  exists coeffs norm w',
    selectCoeffs w = Some (coeffs, norm, w')
    /\ size coeffs = 2 * Z.quot w' 2 + 1
    /\ w' = (if w =? 5 then 5 else if w =? 7 then 7 else 11)
    /\ (9 <= w -> coeffs = coeffs_11 /\ norm = norm_11).
Proof.
  intros Hw Hodd. unfold selectCoeffs.
  destruct (w =? 5) eqn:E5.
  { apply Z.eqb_eq in E5. subst w. do 3 eexists.
    split; [reflexivity|]. split; [reflexivity|]. split; [reflexivity|lia]. }
  destruct (w =? 7) eqn:E7.
  { apply Z.eqb_eq in E7. subst w. do 3 eexists.
    split; [reflexivity|]. split; [reflexivity|]. split; [reflexivity|lia]. }
  apply Z.eqb_neq in E5, E7.
  assert (Hne : w <> 6 /\ w <> 8) by (split; intros ->; discriminate).
  destruct ((9 <=? w) && (w <=? 15)) eqn:E9.
  { do 3 eexists. split; [reflexivity|]. split; [reflexivity|]. auto. }
  destruct (15 <? w) eqn:E15.
  { do 3 eexists. split; [reflexivity|]. split; [reflexivity|]. auto. }
  apply andb_false_iff in E9. apply Z.ltb_ge in E15.
  destruct E9 as [E9|E9]; [apply Z.leb_gt in E9 | apply Z.leb_gt in E9]; lia.
Qed.

Lemma reflectIndex_range (n i j : Z) :
  1 <= n -> 0 <= reflectIndex n i j < n.
Proof. intros. unfold reflectIndex. lia. Qed.

Lemma reflectIndex_inside (n i j : Z) :
  0 <= i + j < n -> reflectIndex n i j = i + j.
Proof.
  intros. unfold reflectIndex.
  destruct (i + j <? 0) eqn:E1; [lia|].
  destruct (n <=? i + j) eqn:E2; lia.
Qed.

Lemma spec_reflect_inside (n index : Z) :
  0 <= index < n -> Spec.reflect n index = index.
Proof.
  intros. unfold Spec.reflect.
  destruct (index <? 0) eqn:E1; [lia|].
  destruct (n <=? index) eqn:E2; lia.
Qed.

Lemma savitzkyGolay_sum_total (coeffs data : list float) (h i : Z) :
  0 <= h -> size coeffs = 2 * h + 1 -> 1 <= size data ->
  is_Some (savitzkyGolay_sum coeffs data h i).
Proof.
  intros Hh Hc Hn. unfold savitzkyGolay_sum.
  loop_inv (fun _ _ => True) as (r & Hr & _);
    [lia | exact I | | rewrite Hr; eauto].
  intros k t Hk _. simpl.
  destruct (at_is_Some coeffs (k + h)) as [c Ec]; [lia|].
  destruct (at_is_Some data (reflectIndex (size data) i k)) as [x Ex];
    [now apply reflectIndex_range|].
  rewrite Ec, Ex. simpl. eauto.
Qed.

(** The smoothed value [sum / norm] at position [i]. *)
Lemma savitzkyGolay_shape (data coeffs : list float) (norm : float) (h : Z) :
  0 <= h -> h <= size data -> 1 <= size data ->
  size coeffs = 2 * h + 1 ->
  exists out,
    (smoothed ←
       for_range 0 (size data)
         (fun i smoothed =>
            sum ← savitzkyGolay_sum coeffs data h i;
            set_ smoothed i (sum / norm)%float)
         (filled (size data) 0%float);
     smoothed ← copyRange data 0 h smoothed;
     copyRange data (size data - h) (size data) smoothed) = Some out
    /\ size out = size data
    /\ (forall i, 0 <= i < size data -> i < h \/ size data - h <= i ->
          at_ out i = at_ data i)
    /\ (forall i, h <= i < size data - h ->
          at_ out i =
          (sum ← savitzkyGolay_sum coeffs data h i; Some (sum / norm)%float)).
Proof.
  intros Hh Hhn Hn Hc.
  set (f := fun i => sum ← savitzkyGolay_sum coeffs data h i;
                     Some (sum / norm)%float).
  rewrite (for_range_ext _ (fun i v => x ← f i; set_ v i x)).
  2:{ intros k t _. unfold f.
      now destruct (savitzkyGolay_sum coeffs data h k). }
  destruct (for_range_write f 0 (size data) (filled (size data) 0%float))
    as (s1 & R1 & S1 & I1 & _).
  { lia. } { rewrite size_filled; lia. }
  { intros i Hi. unfold f.
    destruct (savitzkyGolay_sum_total coeffs data h i) as [x Hx]; try lia.
    rewrite Hx. simpl. eauto. }
  rewrite R1. simpl. rewrite size_filled in S1 by lia.
  unfold copyRange.
  destruct (for_range_write (at_ data) 0 h s1) as (s2 & R2 & S2 & I2 & O2).
  { lia. } { lia. } { intros i Hi. apply at_is_Some. lia. }
  rewrite R2. simpl.
  destruct (for_range_write (at_ data) (size data - h) (size data) s2)
    as (s3 & R3 & S3 & I3 & O3).
  { lia. } { lia. } { intros i Hi. apply at_is_Some. lia. }
  rewrite R3. exists s3. split; [reflexivity|]. split; [lia|]. split.
  - intros i Hi Hedge.
    destruct (decide (size data - h <= i)) as [Hr|Hr].
    + apply I3. lia.
    + rewrite O3 by lia. apply I2. lia.
  - intros i Hi. rewrite O3 by lia. rewrite O2 by lia. apply I1. lia.
Qed.

(** [savitzkyGolay] either returns its input or applies the kernel of
    half-width [h] chosen for the oddified window. *)
Lemma savitzkyGolay_run (data : list float) (w polyOrder : Z) :
  ((oddify w < 5 \/ oddify w <= polyOrder \/ size data < oddify w)
   /\ savitzkyGolay data w polyOrder = Some data)
  \/ (5 <= oddify w <= size data /\ polyOrder < oddify w
      /\ exists coeffs norm u out,
           selectCoeffs (oddify w) = Some (coeffs, norm, u)
           /\ u = (if oddify w =? 5 then 5 else if oddify w =? 7 then 7 else 11)
           /\ (9 <= oddify w -> coeffs = coeffs_11 /\ norm = norm_11)
           /\ savitzkyGolay data w polyOrder = Some out
           /\ size out = size data
           /\ (forall i, 0 <= i < size data ->
                 i < Z.quot u 2 \/ size data - Z.quot u 2 <= i ->
                 at_ out i = at_ data i)
           /\ (forall i, Z.quot u 2 <= i < size data - Z.quot u 2 ->
                 at_ out i =
                 (sum ← savitzkyGolay_sum coeffs data (Z.quot u 2) i;
                  Some (sum / norm)%float))).
Proof.
  unfold savitzkyGolay.
  destruct (oddify w <? 5) eqn:E1; simpl.
  { left. apply Z.ltb_lt in E1. auto. }
  destruct (oddify w <=? polyOrder) eqn:E2; simpl.
  { left. apply Z.leb_le in E2. auto. }
  destruct (size data <? oddify w) eqn:E3; simpl.
  { left. apply Z.ltb_lt in E3. auto. }
  apply Z.ltb_ge in E1, E3. apply Z.leb_gt in E2. right.
  split; [lia|]. split; [lia|].
  destruct (selectCoeffs_odd (oddify w) E1 (oddify_odd w))
    as (coeffs & norm & u & Hsel & Hsz & Hu & H11).
  rewrite Hsel.
  assert (Hq : 0 <= Z.quot u 2 <= size data).
  { rewrite Hu. destruct (oddify w =? 5) eqn:E5; [|destruct (oddify w =? 7) eqn:E7].
    - change (Z.quot 5 2) with 2. lia.
    - change (Z.quot 7 2) with 3. lia.
    - change (Z.quot 11 2) with 5. lia. }
  destruct (savitzkyGolay_shape data coeffs norm (Z.quot u 2))
    as (out & Hrun & Hs & Hedge & Hin); try lia.
  exists coeffs, norm, u, out. repeat split; auto; apply H11; assumption.
Qed.

Lemma zrange_S (lo : Z) (n : nat) :
  Spec.zrange lo (Datatypes.S n) = lo :: Spec.zrange (lo + 1) n.
Proof.
  unfold Spec.zrange. simpl. f_equal; [lia|].
  rewrite <- seq_shift, <- list_fmap_compose.
  apply list_fmap_ext. intros _ k _. simpl. lia.
Qed.

Lemma elem_of_zrange (lo : Z) (n : nat) (j : Z) :
  j ∈ Spec.zrange lo n -> lo <= j < lo + Z.of_nat n.
Proof.
  unfold Spec.zrange. intros H.
  apply list_elem_of_fmap in H as (k & -> & Hk).
  apply elem_of_seq in Hk. lia.
Qed.

(** A loop that adds one term per turn computes the left-to-right sum of
    the terms. *)
Lemma for_iter_accumulate (term : Z -> option float) (n : nat) (lo : Z)
    (s0 : float) :
  for_iter n lo (fun j sum => t ← term j; Some (sum + t)%float) s0
  = (ts ← mapM term (Spec.zrange lo n); Some (foldl PrimFloat.add s0 ts)).
Proof.
  revert lo s0. induction n as [|n IH]; intros lo s0; [reflexivity|].
  rewrite zrange_S. simpl. destruct (term lo) as [t|]; [|reflexivity].
  simpl. rewrite IH. destruct (mapM term (Spec.zrange (lo + 1) n)); reflexivity.
Qed.

Lemma mapM_ext_in {A B} (f g : A -> option B) (l : list A) :
  (forall x, x ∈ l -> f x = g x) -> mapM f l = mapM g l.
Proof.
  induction l as [|x l IH]; intros H; [reflexivity|].
  simpl. rewrite (H x) by left. rewrite IH; [reflexivity|].
  intros y Hy. apply H. now right.
Qed.

(** Away from both ends the inner loop of [savitzkyGolay] is the
    specification's convolution with the 11-point kernel. *)
Lemma savitzkyGolay_sum_convolution11 (data : list float) (i : Z) :
  5 <= i <= size data - 6 ->
  (sum ← savitzkyGolay_sum coeffs_11 data 5 i; Some (sum / norm_11)%float)
  = Spec.convolution11 data i.
Proof.
  intros Hi. unfold savitzkyGolay_sum, Spec.convolution11.
  set (term := fun j => c ← at_ coeffs_11 (j + 5);
                        x ← at_ data (reflectIndex (size data) i j);
                        Some (c * x)%float).
  rewrite (for_range_ext _ (fun j sum => t ← term j; Some (sum + t)%float)).
  2:{ intros k t _. unfold term.
      destruct (at_ coeffs_11 (k + 5)); [|reflexivity]. simpl.
      now destruct (at_ data (reflectIndex (size data) i k)). }
  unfold for_range. rewrite for_iter_accumulate. unfold term.
  change (Spec.zrange _ _) with (Spec.zrange (-5) 11).
  rewrite (mapM_ext_in _
    (fun j => c ← Spec.kernel11 !! Z.to_nat (j + 5);
              x ← at_ data (Spec.reflect (size data) (i + j));
              Some (c * x)%float)); [now destruct (mapM _ _)|].
  intros j Hj. apply elem_of_zrange in Hj.
  assert (Hc : size coeffs_11 = 11) by reflexivity.
  change (Z.of_nat 11) with 11 in Hj.
  rewrite (at_lookup coeffs_11) by lia.
  rewrite reflectIndex_inside, spec_reflect_inside by lia.
  reflexivity.
Qed.

End SavitzkyGolayFacts.

(** ** Claims about the filter engine *)

Section FilterClaims.

(** C7.  For each of the three filters: an even window is incremented by
    one before use (the filter gives the same result as for the next odd
    window); a window that is, once made odd, below the filter's minimum
    (3 for moving average and median, 5 for Savitzky-Golay) or empty data
    gives the input back unchanged; and for every data and every
    parameter the filter runs to completion and returns a vector. *)
Theorem filters_identity_fallback (data : list float)
    (windowSize polyOrder : Z) :
  (Z.even windowSize = true ->
     movingAverage data windowSize = movingAverage data (windowSize + 1)
     /\ medianFilter data windowSize = medianFilter data (windowSize + 1)
     /\ savitzkyGolay data windowSize polyOrder
        = savitzkyGolay data (windowSize + 1) polyOrder)
  /\ (Spec.oddified windowSize < 3 \/ data = [] ->
        movingAverage data windowSize = Some data
        /\ medianFilter data windowSize = Some data)
  /\ (Spec.oddified windowSize < 5 \/ data = [] ->
        savitzkyGolay data windowSize polyOrder = Some data)
  /\ is_Some (movingAverage data windowSize)
  /\ is_Some (medianFilter data windowSize)
  /\ is_Some (savitzkyGolay data windowSize polyOrder).
Proof.
  unfold Spec.oddified. rewrite <- oddify_even.
  split; [|split; [|split; [|split; [|split]]]].
  - intros E. unfold movingAverage, medianFilter, savitzkyGolay.
    rewrite (oddify_succ_even _ E). auto.
  - intros H. unfold movingAverage, medianFilter.
    assert (G : (oddify windowSize <? 3) || isEmpty data = true).
    { destruct H as [H| ->].
      - apply Z.ltb_lt in H. now rewrite H.
      - apply orb_true_r. }
    rewrite G. auto.
  - intros H.
    destruct (savitzkyGolay_run data windowSize polyOrder)
      as [[_ Hid]|(Hw & _)]; [exact Hid|].
    destruct H as [H| ->]; [lia|]. rewrite size_nil in Hw. lia.
  - apply movingAverage_total.
  - destruct (medianFilter_total data windowSize) as (out & -> & _). eauto.
  - destruct (savitzkyGolay_run data windowSize polyOrder)
      as [[_ ->]|(_ & _ & c & n & u & out & _ & _ & _ & -> & _)]; eauto.
Qed.

(** The three parts of C7 on a three-sample curve: window 2 is used as
    window 3, window 1 is too small for the median filter, and window 4
    (used as 5) is too wide for three samples. *)
Lemma filters_identity_fallback_witness :
  movingAverage [1; 2; 3]%float 2 = movingAverage [1; 2; 3]%float 3
  /\ medianFilter [1; 2; 3]%float 1 = Some [1; 2; 3]%float
  /\ is_Some (savitzkyGolay [1; 2; 3]%float 4 3).
Proof.
  split; [|split].
  - apply (filters_identity_fallback [1; 2; 3]%float 2 3). reflexivity.
  - apply (filters_identity_fallback [1; 2; 3]%float 1 3). left. reflexivity.
  - apply (filters_identity_fallback [1; 2; 3]%float 4 3).
Defined.

(** C10.  Data shorter than the requested window (made odd) comes back
    unchanged from [savitzkyGolay], whatever kernel the window would be
    snapped to. *)
Theorem savitzkyGolay_short_data (data : list float)
    (windowSize polyOrder : Z) :
  size data < Spec.oddified windowSize ->
  savitzkyGolay data windowSize polyOrder = Some data.
Proof.
  unfold Spec.oddified. rewrite <- oddify_even. intros H.
  destruct (savitzkyGolay_run data windowSize polyOrder)
    as [[_ Hid]|(Hw & _)]; [exact Hid | lia].
Qed.

(** Fifteen samples and window 21: the 11-point kernel would fit, yet
    the data is returned as it is. *)
Lemma savitzkyGolay_short_data_witness :
  size Samples.ramp15 < Spec.oddified 21
  /\ 11 <= size Samples.ramp15
  /\ savitzkyGolay Samples.ramp15 21 3 = Some Samples.ramp15.
Proof.
  split; [reflexivity|]. split; [discriminate|].
  apply (savitzkyGolay_short_data Samples.ramp15 21 3). reflexivity.
Defined.

(** C3, as the code has it.  The first and last [min (w / 2) 5] output
    samples of [savitzkyGolay] equal the input samples: the copied
    boundary is as wide as half the kernel applied, which is the requested
    half-window for windows up to 11 and 5 for every wider window. *)
Theorem savitzkyGolay_boundary (data : list float)
    (windowSize polyOrder : Z) :
  exists out,
    savitzkyGolay data windowSize polyOrder = Some out
    /\ size out = size data
    /\ forall i, 0 <= i < size data ->
         i < Z.min (windowSize / 2) 5
         \/ size data - Z.min (windowSize / 2) 5 <= i ->
         at_ out i = at_ data i.
Proof.
  destruct (savitzkyGolay_run data windowSize polyOrder)
    as [[_ Hid]|(Hw & _ & c & n & u & out & _ & Hu & _ & Hrun & Hs & Hedge & _)].
  { exists data. auto. }
  exists out. split; [exact Hrun|]. split; [exact Hs|].
  intros i Hi Hb. apply Hedge; [exact Hi|].
  assert (Hh : Z.min (windowSize / 2) 5 <= Z.quot u 2).
  { rewrite Hu. rewrite oddify_even in *.
    destruct (Z.even windowSize) eqn:Ev.
    - destruct (windowSize + 1 =? 5) eqn:E5.
      { apply Z.eqb_eq in E5. replace windowSize with 4 by lia. discriminate. }
      destruct (windowSize + 1 =? 7) eqn:E7.
      { apply Z.eqb_eq in E7. replace windowSize with 6 by lia. discriminate. }
      change (Z.quot 11 2) with 5. lia.
    - destruct (windowSize =? 5) eqn:E5.
      { apply Z.eqb_eq in E5. subst. discriminate. }
      destruct (windowSize =? 7) eqn:E7.
      { apply Z.eqb_eq in E7. subst. discriminate. }
      change (Z.quot 11 2) with 5. lia. }
  lia.
Qed.

(** C3 as stated fails for window 13 on thirteen samples: index 5 lies
    among the first [13 / 2 = 6] samples, the input there is 1 and the
    output is 89/429. *)
Lemma savitzkyGolay_boundary_window13 :
  (5 <? 13 / 2) = true
  /\ at_ Samples.impulse13 5 = Some 1%float
  /\ (out ← savitzkyGolay Samples.impulse13 13 3; at_ out 5)
     = Some (89 / 429)%float
  /\ (89 / 429 =? 1)%float = false.
Proof. repeat split; vm_compute; reflexivity. Qed.

(** C4, as the code has it.  When the requested window, made odd, is at
    least 9 and the data has at least that many samples, every output
    sample at an index from 5 to [n - 6] is the convolution of the input
    with the 11-point kernel divided by 429; and a window that is below 5
    once made odd gives the input back unchanged. *)
Theorem savitzkyGolay_interior (data : list float)
    (windowSize polyOrder : Z) :
  (9 <= Spec.oddified windowSize -> polyOrder < Spec.oddified windowSize ->
   Spec.oddified windowSize <= size data ->
   exists out,
     savitzkyGolay data windowSize polyOrder = Some out
     /\ size out = size data
     /\ forall i, 5 <= i <= size data - 6 ->
          at_ out i = Spec.convolution11 data i /\ is_Some (at_ out i))
  /\ (Spec.oddified windowSize < 5 ->
      savitzkyGolay data windowSize polyOrder = Some data).
Proof.
  unfold Spec.oddified. rewrite <- oddify_even. split.
  - intros H9 Hp Hn.
    destruct (savitzkyGolay_run data windowSize polyOrder)
      as [[Hg _]|(Hw & _ & c & n & u & out & _ & Hu & H11 & Hrun & Hs & _ & Hin)];
      [lia|].
    exists out. split; [exact Hrun|]. split; [exact Hs|].
    intros i Hi. destruct (H11 H9) as [-> ->].
    assert (Eu : Z.quot u 2 = 5).
    { rewrite Hu. destruct (oddify windowSize =? 5) eqn:E5;
        [apply Z.eqb_eq in E5; lia|].
      destruct (oddify windowSize =? 7) eqn:E7;
        [apply Z.eqb_eq in E7; lia|]. reflexivity. }
    rewrite Eu in Hin. split.
    + rewrite Hin by lia. now apply savitzkyGolay_sum_convolution11.
    + apply at_is_Some. lia.
  - intros H5.
    destruct (savitzkyGolay_run data windowSize polyOrder)
      as [[_ Hid]|(Hw & _)]; [exact Hid | lia].
Qed.

(** Window 13 on thirteen samples: index 5 and index 7 are the interior,
    and the output at index 5 is the convolution, 89/429. *)
Lemma savitzkyGolay_interior_witness :
  9 <= Spec.oddified 13
  /\ Spec.oddified 13 <= size Samples.impulse13
  /\ (exists out,
        savitzkyGolay Samples.impulse13 13 3 = Some out
        /\ size out = size Samples.impulse13
        /\ forall i, 5 <= i <= size Samples.impulse13 - 6 ->
             at_ out i = Spec.convolution11 Samples.impulse13 i
             /\ is_Some (at_ out i))
  /\ Spec.convolution11 Samples.impulse13 5 = Some (89 / 429)%float.
Proof.
  split; [discriminate|]. split; [discriminate|]. split.
  - apply (savitzkyGolay_interior Samples.impulse13 13 3);
      [discriminate | reflexivity | discriminate].
  - vm_compute. reflexivity.
Defined.

(** C4 as stated fails on short data and on the requested window 4.
    Window 13 on twelve samples: index 5 is between 5 and [n - 6] and the
    output there is the input, 1, not the convolution, 89/429.  Window 4
    on thirteen samples: the window is below 5 and the output at index 5
    is 17/35, not the input, 1. *)
Lemma savitzkyGolay_interior_short_data :
  (9 <=? Spec.oddified 13) = true
  /\ (5 <=? size Samples.impulse12 - 6) = true
  /\ (out ← savitzkyGolay Samples.impulse12 13 3; at_ out 5) = Some 1%float
  /\ Spec.convolution11 Samples.impulse12 5 = Some (89 / 429)%float
  /\ (89 / 429 =? 1)%float = false
  /\ (4 <? 5) = true
  /\ (out ← savitzkyGolay Samples.impulse13 4 3; at_ out 5)
     = Some (17 / 35)%float
  /\ at_ Samples.impulse13 5 = Some 1%float
  /\ (17 / 35 =? 1)%float = false.
Proof. repeat split; vm_compute; reflexivity. Qed.

End FilterClaims.

(** ** Claims about the interpolator *)

Section InterpolatorClaims.

(** C9.  When [|x2 - x1|] is below machine epsilon, [linearInterpolate]
    returns [y1]; otherwise it returns
    [y1 + (y2 - y1) * (x - x1) / (x2 - x1)], and the divisor is then not
    zero; [linearInterpolate 0 0 0 10 5] is 0. *)
Theorem linearInterpolate_guarded (x1 y1 x2 y2 x : float) :
  ((qFabs (x2 - x1) <? epsilon)%float = true ->
     linearInterpolate x1 y1 x2 y2 x = y1)
  /\ ((qFabs (x2 - x1) <? epsilon)%float = false ->
        linearInterpolate x1 y1 x2 y2 x
        = (y1 + (y2 - y1) * (x - x1) / (x2 - x1))%float
        /\ (x2 - x1 =? 0)%float = false)
  /\ linearInterpolate 0 0 0 10 5 = 0%float.
Proof.
  unfold linearInterpolate. split; [|split].
  - intros ->. reflexivity.
  - intros E. rewrite E. split; [reflexivity|].
    destruct (x2 - x1 =? 0)%float eqn:E0; [|reflexivity].
    apply zero_below_epsilon in E0. congruence.
  - reflexivity.
Qed.

(** Both branches at concrete anchors: a degenerate range gives the left
    value, and halfway between (0, 0) and (2, 10) the value is 5. *)
Lemma linearInterpolate_guarded_witness :
  linearInterpolate 0 0 0 10 5 = 0%float
  /\ (linearInterpolate 0 0 2 10 1 = (0 + (10 - 0) * (1 - 0) / (2 - 0))%float
      /\ (2 - 0 =? 0)%float = false)
  /\ (0 + (10 - 0) * (1 - 0) / (2 - 0) =? 5)%float = true.
Proof.
  split; [|split].
  - apply (proj1 (linearInterpolate_guarded 0 0 0 10 5)). reflexivity.
  - apply (proj1 (proj2 (linearInterpolate_guarded 0 0 2 10 1))). reflexivity.
  - reflexivity.
Defined.

End InterpolatorClaims.

(** ** Claims about spur removal *)

Section PassThroughClaims.

(** C8.  A dataset without reference data, with an empty frequency axis
    or with fewer than three reference samples passes through spur
    removal: the call succeeds and the measured vector it leaves in
    [phaseNoiseFiltered] is the source measurement; [removeSpurs] itself
    returns the source measurement when there are fewer than three
    reference samples. *)
Theorem applySpurRemoval_pass_through (m_filteringEnabled : bool)
    (data : PlotData) :
  (hasReferenceData data = false
   \/ frequencyOffset data = []
   \/ size (sourceRefOf m_filteringEnabled data) < 3 ->
   exists data',
     applySpurRemoval_dataset m_filteringEnabled data = Some data'
     /\ phaseNoiseFiltered data' = sourceMeasOf m_filteringEnabled data)
  /\ (forall sourceMeas sourceRef freq : list float,
        size sourceRef < 3 ->
        removeSpurs sourceMeas sourceRef freq = Some sourceMeas).
Proof.
  split.
  - intros H. unfold applySpurRemoval_dataset.
    destruct (negb (hasReferenceData data) || isEmpty (frequencyOffset data))
      eqn:E.
    + exists (keepSource m_filteringEnabled data). split; [reflexivity|].
      unfold keepSource, sourceMeasOf. now destruct m_filteringEnabled.
    + apply orb_false_iff in E as [E1 E2]. apply negb_false_iff in E1.
      destruct H as [H|[H|H]]; [congruence | now rewrite H in E2 |].
      unfold removeSpurs. apply Z.ltb_lt in H. rewrite H. simpl.
      eexists. split; reflexivity.
  - intros sourceMeas sourceRef freq H. unfold removeSpurs.
    apply Z.ltb_lt in H. now rewrite H.
Qed.

(** A dataset of two samples with reference data, filtering off: the
    filtered measurement becomes the raw one. *)
Lemma applySpurRemoval_pass_through_witness :
  exists data',
    applySpurRemoval_dataset false
      {| frequencyOffset := [1; 2]%float;
         phaseNoise := [-90; -95]%float;
         referenceNoise := [0; 20]%float;
         phaseNoiseFiltered := [];
         referenceNoiseFiltered := [];
         hasReferenceData := true;
         isVisible := true;
         graphMeasured := None |} = Some data'
    /\ phaseNoiseFiltered data' = [-90; -95]%float.
Proof.
  apply (proj1 (applySpurRemoval_pass_through false
    {| frequencyOffset := [1; 2]%float;
       phaseNoise := [-90; -95]%float;
       referenceNoise := [0; 20]%float;
       phaseNoiseFiltered := [];
       referenceNoiseFiltered := [];
       hasReferenceData := true;
       isVisible := true;
       graphMeasured := None |})).
  right. right. reflexivity.
Defined.

End PassThroughClaims.

Section SpurFacts.

Lemma at_filled {A} (n i : Z) (x : A) :
  0 <= i < n -> at_ (filled n x) i = Some x.
Proof.
  intros H. rewrite at_lookup by (rewrite size_filled; lia).
  unfold filled. apply lookup_replicate_2. lia.
Qed.

(** What a while loop returns satisfies every invariant of its body and
    fails its condition. *)
Lemma while_loop_partial {S} (P : S -> Prop) (cond : S -> option bool)
    (body : S -> option S) (fuel : nat) (s s' : S) :
  P s ->
  (forall t t', P t -> cond t = Some true -> body t = Some t' -> P t') ->
  while_loop fuel cond body s = Some s' ->
  P s' /\ cond s' = Some false.
Proof.
  intros HP Hstep. revert s HP. induction fuel as [|fuel IH]; intros s HP.
  - discriminate.
  - simpl. destruct (cond s) as [[]|] eqn:Ec; simpl; try discriminate.
    + destruct (body s) as [t|] eqn:Eb; simpl; try discriminate.
      apply IH. eapply Hstep; eauto.
    + intros [= <-]. auto.
Qed.

(** The three conditions with their vector reads resolved. *)
Lemma aboveBaseline_eq (sourceRef baseline : list float) (i : Z) (r b : float) :
  at_ sourceRef i = Some r -> at_ baseline i = Some b ->
  aboveBaseline sourceRef baseline i
  = Some (negb (isnan r) && negb (isnan b) && gtb (r - b) SPUR_THRESHOLD).
Proof.
  intros Hr Hb. unfold aboveBaseline, andThen. rewrite Hr, Hb. simpl.
  destruct (isnan r); simpl; [reflexivity|].
  destruct (isnan b); reflexivity.
Qed.

Lemma risingEdge_eq (currentRef : list float) (i : Z) (a b : float) :
  at_ currentRef i = Some a -> at_ currentRef (i - 1) = Some b ->
  risingEdge currentRef i
  = Some (negb (isnan a) && negb (isnan b) && gtb (a - b) SPUR_THRESHOLD).
Proof.
  intros Ha Hb. unfold risingEdge, andThen. rewrite Ha, Hb. simpl.
  destruct (isnan a); simpl; [reflexivity|].
  destruct (isnan b); reflexivity.
Qed.

Lemma fallingEdge_eq (currentRef : list float) (j : Z) (a b : float) :
  at_ currentRef j = Some a -> at_ currentRef (j - 1) = Some b ->
  fallingEdge currentRef j
  = Some (negb (isnan a) && negb (isnan b) && gtb (b - a) SPUR_THRESHOLD).
Proof.
  intros Ha Hb. unfold fallingEdge, andThen. rewrite Ha, Hb. simpl.
  destruct (isnan a); simpl; [reflexivity|].
  destruct (isnan b); reflexivity.
Qed.

Lemma risingEdge_total (currentRef : list float) (i : Z) :
  1 <= i < size currentRef -> is_Some (risingEdge currentRef i).
Proof.
  intros H.
  destruct (at_is_Some currentRef i) as [a Ha]; [lia|].
  destruct (at_is_Some currentRef (i - 1)) as [b Hb]; [lia|].
  rewrite (risingEdge_eq _ _ _ _ Ha Hb). eauto.
Qed.

Lemma fallingEdge_total (currentRef : list float) (j : Z) :
  1 <= j < size currentRef -> is_Some (fallingEdge currentRef j).
Proof.
  intros H.
  destruct (at_is_Some currentRef j) as [a Ha]; [lia|].
  destruct (at_is_Some currentRef (j - 1)) as [b Hb]; [lia|].
  rewrite (fallingEdge_eq _ _ _ _ Ha Hb). eauto.
Qed.

(** No sample above the baseline: no flag is set. *)
Lemma markSpurs_none (sourceRef baseline : list float) :
  size baseline = size sourceRef ->
  (forall i r b, at_ sourceRef i = Some r -> at_ baseline i = Some b ->
     (r - b <=? SPUR_THRESHOLD)%float = true) ->
  markSpurs sourceRef baseline (size sourceRef)
  = Some (filled (size sourceRef) false).
Proof.
  intros Hs H. unfold markSpurs. pose proof (size_nonneg sourceRef).
  loop_inv (fun (_ : Z) v => v = filled (size sourceRef) false)
    as (r & Hr & ->); [lia | reflexivity | | exact Hr].
  intros k v Hk ->.
  destruct (at_is_Some sourceRef k) as [x Hx]; [lia|].
  destruct (at_is_Some baseline k) as [b Hb]; [lia|].
  rewrite (aboveBaseline_eq _ _ _ _ _ Hx Hb).
  unfold gtb. rewrite (leb_true_ltb_false _ _ (H k x b Hx Hb)).
  rewrite andb_false_r. simpl. eauto.
Qed.

(** Without flags method 1 changes nothing. *)
Lemma pass1_no_flags (freq processedMeas : list float) (N : Z) :
  0 <= N ->
  pass1 (filled N false) freq N processedMeas = Some processedMeas.
Proof.
  intros HN. unfold pass1.
  destruct (while_loop_inv
    (fun st : Z * list float => 0 <= st.1 <= N /\ st.2 = processedMeas)
    (fun st => N - st.1)
    (fun st : Z * list float => Some (st.1 <? N))
    (pass1_body (filled N false) freq N) (budget N) (0, processedMeas))
    as ([i pm] & Hrun & [_ Hpm] & _).
  - simpl. auto with lia.
  - unfold budget. simpl. lia.
  - intros [i pm] [Hi _]. simpl in *. lia.
  - intros t _. eauto.
  - intros [i pm] [Hi Hpm] Hc. simpl in *.
    injection Hc as Hc. apply Z.ltb_lt in Hc.
    rewrite at_filled by lia. simpl.
    eexists. split; [reflexivity|]. simpl. split; [split; [lia|exact Hpm]|lia].
  - rewrite Hrun. simpl in *. now rewrite Hpm.
Qed.

(** Without a rising edge method 2 changes nothing. *)
Lemma pass2_no_edge (currentRef freq processedMeas : list float) :
  3 <= size currentRef ->
  (forall i, 1 <= i <= size currentRef - 2 ->
     risingEdge currentRef i = Some false) ->
  pass2 currentRef freq (size currentRef) processedMeas = Some processedMeas.
Proof.
  intros HN H. unfold pass2, pass2_from. set (N := size currentRef) in *.
  destruct (while_loop_inv
    (fun st : Z * list float => 1 <= st.1 <= N - 1 /\ st.2 = processedMeas)
    (fun st => N - st.1)
    (pass2_cond N) (pass2_body currentRef freq N) (budget N)
    (1, processedMeas))
    as ([i pm] & Hrun & [_ Hpm] & _).
  - simpl. auto with lia.
  - unfold budget. simpl. lia.
  - intros [i pm] [Hi _]. simpl in *. lia.
  - intros t _. unfold pass2_cond. eauto.
  - intros [i pm] [Hi Hpm] Hc. unfold pass2_cond in Hc. simpl in *.
    injection Hc as Hc. apply Z.ltb_lt in Hc.
    rewrite H by lia. simpl.
    eexists. split; [reflexivity|]. simpl. split; [split; [lia|exact Hpm]|lia].
  - rewrite Hrun. simpl in *. now rewrite Hpm.
Qed.

(** Checks over all entries of concrete vectors. *)
Lemma forall_at_zip {A} (p : A -> A -> bool) (v w : list A) :
  forallb (fun xy => p xy.1 xy.2) (zip v w) = true ->
  forall i x y, at_ v i = Some x -> at_ w i = Some y -> p x y = true.
Proof.
  intros H i x y Hx Hy.
  apply at_Some_lookup in Hx, Hy.
  rewrite forallb_forall in H.
  apply (H (x, y)). apply list_elem_of_In.
  apply list_elem_of_lookup. exists (Z.to_nat i).
  apply lookup_zip_with_Some. eauto.
Qed.

Lemma forall_at_consecutive {A} (p : A -> A -> bool) (v : list A) :
  forallb (fun xy => p xy.1 xy.2) (zip (tail v) v) = true ->
  forall i a b, 1 <= i -> at_ v i = Some a -> at_ v (i - 1) = Some b ->
    p a b = true.
Proof.
  intros H i a b Hi Ha Hb.
  apply at_Some_lookup in Ha, Hb.
  rewrite forallb_forall in H.
  apply (H (a, b)). apply list_elem_of_In.
  apply list_elem_of_lookup. exists (Z.to_nat (i - 1)).
  apply lookup_zip_with_Some. exists a, b. split; [reflexivity|].
  split; [|exact Hb]. rewrite lookup_tail.
  now replace (Datatypes.S (Z.to_nat (i - 1))) with (Z.to_nat i) by lia.
Qed.

(** With no falling edge after [start] the search runs to the end. *)
Lemma findFalling_none (currentRef : list float) (start : Z) :
  0 <= start < size currentRef ->
  (forall j, start < j < size currentRef ->
     fallingEdge currentRef j = Some false) ->
  findFalling currentRef (size currentRef) start = Some (size currentRef).
Proof.
  intros Hs H. unfold findFalling. set (N := size currentRef) in *.
  destruct (while_loop_inv (fun j => start + 1 <= j <= N) (fun j => N - j)
    (fun j =>
       andThen (Some (j <? N)) (f ← fallingEdge currentRef j; Some (negb f)))
    (fun j => Some (j + 1)) (budget N) (start + 1))
    as (j & Hrun & Hj & Hc).
  - lia.
  - unfold budget. lia.
  - intros; lia.
  - intros j Hj. unfold andThen. simpl.
    destruct (j <? N) eqn:E; [|eauto].
    apply Z.ltb_lt in E. rewrite H by lia. simpl. eauto.
  - intros j Hj Hc. unfold andThen in Hc. simpl in Hc.
    destruct (j <? N) eqn:E; [|discriminate]. apply Z.ltb_lt in E.
    eexists. split; [reflexivity|]. lia.
  - rewrite Hrun. f_equal. unfold andThen in Hc. simpl in Hc.
    destruct (j <? N) eqn:E.
    + apply Z.ltb_lt in E. rewrite H in Hc by lia. discriminate.
    + apply Z.ltb_ge in E. lia.
Qed.

(** The search for a falling edge only moves forward. *)
Lemma findFalling_after (currentRef : list float) (N start j : Z) :
  findFalling currentRef N start = Some j -> start < j.
Proof.
  unfold findFalling. intros H.
  apply (while_loop_partial (fun j => start < j)) in H; [tauto | lia |].
  intros t t' Ht _ [= <-]. lia.
Qed.

(** [for (k = lo; k < hi; ++k) v[k] = x;] *)
Lemma for_range_fill {A} (x : A) (lo hi : Z) (v : list A) :
  0 <= lo <= hi -> hi <= size v ->
  exists out,
    for_range lo hi (fun k v => set_ v k x) v = Some out
    /\ size out = size v
    /\ (forall k, lo <= k < hi -> at_ out k = Some x)
    /\ (forall k, ~ lo <= k < hi -> at_ out k = at_ v k).
Proof.
  intros Hlo Hhi.
  destruct (for_range_write (fun _ => Some x) lo hi v Hlo Hhi)
    as (out & Hrun & Hs & Hin & Hout); [eauto|].
  exists out. split; [|auto].
  rewrite <- Hrun. apply for_range_ext. reflexivity.
Qed.

(** A loop whose turn [k] only assigns entry [k] keeps the size of the
    vector and its entries outside the range. *)
Lemma for_range_frame {A} (body : Z -> list A -> option (list A))
    (lo hi : Z) (v out : list A) :
  (forall k w w', lo <= k < hi -> body k w = Some w' ->
     exists x, set_ w k x = Some w') ->
  for_range lo hi body v = Some out ->
  size out = size v
  /\ forall i, ~ lo <= i < hi -> at_ out i = at_ v i.
Proof.
  intros Hbody Hrun.
  destruct (Z_le_gt_dec lo hi) as [Hle|Hgt].
  - apply (for_range_partial
             (fun k w => size w = size v
                         /\ forall i, ~ lo <= i < k -> at_ w i = at_ v i)
             body lo hi v out Hle); [split; reflexivity| |exact Hrun].
    intros k w w' Hk [Hs Hout] Hb.
    destruct (Hbody k w w' Hk Hb) as [x Hx].
    apply set_Some in Hx as [Hr ->]. split; [now rewrite size_insert|].
    intros i Hi. destruct (decide (0 <= i)) as [H0|H0].
    + rewrite at_insert_ne by lia. apply Hout. lia.
    + unfold at_. destruct (0 <=? i) eqn:E; [lia|reflexivity].
  - rewrite for_range_empty in Hrun by lia. injection Hrun as <-.
    split; reflexivity.
Qed.

(** Where the reference falls by more than the threshold it does not
    rise by more than the threshold. *)
Lemma fallingEdge_not_rising (currentRef : list float) (j : Z) :
  fallingEdge currentRef j = Some true ->
  risingEdge currentRef j = Some false.
Proof.
  intros H.
  destruct (at_ currentRef j) as [a|] eqn:Ha;
    [|unfold fallingEdge, andThen in H; rewrite Ha in H; discriminate].
  destruct (at_ currentRef (j - 1)) as [b|] eqn:Hb.
  - rewrite (fallingEdge_eq _ _ _ _ Ha Hb) in H.
    rewrite (risingEdge_eq _ _ _ _ Ha Hb). f_equal.
    injection H as H. apply andb_true_iff in H as [_ H].
    unfold gtb in *. rewrite (sub_gt_exclusive b a SPUR_THRESHOLD);
      [apply andb_false_r | reflexivity | exact H].
  - unfold fallingEdge, andThen in H. rewrite Ha, Hb in H. simpl in H.
    destruct (isnan a); discriminate.
Qed.

(** An index at which the search for a falling edge stops before the end
    is a falling edge. *)
Lemma findFalling_found (currentRef : list float) (N start j : Z) :
  findFalling currentRef N start = Some j -> j < N ->
  fallingEdge currentRef j = Some true.
Proof.
  unfold findFalling. intros H Hj.
  apply (while_loop_partial (fun _ => True)) in H as [_ H]; [|exact I|auto].
  unfold andThen in H. simpl in H.
  destruct (j <? N) eqn:E; [|apply Z.ltb_ge in E; lia].
  destruct (fallingEdge currentRef j) as [[]|]; try discriminate. reflexivity.
Qed.

(** Method 2 reads the value before a rising edge as method 1 left it:
    in every state the scan reaches, the samples from the current index on
    are those of [processedMeas], and so is the sample before it unless
    the current index is a falling edge. *)
Lemma pass2_body_keeps (currentRef freq processedMeas : list float) (N : Z)
    (st st' : Z * list float) :
  pass2_cond N st = Some true ->
  pass2_body currentRef freq N st = Some st' ->
  (size st.2 = size processedMeas
   /\ (forall k, st.1 <= k -> at_ st.2 k = at_ processedMeas k)
   /\ (st.1 < N ->
       at_ st.2 (st.1 - 1) = at_ processedMeas (st.1 - 1)
       \/ fallingEdge currentRef st.1 = Some true)) ->
  size st'.2 = size processedMeas
  /\ (forall k, st'.1 <= k -> at_ st'.2 k = at_ processedMeas k)
  /\ (st'.1 < N ->
      at_ st'.2 (st'.1 - 1) = at_ processedMeas (st'.1 - 1)
      \/ fallingEdge currentRef st'.1 = Some true).
Proof.
  destruct st as [i fm]. unfold pass2_cond, pass2_body. cbn [fst snd].
  intros [= Hc] Hb (Hs & Hfrom & Hprev). apply Z.ltb_lt in Hc.
  destruct (risingEdge currentRef i) as [[]|] eqn:Er; simpl in Hb;
    try discriminate.
  - destruct (findFalling currentRef N i) as [j|] eqn:Ej; simpl in Hb;
      try discriminate.
    pose proof (findFalling_after _ _ _ _ Ej) as Hij.
    destruct (j <? N) eqn:EjN.
    + apply Z.ltb_lt in EjN.
      destruct (at_ fm (i - 1)) as [leftVal|]; simpl in Hb; try discriminate.
      destruct (at_ fm j) as [rightVal|]; simpl in Hb; try discriminate.
      destruct (at_ freq (i - 1)) as [leftFreq|]; simpl in Hb;
        try discriminate.
      destruct (at_ freq j) as [rightFreq|]; simpl in Hb; try discriminate.
      destruct (for_range i j _ fm) as [fm'|] eqn:Ef; simpl in Hb;
        try discriminate.
      injection Hb as <-. cbn [fst snd].
      apply for_range_frame in Ef as [Hs' Hout].
      * split; [congruence|]. split.
        -- intros k Hk. rewrite Hout by lia. apply Hfrom. lia.
        -- intros _. right. eapply findFalling_found; eauto.
      * intros k w w' _ Hw.
        destruct (gtb (qFabs (rightFreq - leftFreq)) freqTolerance);
          [|eauto].
        destruct (at_ freq k); simpl in Hw; [eauto|discriminate].
    + destruct (at_ fm (i - 1)) as [leftVal|]; simpl in Hb; try discriminate.
      destruct (for_range i N _ fm) as [fm'|] eqn:Ef; simpl in Hb;
        try discriminate.
      injection Hb as <-. cbn [fst snd].
      apply for_range_frame in Ef as [Hs' Hout]; [|eauto].
      split; [congruence|]. split; [|lia].
      intros k Hk. rewrite Hout by lia. apply Hfrom. lia.
  - injection Hb as <-. cbn [fst snd]. split; [exact Hs|]. split.
    + intros k Hk. apply Hfrom. lia.
    + intros _. left. replace (i + 1 - 1) with i by lia. apply Hfrom. lia.
Qed.

Lemma pass2_reaches_keeps (currentRef freq processedMeas : list float)
    (N : Z) (st st' : Z * list float) :
  pass2_reaches currentRef freq N st st' ->
  (size st.2 = size processedMeas
   /\ (forall k, st.1 <= k -> at_ st.2 k = at_ processedMeas k)
   /\ (st.1 < N ->
       at_ st.2 (st.1 - 1) = at_ processedMeas (st.1 - 1)
       \/ fallingEdge currentRef st.1 = Some true)) ->
  size st'.2 = size processedMeas
  /\ (forall k, st'.1 <= k -> at_ st'.2 k = at_ processedMeas k)
  /\ (st'.1 < N ->
      at_ st'.2 (st'.1 - 1) = at_ processedMeas (st'.1 - 1)
      \/ fallingEdge currentRef st'.1 = Some true).
Proof.
  induction 1 as [st|st st' st'' Hc Hb _ IH]; intros Hinv; [exact Hinv|].
  apply IH. eapply pass2_body_keeps; eauto.
Qed.

(** The turn of method 2 at a rising edge with no falling edge after it:
    everything from [start] on becomes the value before the edge and the
    index jumps to [N]. *)
Lemma pass2_body_unmatched (currentRef freq finalMeas : list float)
    (start : Z) (leftVal : float) :
  size finalMeas = size currentRef ->
  1 <= start < size currentRef ->
  risingEdge currentRef start = Some true ->
  (forall j, start < j < size currentRef ->
     fallingEdge currentRef j = Some false) ->
  at_ finalMeas (start - 1) = Some leftVal ->
  exists out,
    pass2_body currentRef freq (size currentRef) (start, finalMeas)
    = Some (size currentRef, out)
    /\ size out = size currentRef
    /\ (forall k, start <= k < size currentRef -> at_ out k = Some leftVal)
    /\ (forall k, 0 <= k < start -> at_ out k = at_ finalMeas k).
Proof.
  intros Hsz Hs Hrise Hfall Hleft. unfold pass2_body.
  rewrite Hrise. simpl. rewrite findFalling_none by (auto; lia). simpl.
  rewrite Z.ltb_irrefl, Hleft. simpl.
  destruct (for_range_fill leftVal start (size currentRef) finalMeas)
    as (out & Hrun & Hso & Hin & Hout); [lia..|].
  rewrite Hrun. simpl. exists out. split; [reflexivity|].
  split; [lia|]. split; [exact Hin|]. intros k Hk. apply Hout. lia.
Qed.

(** Every turn of method 2 moves the index forward. *)
Lemma pass2_body_progress (currentRef freq : list float) (N : Z)
    (st st' : Z * list float) :
  pass2_cond N st = Some true ->
  pass2_body currentRef freq N st = Some st' ->
  st.1 < st'.1.
Proof.
  destruct st as [i fm]. unfold pass2_cond, pass2_body. simpl.
  intros [= Hc]. apply Z.ltb_lt in Hc.
  destruct (risingEdge currentRef i) as [[]|]; simpl; try discriminate.
  - destruct (findFalling currentRef N i) as [j|] eqn:Ej; simpl;
      try discriminate.
    apply findFalling_after in Ej.
    destruct (j <? N).
    + destruct (at_ fm (i - 1)); simpl; try discriminate.
      destruct (at_ fm j); simpl; try discriminate.
      destruct (at_ freq (i - 1)); simpl; try discriminate.
      destruct (at_ freq j); simpl; try discriminate.
      destruct (for_range _ _ _ _); simpl; try discriminate.
      intros [= <-]. simpl. lia.
    + destruct (at_ fm (i - 1)); simpl; try discriminate.
      destruct (for_range _ _ _ _); simpl; try discriminate.
      intros [= <-]. simpl. lia.
  - intros [= <-]. simpl. lia.
Qed.

(** A scan with fuel for the indices left continues, from any state it
    reaches, with fuel for the indices left there. *)
Lemma pass2_from_reaches (currentRef freq : list float) (N : Z)
    (st st' : Z * list float) :
  pass2_reaches currentRef freq N st st' ->
  forall fuel : nat, N - st.1 < Z.of_nat fuel ->
  exists fuel' : nat,
    N - st'.1 < Z.of_nat fuel'
    /\ pass2_from currentRef freq N fuel st
       = pass2_from currentRef freq N fuel' st'.
Proof.
  induction 1 as [st|st st' st'' Hc Hb _ IH]; intros fuel Hf.
  - exists fuel. auto.
  - pose proof (pass2_body_progress _ _ _ _ _ Hc Hb) as Hlt.
    assert (Hi : st.1 < N - 1).
    { unfold pass2_cond in Hc. injection Hc as Hc. now apply Z.ltb_lt in Hc. }
    destruct fuel as [|fuel]; [lia|].
    destruct (IH fuel ltac:(lia)) as (fuel' & Hf' & Heq).
    exists fuel'. split; [exact Hf'|]. rewrite <- Heq.
    unfold pass2_from. now rewrite (while_loop_step _ _ _ _ _ Hc Hb).
Qed.

End SpurFacts.

Section NoSpurClaims.

(** C1, as the code has it.  When no reference sample exceeds the
    window-21 rolling median by more than the threshold, method 1 leaves
    every measured sample as it is; the whole of [removeSpurs] returns the
    measurement unchanged when, in addition, the reference has no rising
    edge, that is no index [i] from 1 to [n - 2] with
    [reference[i] - reference[i-1] > SPUR_THRESHOLD]. *)
Theorem removeSpurs_no_spur (sourceMeas sourceRef freq baseline : list float) :
  3 <= size sourceRef ->
  rollingMedian sourceRef DEFAULT_SPUR_WINDOW_SIZE = Some baseline ->
  (forall i r b, at_ sourceRef i = Some r -> at_ baseline i = Some b ->
     (r - b <=? SPUR_THRESHOLD)%float = true) ->
  removeSpurs_pass1 sourceMeas sourceRef freq = Some sourceMeas
  /\ ((forall i a b, 1 <= i <= size sourceRef - 2 ->
         at_ sourceRef i = Some a -> at_ sourceRef (i - 1) = Some b ->
         gtb (a - b) SPUR_THRESHOLD = false) ->
      removeSpurs sourceMeas sourceRef freq = Some sourceMeas).
Proof.
  intros HN Hb Hle.
  assert (Hsz : size baseline = size sourceRef).
  { unfold rollingMedian in Hb.
    destruct (medianFilter_total sourceRef DEFAULT_SPUR_WINDOW_SIZE)
      as (out & Hout & Hs). congruence. }
  assert (H1 : removeSpurs_pass1 sourceMeas sourceRef freq = Some sourceMeas).
  { unfold removeSpurs_pass1, spurFlags. rewrite Hb. simpl.
    rewrite (markSpurs_none _ _ Hsz Hle). simpl.
    apply pass1_no_flags. lia. }
  split; [exact H1|]. intros Hedge.
  unfold removeSpurs. destruct (size sourceRef <? 3) eqn:E; [reflexivity|].
  rewrite H1. simpl. apply pass2_no_edge; [exact HN|].
  intros i Hi.
  destruct (at_is_Some sourceRef i) as [a Ha]; [lia|].
  destruct (at_is_Some sourceRef (i - 1)) as [b Hb']; [lia|].
  rewrite (risingEdge_eq _ _ _ _ Ha Hb'), (Hedge i a b Hi Ha Hb').
  now rewrite andb_false_r.
Qed.

(** C1 on a reference with bumps of 1 and 2 dB: the measurement comes
    back as it went in. *)
Lemma removeSpurs_no_spur_witness :
  removeSpurs_pass1 Samples.quietMeas Samples.quietRef Samples.quietFreq
  = Some Samples.quietMeas
  /\ removeSpurs Samples.quietMeas Samples.quietRef Samples.quietFreq
     = Some Samples.quietMeas.
Proof.
  destruct (removeSpurs_no_spur Samples.quietMeas Samples.quietRef
              Samples.quietFreq [0; 0; 0; 0; 0]%float) as [H1 H2].
  - discriminate.
  - reflexivity.
  - apply (forall_at_zip (fun r b => (r - b <=? SPUR_THRESHOLD)%float)).
    reflexivity.
  - split; [exact H1|]. apply H2. intros i a b Hi Ha Hb.
    apply negb_true_iff.
    apply (forall_at_consecutive
             (fun a b => negb (gtb (a - b) SPUR_THRESHOLD))
             Samples.quietRef) with (i := i); [reflexivity | lia | exact Ha | exact Hb].
Defined.

(** C1 as stated fails on a reference that steps up by 10 dB and stays
    there: the rolling median follows the step, so no sample exceeds it,
    yet the rising edge at index 1 has no falling edge after it and method
    2 overwrites the measurement from there on. *)
Lemma removeSpurs_step_reference :
  rollingMedian Samples.stepRef DEFAULT_SPUR_WINDOW_SIZE
  = Some [0; 10; 10]%float
  /\ (0 - 0 <=? SPUR_THRESHOLD)%float = true
  /\ (10 - 10 <=? SPUR_THRESHOLD)%float = true
  /\ removeSpurs_pass1 Samples.stepMeas Samples.stepRef Samples.stepFreq
     = Some [1; 2; 3]%float
  /\ removeSpurs Samples.stepMeas Samples.stepRef Samples.stepFreq
     = Some [1; 1; 1]%float
  /\ Samples.stepMeas = [1; 2; 3]%float.
Proof. repeat split; vm_compute; reflexivity. Qed.

(** C2.  In the scenario of the specification the flags of method 1 are
    set at indices 3 and 4 only; whatever the seven measured values,
    method 1 keeps the others and replaces those two by the interpolation
    between index 2 (frequency 3) and index 5 (frequency 6); with the
    measured values of the scenario both become -100. *)
Theorem pass1_scenario :
  spurFlags Samples.scenarioRef
  = Some [false; false; false; true; true; false; false]
  /\ (forall m0 m1 m2 m3 m4 m5 m6 : float,
        removeSpurs_pass1 [m0; m1; m2; m3; m4; m5; m6]
          Samples.scenarioRef Samples.scenarioFreq
        = Some [m0; m1; m2;
                linearInterpolate 3 m2 6 m5 4;
                linearInterpolate 3 m2 6 m5 5;
                m5; m6])
  /\ removeSpurs_pass1 Samples.scenarioMeas Samples.scenarioRef
       Samples.scenarioFreq
     = Some [-100; -100; -100; -100; -100; -100; -100]%float
  /\ linearInterpolate 3 (-100) 6 (-100) 4 = (-100)%float
  /\ linearInterpolate 3 (-100) 6 (-100) 5 = (-100)%float.
Proof.
  split; [vm_compute; reflexivity|]. split.
  - intros. vm_compute. reflexivity.
  - repeat split; vm_compute; reflexivity.
Qed.

End NoSpurClaims.

Section EdgeClaims.

(** C5.  When the scan of method 2 over the result [processedMeas] of
    method 1 comes to an index [start] (between 1 and [n - 2]) where the
    reference has a rising edge, and the reference has no falling edge at
    any later index, then the turn at [start] sets the index to [N], which
    ends the scan, and in the vector method 2 returns every sample from
    [start] to the last is [processedMeas[start - 1]]; the samples before
    [start] are those the scan had when it came to [start]. *)
Theorem pass2_unmatched_rising_edge
    (currentRef freq processedMeas finalMeas : list float) (start : Z) :
  size processedMeas = size currentRef ->
  1 <= start <= size currentRef - 2 ->
  pass2_reaches currentRef freq (size currentRef) (1, processedMeas)
    (start, finalMeas) ->
  risingEdge currentRef start = Some true ->
  (forall j, start < j < size currentRef ->
     fallingEdge currentRef j = Some false) ->
  exists out,
    pass2 currentRef freq (size currentRef) processedMeas = Some out
    /\ pass2_body currentRef freq (size currentRef) (start, finalMeas)
       = Some (size currentRef, out)
    /\ pass2_cond (size currentRef) (size currentRef, out) = Some false
    /\ size out = size currentRef
    /\ (forall k, start <= k < size currentRef ->
          at_ out k = at_ processedMeas (start - 1)
          /\ is_Some (at_ out k))
    /\ (forall k, 0 <= k < start -> at_ out k = at_ finalMeas k).
Proof.
  intros Hsz Hs Hreach Hrise Hfall.
  destruct (pass2_reaches_keeps _ _ processedMeas _ _ _ Hreach)
    as (Hsf & _ & Hprev).
  { cbn [fst snd]. split; [reflexivity|]. split; [reflexivity|]. now left. }
  cbn [fst snd] in *.
  destruct (at_is_Some processedMeas (start - 1)) as [leftVal Hleft]; [lia|].
  assert (Hleft' : at_ finalMeas (start - 1) = Some leftVal).
  { destruct Hprev as [Hp|Hp]; [lia | congruence |].
    apply fallingEdge_not_rising in Hp. congruence. }
  destruct (pass2_body_unmatched currentRef freq finalMeas start leftVal)
    as (out & Hbody & Hso & Hin & Hout); auto; [lia..|].
  assert (Hexit : pass2_cond (size currentRef) (size currentRef, out)
                  = Some false).
  { unfold pass2_cond. simpl. f_equal. apply Z.ltb_ge. lia. }
  exists out. split.
  - unfold pass2.
    destruct (pass2_from_reaches _ _ _ _ _ Hreach (budget (size currentRef)))
      as (fuel & Hfuel & ->).
    { unfold budget. simpl. lia. }
    simpl in Hfuel. destruct fuel as [|[|fuel]]; [lia..|].
    unfold pass2_from.
    rewrite (while_loop_step _ _ _ _ (size currentRef, out)); [|
      unfold pass2_cond; simpl; f_equal; apply Z.ltb_lt; lia | exact Hbody].
    now rewrite (while_loop_exit _ _ _ _ Hexit).
  - split; [exact Hbody|]. split; [exact Hexit|]. split; [exact Hso|].
    split; [|exact Hout].
    intros k Hk. rewrite (Hin k Hk), Hleft. eauto.
Qed.

(** A reference that rises at index 2 and never falls: the scan passes
    index 1 and blanks the measurement from index 2 on with the value at
    index 1. *)
Lemma pass2_unmatched_rising_edge_witness :
  exists out,
    pass2 Samples.riseRef Samples.riseFreq (size Samples.riseRef)
      Samples.riseMeas = Some out
    /\ pass2_body Samples.riseRef Samples.riseFreq (size Samples.riseRef)
         (2, Samples.riseMeas)
       = Some (size Samples.riseRef, out)
    /\ pass2_cond (size Samples.riseRef) (size Samples.riseRef, out)
       = Some false
    /\ size out = size Samples.riseRef
    /\ (forall k, 2 <= k < size Samples.riseRef ->
          at_ out k = at_ Samples.riseMeas (2 - 1) /\ is_Some (at_ out k))
    /\ (forall k, 0 <= k < 2 -> at_ out k = at_ Samples.riseMeas k).
Proof.
  apply (pass2_unmatched_rising_edge Samples.riseRef Samples.riseFreq
           Samples.riseMeas Samples.riseMeas 2).
  - reflexivity.
  - split; discriminate.
  - apply (pass2_reaches_turn _ _ _ _ (2, Samples.riseMeas));
      [reflexivity | reflexivity | apply pass2_reaches_here].
  - reflexivity.
  - intros j Hj. change (size Samples.riseRef) with 5 in Hj.
    assert (Hc : j = 3 \/ j = 4) by lia.
    destruct Hc as [-> | ->]; reflexivity.
Defined.

End EdgeClaims.

(** ** Spot noise *)

Section SpotNoiseFacts.
Variable qLn : float -> float.

(** The search for the closest sample ends on the first sample that no
    other sample beats, or finds nothing when no distance is below the
    largest double. *)
Lemma findClosest_first (targetFreq : float) (l : list (float * float)) :
  let c := findClosest qLn targetFreq l in
  if found c then
    exists k p,
      Spec.firstClosest (logDist qLn targetFreq) l k p
      /\ closestFreq c = p.1 /\ closestNoise c = p.2
      /\ minDist c = logDist qLn targetFreq p.1
      /\ (logDist qLn targetFreq p.1 <? Double.max)%float = true
  else
    minDist c = Double.max
    /\ forall k' p', l !! k' = Some p' ->
         (logDist qLn targetFreq p'.1 <? Double.max)%float = false.
Proof.
  induction l as [|x l IH] using rev_ind.
  - simpl. split; [reflexivity|]. intros k' p' H. discriminate H.
  - unfold findClosest in *. rewrite foldl_app.
    cbn [foldl]. cbv zeta in IH.
    set (c := foldl (closest_step qLn targetFreq) closest_init l) in *.
    unfold closest_step. cbv zeta.
    destruct (logDist qLn targetFreq x.1 <? minDist c)%float eqn:E;
      cbn [found minDist closestFreq closestNoise].
    + (* the new sample takes over *)
      exists (length l), x.
      assert (Hold : forall k' p', l !! k' = Some p' ->
                (logDist qLn targetFreq p'.1 <? minDist c)%float = false).
      { destruct (found c).
        - destruct IH as (k & p & (Hk & Hmin & _) & _ & _ & Hm & Hmax).
          rewrite Hm. intros k' p' H'. eapply Hmin; eauto.
        - destruct IH as [Hm Hall]. rewrite Hm. intros k' p' H'.
          eapply Hall; eauto. }
      assert (Hmax : (logDist qLn targetFreq x.1 <? Double.max)%float = true).
      { destruct (found c).
        - destruct IH as (k & p & _ & _ & _ & Hm & Hmax).
          rewrite Hm in E. eapply ltb_trans; eauto.
        - destruct IH as [Hm _]. now rewrite Hm in E. }
      split; [|repeat split; exact Hmax].
      split; [|split].
      * now apply list_lookup_middle.
      * intros k' p' H'. apply lookup_snoc_Some in H' as [[_ H']|[_ <-]].
        -- pose proof (Hold _ _ H') as Hn.
           destruct (logDist qLn targetFreq p'.1
                     <? logDist qLn targetFreq x.1)%float eqn:E';
             [|reflexivity].
           rewrite (ltb_trans _ _ _ E' E) in Hn. discriminate.
        -- apply ltb_irrefl.
      * intros k' p' Hlt H'. rewrite lookup_app_l in H' by exact Hlt.
        pose proof (Hold _ _ H') as Hn.
        destruct (logDist qLn targetFreq p'.1
                  <=? logDist qLn targetFreq x.1)%float eqn:E';
          [|reflexivity].
        rewrite (leb_ltb_trans _ _ _ E' E) in Hn. discriminate.
    + (* the record stands *)
      destruct (found c).
      * destruct IH as (k & p & (Hk & Hmin & Hfst) & Hf & Hn & Hm & Hmax).
        exists k, p. split; [|repeat split; assumption]. split; [|split].
        -- rewrite lookup_app_l; [exact Hk|]. now apply lookup_lt_Some in Hk.
        -- intros k' p' H'. apply lookup_snoc_Some in H' as [[_ H']|[_ <-]].
           ++ eapply Hmin; eauto.
           ++ now rewrite <- Hm.
        -- intros k' p' Hlt H'. apply lookup_lt_Some in Hk.
           rewrite lookup_app_l in H' by lia. eapply Hfst; eauto.
      * destruct IH as [Hm Hall]. split; [exact Hm|].
        intros k' p' H'. apply lookup_snoc_Some in H' as [[_ H']|[_ <-]].
        -- eapply Hall; eauto.
        -- now rewrite <- Hm.
Qed.

(** The first closest sample is unique when its distance is a number. *)
Lemma firstClosest_unique (dist : float -> float) (l : list (float * float))
    (k1 k2 : nat) (p1 p2 : float * float) :
  Spec.firstClosest dist l k1 p1 -> Spec.firstClosest dist l k2 p2 ->
  is_nan (dist p1.1) = false -> is_nan (dist p2.1) = false ->
  k1 = k2 /\ p1 = p2.
Proof.
  intros (H1 & M1 & F1) (H2 & M2 & F2) N1 N2.
  assert (Hk : k1 = k2).
  { destruct (Nat.lt_trichotomy k1 k2) as [Hlt|[Heq|Hgt]]; [|exact Heq|].
    - pose proof (F2 _ _ Hlt H1) as Hle.
      pose proof (leb_false_ltb_true _ _ N1 N2 Hle) as Hc.
      rewrite (M1 k2 p2 H2) in Hc. discriminate.
    - pose proof (F1 _ _ Hgt H2) as Hle.
      pose proof (leb_false_ltb_true _ _ N2 N1 Hle) as Hc.
      rewrite (M2 k1 p1 H1) in Hc. discriminate. }
  subst k2. split; [reflexivity | congruence].
Qed.

Lemma spotNoise_step_entry (dataContainer : list (float * float))
    (xMinView xMaxView : float) (m : SpotNoiseData)
    (freqInfo : FrequencyPointInfo) :
  spotNoise_step qLn dataContainer xMinView xMaxView m freqInfo
  = match spotNoise_entry qLn dataContainer xMinView xMaxView freqInfo with
    | Some v => <[displayName freqInfo := v]> m
    | None => m
    end.
Proof.
  unfold spotNoise_step, spotNoise_entry.
  destruct ((value freqInfo <? xMinView)%float || gtb (value freqInfo) xMaxView);
    [reflexivity|].
  destruct (found _); simpl; [|reflexivity].
  now destruct (_ <? qLn 5)%float.
Qed.

(** A target whose name no turn uses keeps its entry. *)
Lemma spotNoise_fold_other (dataContainer : list (float * float))
    (xMinView xMaxView : float) (infos : list FrequencyPointInfo)
    (m : SpotNoiseData) (key : string) :
  key ∉ displayName <$> infos ->
  foldl (spotNoise_step qLn dataContainer xMinView xMaxView) m infos !! key
  = m !! key.
Proof.
  revert m. induction infos as [|info infos IH]; intros m Hk; [reflexivity|].
  simpl. rewrite IH.
  - rewrite spotNoise_step_entry.
    destruct (spotNoise_entry qLn dataContainer xMinView xMaxView info);
      [|reflexivity].
    apply lookup_insert_ne. intros Heq. apply Hk.
    rewrite fmap_cons. apply elem_of_cons. now left.
  - intros H. apply Hk. rewrite fmap_cons. apply elem_of_cons. now right.
Qed.

(** With distinct names, each target's entry is the one its turn adds. *)
Lemma spotNoise_fold_entry (dataContainer : list (float * float))
    (xMinView xMaxView : float) (infos : list FrequencyPointInfo)
    (m : SpotNoiseData) (info : FrequencyPointInfo) :
  NoDup (displayName <$> infos) ->
  (forall i, i ∈ infos -> m !! displayName i = None) ->
  info ∈ infos ->
  foldl (spotNoise_step qLn dataContainer xMinView xMaxView) m infos
    !! displayName info
  = spotNoise_entry qLn dataContainer xMinView xMaxView info.
Proof.
  revert m. induction infos as [|i0 infos IH]; intros m Hnd Hm Hin.
  - inversion Hin.
  - rewrite fmap_cons in Hnd. apply NoDup_cons in Hnd as [Hfresh Hnd].
    simpl. apply elem_of_cons in Hin as [->|Hin].
    + rewrite spotNoise_fold_other by exact Hfresh.
      rewrite spotNoise_step_entry.
      destruct (spotNoise_entry qLn dataContainer xMinView xMaxView i0).
      * apply lookup_insert_eq.
      * apply Hm. apply elem_of_cons. now left.
    + apply IH; [exact Hnd| |exact Hin].
      intros i Hi. rewrite spotNoise_step_entry.
      assert (Hmi : m !! displayName i = None).
      { apply Hm. apply elem_of_cons. now right. }
      destruct (spotNoise_entry qLn dataContainer xMinView xMaxView i0);
        [|exact Hmi].
      rewrite lookup_insert_ne; [exact Hmi|].
      intros Heq. apply Hfresh. rewrite Heq.
      now apply list_elem_of_fmap_2.
Qed.

Lemma FREQ_POINT_INFOS_names :
  displayName <$> FREQ_POINT_INFOS
  = ["0 Hz"; "1 Hz"; "10 Hz"; "100 Hz"; "1 kHz"; "10 kHz"; "100 kHz";
     "1 MHz"; "10 MHz"].
Proof. vm_compute. reflexivity. Qed.

Lemma FREQ_POINT_INFOS_NoDup : NoDup (displayName <$> FREQ_POINT_INFOS).
Proof.
  rewrite FREQ_POINT_INFOS_names.
  apply (bool_decide_unpack _). vm_compute. exact I.
Qed.

Lemma extractSpotNoise_lookup (dataContainer : list (float * float))
    (xMinView xMaxView : float) (info : FrequencyPointInfo) :
  info ∈ FREQ_POINT_INFOS ->
  extractSpotNoise qLn dataContainer xMinView xMaxView !! displayName info
  = spotNoise_entry qLn dataContainer xMinView xMaxView info.
Proof.
  intros Hin. unfold extractSpotNoise.
  apply spotNoise_fold_entry; [apply FREQ_POINT_INFOS_NoDup | | exact Hin].
  intros. apply lookup_empty.
Qed.

End SpotNoiseFacts.

Section SpotNoiseClaims.
Variable qLn : float -> float.

(** The logarithm of 5 is a number no larger than the largest double. *)
Hypothesis qLn_5_bounded : (qLn 5 <=? Double.max)%float = true.

Lemma spotNoise_entry_closest (data : list (float * float))
    (xMinView xMaxView : float) (info : FrequencyPointInfo) (f v : float) :
  (xMinView <=? value info)%float = true ->
  (value info <=? xMaxView)%float = true ->
  spotNoise_entry qLn data xMinView xMaxView info = Some (f, v)
  <-> exists k,
        Spec.firstClosest (logDist qLn (value info)) data k (f, v)
        /\ (logDist qLn (value info) f <? qLn 5)%float = true.
Proof.
  intros Hlo Hhi. unfold spotNoise_entry, gtb.
  rewrite (leb_true_ltb_false _ _ Hlo), (leb_true_ltb_false _ _ Hhi).
  cbn [orb]. cbv zeta. rewrite qAbs_qFabs_ltb.
  pose proof (findClosest_first qLn (value info) data) as Hc.
  cbv zeta in Hc.
  destruct (found (findClosest qLn (value info) data)).
  - destruct Hc as (k0 & [f0 v0] & FC0 & Hf & Hn & _ & Hmax).
    rewrite Hf, Hn. cbn [fst snd andb] in *.
    change (qAbs (qLn f0 - qLn (value info)))
      with (logDist qLn (value info) f0).
    split.
    + destruct (logDist qLn (value info) f0 <? qLn 5)%float eqn:E;
        [|discriminate].
      intros [= <- <-]. eauto.
    + intros (k & FC & Hlt).
      destruct (firstClosest_unique _ _ _ _ _ _ FC0 FC) as [_ [= -> ->]].
      * apply (ltb_true_not_nan _ _ Hmax).
      * apply (ltb_true_not_nan _ _ Hlt).
      * now rewrite Hlt.
  - destruct Hc as [_ Hall]. cbn [andb]. split; [discriminate|].
    intros (k & (Hk & _) & Hlt).
    pose proof (Hall k (f, v) Hk) as Hn. cbn [fst] in Hn.
    rewrite (ltb_leb_trans _ _ _ Hlt qLn_5_bounded) in Hn. discriminate.
Qed.

(** C6.  For each of the nine decade targets that lies in the visible
    range, the map holds under the target's name the first sample of the
    curve that no sample beats in log distance to the target, and it holds
    it if and only if that distance is below [qLn 5]; a target outside the
    visible range has no entry.  In particular, for the visible range
    [1, 1e6], a curve with the sample (1000, -120), no earlier sample
    being at log distance zero of 1000, has (1000, -120) under "1 kHz". *)
Theorem extractSpotNoise_closest (data : list (float * float))
    (xMinView xMaxView : float) :
  (forall info, info ∈ FREQ_POINT_INFOS ->
     ((xMinView <=? value info)%float = true ->
      (value info <=? xMaxView)%float = true ->
      forall f v,
        extractSpotNoise qLn data xMinView xMaxView !! displayName info
        = Some (f, v)
        <-> exists k,
              Spec.firstClosest (logDist qLn (value info)) data k (f, v)
              /\ (logDist qLn (value info) f <? qLn 5)%float = true)
     /\ ((value info <? xMinView)%float = true
         \/ (xMaxView <? value info)%float = true ->
         extractSpotNoise qLn data xMinView xMaxView !! displayName info
         = None))
  /\ (forall k : nat,
        is_finite (qLn 1000) = true ->
        (0 <? qLn 5)%float = true ->
        data !! k = Some (1000, -120)%float ->
        (forall k' p', (k' < k)%nat -> data !! k' = Some p' ->
           (logDist qLn 1000 p'.1 <=? 0)%float = false) ->
        extractSpotNoise qLn data 1 1000000 !! "1 kHz"
        = Some (1000, -120)%float).
Proof.
  split.
  - intros info Hin. rewrite (extractSpotNoise_lookup qLn _ _ _ _ Hin). split.
    + intros Hlo Hhi f v. now apply spotNoise_entry_closest.
    + intros Hout. unfold spotNoise_entry, gtb.
      destruct Hout as [-> | ->]; [reflexivity | now rewrite orb_true_r].
  - intros k Hfin Hpos Hk Hfirst.
    assert (Hin : getFreqInfo 1000 ∈ FREQ_POINT_INFOS).
    { apply list_elem_of_lookup. exists 4%nat. reflexivity. }
    change "1 kHz" with (displayName (getFreqInfo 1000)).
    rewrite (extractSpotNoise_lookup qLn _ _ _ _ Hin).
    apply spotNoise_entry_closest; [reflexivity | reflexivity |].
    change (value (getFreqInfo 1000)) with 1000%float.
    assert (Hd : logDist qLn 1000 1000 = 0%float).
    { unfold logDist. now rewrite (sub_self_finite _ Hfin). }
    exists k. unfold Spec.firstClosest. cbn [fst]. rewrite Hd.
    split; [|exact Hpos]. split; [exact Hk|]. split; [|exact Hfirst].
    intros k' p' _. apply qAbs_ltb_zero.
Qed.

End SpotNoiseClaims.

(** C6 with the logarithm of this file on a three-sample curve: the
    1 kHz entry is the sample at 1000 Hz, and the 10 Hz entry is the first
    closest sample to 10 Hz. *)
Lemma extractSpotNoise_closest_witness :
  extractSpotNoise Log.ln Samples.curve 1 1000000 !! "1 kHz"
  = Some (1000, -120)%float
  /\ exists k,
       Spec.firstClosest (logDist Log.ln 10) Samples.curve k (10, -80)%float
       /\ (logDist Log.ln 10 10 <? Log.ln 5)%float = true.
Proof.
  destruct (extractSpotNoise_closest Log.ln
              ltac:(vm_compute; reflexivity) Samples.curve 1 1000000)
    as [Hgen Hex].
  split.
  - apply (Hex 1%nat);
      [vm_compute; reflexivity | vm_compute; reflexivity | reflexivity |].
    intros k' p' Hlt H'. destruct k' as [|k']; [|lia].
    injection H' as <-. vm_compute. reflexivity.
  - destruct (Hgen (getFreqInfo 10)) as [Hiff _].
    { apply list_elem_of_lookup. exists 2%nat. reflexivity. }
    apply (Hiff ltac:(reflexivity) ltac:(reflexivity) 10 (-80))%float.
    vm_compute. reflexivity.
Defined.

(** * Further properties of the code *)

(** ** The filters *)

Section FilterShapes.

(** [movingAverage] either returns its input or fills every position
    from the inner loop. *)
Lemma movingAverage_run (data : list float) (w : Z) :
  ((oddify w < 3 \/ data = []) /\ movingAverage data w = Some data)
  \/ (3 <= oddify w /\ 1 <= size data
      /\ exists out,
           movingAverage data w = Some out
           /\ size out = size data
           /\ forall i, 0 <= i < size data ->
                at_ out i =
                ('(currentSum, count) ←
                   movingAverage_window data (Z.quot (oddify w) 2) i;
                 if 0 <? count then Some (currentSum / of_int count)%float
                 else at_ data i)).
Proof.
  unfold movingAverage.
  destruct ((oddify w <? 3) || isEmpty data) eqn:E.
  { left. split; [|reflexivity]. apply orb_true_iff in E as [E|E].
    - left. now apply Z.ltb_lt. - right. now apply isEmpty_nil. }
  right. apply orb_false_iff in E as [Ew Ee]. apply Z.ltb_ge in Ew.
  pose proof (isEmpty_size _ Ee) as Hn. pose proof (quot2_ge _ Ew) as Hh.
  split; [exact Ew|]. split; [exact Hn|].
  set (h := Z.quot (oddify w) 2) in *.
  set (f := fun i => '(currentSum, count) ← movingAverage_window data h i;
                     if 0 <? count then Some (currentSum / of_int count)%float
                     else at_ data i).
  rewrite (for_range_ext _ (fun i v => x ← f i; set_ v i x)).
  2:{ intros k t _. unfold f.
      destruct (movingAverage_window data h k) as [[s c]|]; [|reflexivity].
      simpl. destruct (0 <? c); [reflexivity|].
      now destruct (at_ data k). }
  destruct (for_range_write f 0 (size data) (filled (size data) 0%float))
    as (out & Hrun & Hs & Hin & _).
  { lia. } { rewrite size_filled; lia. }
  { intros i Hi. unfold f.
    destruct (movingAverage_window_total data h i) as [[s c] Hw]; [lia|].
    rewrite Hw. simpl. destruct (0 <? c); [eauto|].
    apply at_is_Some. lia. }
  rewrite size_filled in Hs by lia.
  exists out. split; [exact Hrun|]. split; [exact Hs|]. exact Hin.
Qed.

(** [medianFilter] either returns its input or fills every position with
    the middle of the sorted window. *)
Lemma medianFilter_run (data : list float) (w : Z) :
  ((oddify w < 3 \/ data = []) /\ medianFilter data w = Some data)
  \/ (3 <= oddify w /\ 1 <= size data
      /\ exists out,
           medianFilter data w = Some out
           /\ size out = size data
           /\ forall i, 0 <= i < size data ->
                exists window,
                  medianFilter_window data (Z.quot (oddify w) 2) i
                  = Some window
                  /\ size window = 2 * Z.quot (oddify w) 2 + 1
                  /\ at_ out i
                     = at_ (std_sort window) (Z.quot (oddify w) 2)).
Proof.
  unfold medianFilter.
  destruct ((oddify w <? 3) || isEmpty data) eqn:E.
  { left. split; [|reflexivity]. apply orb_true_iff in E as [E|E].
    - left. now apply Z.ltb_lt. - right. now apply isEmpty_nil. }
  right. apply orb_false_iff in E as [Ew Ee]. apply Z.ltb_ge in Ew.
  pose proof (isEmpty_size _ Ee) as Hn. pose proof (quot2_ge _ Ew) as Hh.
  split; [exact Ew|]. split; [exact Hn|].
  set (h := Z.quot (oddify w) 2) in *.
  set (f := fun i => window ← medianFilter_window data h i;
                     at_ (std_sort window) (Z.quot (size (std_sort window)) 2)).
  rewrite (for_range_ext _ (fun i v => x ← f i; set_ v i x)).
  2:{ intros k t _. unfold f.
      destruct (medianFilter_window data h k) as [win|]; [|reflexivity].
      simpl. now destruct (at_ (std_sort win) _). }
  assert (Hmid : forall win : list float, size win = 2 * h + 1 ->
            Z.quot (size (std_sort win)) 2 = h
            /\ size (std_sort win) = 2 * h + 1).
  { intros win Hw.
    assert (Hss : size (std_sort win) = 2 * h + 1).
    { unfold size in *. now rewrite std_sort_length. }
    split; [|exact Hss]. rewrite Hss. rewrite Z.quot_div_nonneg by lia.
    symmetry. apply (Z.div_unique _ _ h 1); lia. }
  destruct (for_range_write f 0 (size data) (filled (size data) 0%float))
    as (out & Hrun & Hs & Hin & _).
  { lia. } { rewrite size_filled; lia. }
  { intros i Hi. unfold f.
    destruct (medianFilter_window_total data h i) as (win & Hw & Hsz);
      [lia..|].
    rewrite Hw. simpl. destruct (Hmid win Hsz) as [-> Hss].
    apply at_is_Some. lia. }
  rewrite size_filled in Hs by lia.
  exists out. split; [exact Hrun|]. split; [exact Hs|].
  intros i Hi.
  destruct (medianFilter_window_total data h i) as (win & Hw & Hsz); [lia..|].
  exists win. split; [exact Hw|]. split; [exact Hsz|].
  rewrite (Hin i Hi). unfold f. rewrite Hw. simpl.
  now destruct (Hmid win Hsz) as [-> _].
Qed.



Lemma sort_insert_replicate (c : float) (n : nat) :
  sort_insert c (replicate n c) = replicate (Datatypes.S n) c.
Proof.
  induction n as [|n IH]; [reflexivity|].
  simpl. rewrite ltb_irrefl. simpl in IH. now rewrite IH.
Qed.

Lemma std_sort_replicate (c : float) (n : nat) :
  std_sort (replicate n c) = replicate n c.
Proof.
  induction n as [|n IH]; [reflexivity|].
  unfold std_sort in *. simpl. rewrite IH. apply sort_insert_replicate.
Qed.

(** The window of [medianFilter] holds input samples only. *)
Lemma medianFilter_window_elem (data : list float) (h i : Z)
    (window : list float) :
  0 <= h ->
  medianFilter_window data h i = Some window ->
  forall x, x ∈ window -> x ∈ data.
Proof.
  intros Hh. unfold medianFilter_window.
  apply (for_range_partial
           (fun _ (w : list float) => forall x, x ∈ w -> x ∈ data)).
  - lia.
  - intros x Hx. inversion Hx.
  - intros k w w' _ Hw. simpl.
    destruct (at_ data _) as [y|] eqn:Ey; simpl; [|discriminate].
    intros [= <-] x Hx. apply elem_of_app in Hx as [Hx|Hx]; [auto|].
    apply list_elem_of_singleton in Hx as ->.
    apply at_Some_lookup in Ey. apply list_elem_of_lookup. eauto.
Qed.

Lemma all_equal_replicate {A} (c : A) (l : list A) :
  (forall x, x ∈ l -> x = c) -> l = replicate (length l) c.
Proof.
  induction l as [|y l IH]; intros H; [reflexivity|].
  simpl. rewrite (H y) by (apply elem_of_cons; now left).
  f_equal. apply IH. intros x Hx. apply H. apply elem_of_cons. now right.
Qed.

Lemma movingAverage_iter (data : list float) (i : Z) (n : nat) (j : Z)
    (s : float) (c : nat) :
  for_iter n j
    (fun j '(currentSum, count) =>
       let index := i + j in
       if (0 <=? index) && (index <? size data) then
         x ← at_ data index;
         Some ((currentSum + x)%float, count + 1)
       else Some (currentSum, count))
    (s, Z.of_nat c)
  = Some (foldl PrimFloat.add s (omap (at_ data) (Spec.zrange (i + j) n)),
          Z.of_nat (c + length (omap (at_ data) (Spec.zrange (i + j) n)))).
Proof.
  revert j s c. induction n as [|n IH]; intros j s c.
  - simpl. f_equal. f_equal. lia.
  - rewrite zrange_S. cbn [for_iter omap list_omap].
    destruct ((0 <=? i + j) && (i + j <? size data)) eqn:E.
    + destruct (at_is_Some data (i + j)) as [x Hx]; [lia|].
      rewrite Hx. simpl.
      replace (Z.of_nat c + 1) with (Z.of_nat (Datatypes.S c)) by lia.
      rewrite IH. replace (i + (j + 1)) with (i + j + 1) by lia.
      f_equal. f_equal. lia.
    + assert (Hn : at_ data (i + j) = None).
      { unfold at_. now rewrite E. }
      rewrite Hn. simpl. rewrite IH.
      now replace (i + (j + 1)) with (i + j + 1) by lia.
Qed.

(** The inner loop of [movingAverage] sums the samples that exist in the
    window and counts them. *)
Lemma movingAverage_window_samples (data : list float) (h i : Z) :
  0 <= h ->
  movingAverage_window data h i
  = Some (Shape.sum (Shape.windowSamples data h i),
          Z.of_nat (length (Shape.windowSamples data h i))).
Proof.
  intros Hh. unfold movingAverage_window, for_range,
    Shape.windowSamples, Shape.sum.
  replace (Z.to_nat (h + 1 - - h)) with (Z.to_nat (2 * h + 1)) by lia.
  replace (i - h) with (i + - h) by lia.
  apply (movingAverage_iter data i (Z.to_nat (2 * h + 1)) (- h) 0%float 0).
Qed.

(** The position itself is always in the window. *)
Lemma windowSamples_nonempty (data : list float) (h i : Z) :
  0 <= h -> 0 <= i < size data ->
  (1 <= length (Shape.windowSamples data h i))%nat.
Proof.
  intros Hh Hi. destruct (at_is_Some data i) as [x Hx]; [lia|].
  assert (Hin : x ∈ Shape.windowSamples data h i).
  { unfold Shape.windowSamples. apply list_elem_of_omap.
    exists i. split; [|exact Hx].
    unfold Spec.zrange. apply list_elem_of_fmap.
    exists (Z.to_nat h). split; [lia|]. apply elem_of_seq. lia. }
  destruct (Shape.windowSamples data h i); [inversion Hin | simpl; lia].
Qed.

(** Away from both ends the inner loop of [savitzkyGolay] is a
    convolution with its coefficients. *)
Lemma savitzkyGolay_sum_convolution (coeffs data : list float)
    (norm : float) (h i : Z) :
  0 <= h -> size coeffs = 2 * h + 1 ->
  h <= i <= size data - 1 - h ->
  (sum ← savitzkyGolay_sum coeffs data h i; Some (sum / norm)%float)
  = Shape.convolution coeffs norm h data i.
Proof.
  intros Hh Hc Hi. unfold savitzkyGolay_sum, Shape.convolution, Shape.sum.
  set (term := fun j => c ← at_ coeffs (j + h);
                        x ← at_ data (reflectIndex (size data) i j);
                        Some (c * x)%float).
  rewrite (for_range_ext _ (fun j sum => t ← term j; Some (sum + t)%float)).
  2:{ intros k t _. unfold term.
      destruct (at_ coeffs (k + h)); [|reflexivity]. simpl.
      now destruct (at_ data (reflectIndex (size data) i k)). }
  unfold for_range. rewrite for_iter_accumulate. unfold term.
  replace (Z.to_nat (h + 1 - - h)) with (Z.to_nat (2 * h + 1)) by lia.
  rewrite (mapM_ext_in _
    (fun j => c ← coeffs !! Z.to_nat (j + h);
              x ← at_ data (i + j);
              Some (c * x)%float)); [now destruct (mapM _ _)|].
  intros j Hj. apply elem_of_zrange in Hj.
  rewrite (at_lookup coeffs) by lia.
  rewrite reflectIndex_inside by lia. reflexivity.
Qed.

End FilterShapes.

Section FilterExtras.

(** X1.  Each of the three filters returns a vector with as many samples
    as its input, for every input, window and polynomial order. *)
Theorem filters_preserve_size (data : list float) (windowSize polyOrder : Z) :
  exists a b c,
    movingAverage data windowSize = Some a
    /\ medianFilter data windowSize = Some b
    /\ savitzkyGolay data windowSize polyOrder = Some c
    /\ size a = size data /\ size b = size data /\ size c = size data.
Proof.
  assert (Ha : exists a, movingAverage data windowSize = Some a
                         /\ size a = size data).
  { destruct (movingAverage_run data windowSize)
      as [[_ Ha]|(_ & _ & a & Ha & Hsa & _)]; eauto. }
  assert (Hc : exists c, savitzkyGolay data windowSize polyOrder = Some c
                         /\ size c = size data).
  { destruct (savitzkyGolay_run data windowSize polyOrder)
      as [[_ Hc]|(_ & _ & c0 & n0 & u0 & c & _ & _ & _ & Hc & Hsc & _)];
      eauto. }
  destruct Ha as (a & Ha & Hsa), Hc as (c & Hc & Hsc).
  destruct (medianFilter_total data windowSize) as (b & Hb & Hsb).
  exists a, b, c. auto 7.
Qed.


(** X3.  The median filter returns a constant vector unchanged, whatever
    the window and the value (a NaN included). *)
Theorem medianFilter_constant (n : nat) (c : float) (windowSize : Z) :
  medianFilter (replicate n c) windowSize = Some (replicate n c).
Proof.
  destruct (medianFilter_run (replicate n c) windowSize)
    as [[_ Hid]|(Hw & Hn & out & Hrun & Hs & Hval)]; [exact Hid|].
  rewrite Hrun. f_equal. apply vector_ext; [exact Hs|].
  intros i Hi. rewrite Hs in Hi.
  destruct (Hval i Hi) as (win & Hwin & Hsz & ->).
  pose proof (quot2_ge _ Hw) as Hh.
  assert (Hall : win = replicate (length win) c).
  { apply all_equal_replicate. intros x Hx.
    assert (H0 : 0 <= Z.quot (oddify windowSize) 2) by lia.
    apply (medianFilter_window_elem _ _ _ _ H0 Hwin) in Hx.
    now apply elem_of_replicate in Hx as [-> _]. }
  assert (Hlen : length win = Z.to_nat (2 * Z.quot (oddify windowSize) 2 + 1)).
  { unfold size in Hsz. lia. }
  rewrite Hall, std_sort_replicate, Hlen.
  unfold size in Hi. rewrite length_replicate in Hi.
  rewrite (at_lookup (replicate n c)) by (unfold size; rewrite length_replicate; lia).
  rewrite (at_lookup (replicate _ c)) by (unfold size; rewrite length_replicate; lia).
  rewrite !lookup_replicate_2 by lia. reflexivity.
Qed.

(** X4.  With a window of at least 3 (once made odd) and data that is
    not empty, every output sample of the moving average is the
    left-to-right sum of the input samples at the indices
    [i - h .. i + h] that exist, divided by their number, which is at
    least one: the mean is truncated at the edges and the fallback
    [smoothed[i] = data[i]] is never taken. *)
Theorem movingAverage_truncated_mean (data : list float) (windowSize : Z) :
  3 <= Spec.oddified windowSize -> data <> [] ->
  exists out,
    movingAverage data windowSize = Some out
    /\ size out = size data
    /\ forall i, 0 <= i < size data ->
         let ws :=
           Shape.windowSamples data (Spec.oddified windowSize / 2) i in
         (1 <= length ws)%nat
         /\ at_ out i
            = Some (Shape.sum ws / of_int (Z.of_nat (length ws)))%float.
Proof.
  unfold Spec.oddified. rewrite <- oddify_even. intros Hw Hne.
  destruct (movingAverage_run data windowSize)
    as [[[H|H] _]|(_ & Hn & out & Hrun & Hs & Hval)]; [lia | easy |].
  exists out. split; [exact Hrun|]. split; [exact Hs|].
  intros i Hi. cbv zeta.
  rewrite <- Z.quot_div_nonneg by lia.
  pose proof (quot2_ge _ Hw) as Hh.
  pose proof (windowSamples_nonempty data (Z.quot (oddify windowSize) 2) i
                ltac:(lia) Hi) as Hlen.
  split; [exact Hlen|].
  rewrite (Hval i Hi), movingAverage_window_samples by lia. simpl.
  destruct (0 <? Z.of_nat _) eqn:E; [reflexivity|].
  apply Z.ltb_ge in E. lia.
Qed.

(** Window 3 on four samples: at the left edge two samples are averaged,
    inside three. *)
Lemma movingAverage_truncated_mean_witness :
  exists out,
    movingAverage [1; 2; 6; 4]%float 3 = Some out
    /\ size out = 4
    /\ at_ out 0 = Some ((0 + 1 + 2) / 2)%float
    /\ at_ out 2 = Some ((0 + 2 + 6 + 4) / 3)%float.
Proof.
  destruct (movingAverage_truncated_mean [1; 2; 6; 4]%float 3)
    as (out & Hrun & Hs & Hval); [discriminate | discriminate |].
  exists out. split; [exact Hrun|]. split; [exact Hs|]. split.
  - apply (Hval 0). split; [discriminate | reflexivity].
  - apply (Hval 2). split; [discriminate | reflexivity].
Defined.

(** X5.  For window 5 (and for window 7) on data with at least that many
    samples, every output sample of [savitzkyGolay] away from the two
    copied borders is the convolution of the input with the five (seven)
    coefficients of the table, divided by 35 (by 21). *)
Theorem savitzkyGolay_small_kernels (data : list float)
    (windowSize polyOrder : Z) :
  Spec.oddified windowSize = 5 \/ Spec.oddified windowSize = 7 ->
  polyOrder < Spec.oddified windowSize ->
  Spec.oddified windowSize <= size data ->
  exists out,
    savitzkyGolay data windowSize polyOrder = Some out
    /\ size out = size data
    /\ forall i,
         Spec.oddified windowSize / 2 <= i
           <= size data - 1 - Spec.oddified windowSize / 2 ->
         at_ out i
         = (if Spec.oddified windowSize =? 5
            then Shape.convolution coeffs_5 norm_5 2 data i
            else Shape.convolution coeffs_7 norm_7 3 data i).
Proof.
  unfold Spec.oddified. rewrite <- oddify_even. intros Hw Hp Hn.
  destruct (savitzkyGolay_run data windowSize polyOrder)
    as [[Hg _]|(_ & _ & c & nrm & u & out & Hsel & Hu & _ & Hrun & Hs & _ & Hin)];
    [lia|].
  exists out. split; [exact Hrun|]. split; [exact Hs|].
  intros i Hi. unfold selectCoeffs in Hsel.
  destruct Hw as [Hw|Hw]; rewrite Hw in *.
  - change (5 / 2) with 2 in Hi. change (5 =? 5) with true in *.
    cbv iota in Hsel, Hu |- *. injection Hsel as <- <- _. subst u.
    change (Z.quot 5 2) with 2 in Hin. rewrite Hin by lia.
    apply savitzkyGolay_sum_convolution; [lia | reflexivity | lia].
  - change (7 / 2) with 3 in Hi. change (7 =? 5) with false in *.
    change (7 =? 7) with true in *.
    cbv iota in Hsel, Hu |- *. injection Hsel as <- <- _. subst u.
    change (Z.quot 7 2) with 3 in Hin. rewrite Hin by lia.
    apply savitzkyGolay_sum_convolution; [lia | reflexivity | lia].
Qed.

(** Window 5 on seven samples with a one at index 3: the centre becomes
    17/35 and its neighbour 12/35. *)
Lemma savitzkyGolay_small_kernels_witness :
  exists out,
    savitzkyGolay [0; 0; 0; 1; 0; 0; 0]%float 5 3 = Some out
    /\ at_ out 3
       = Shape.convolution coeffs_5 norm_5 2 [0; 0; 0; 1; 0; 0; 0]%float 3
    /\ Shape.convolution coeffs_5 norm_5 2 [0; 0; 0; 1; 0; 0; 0]%float 3
       = Some (17 / 35)%float.
Proof.
  destruct (savitzkyGolay_small_kernels [0; 0; 0; 1; 0; 0; 0]%float 5 3)
    as (out & Hrun & _ & Hval);
    [left; reflexivity | reflexivity | discriminate |].
  exists out. split; [exact Hrun|]. split.
  - apply (Hval 3). split; discriminate.
  - vm_compute. reflexivity.
Defined.

(** X6.  Every window of 9 or more (once made odd) gives exactly the
    result of window 11, on data of at least 11 samples and at least as
    many as the window: wider windows do not smooth more. *)
Theorem savitzkyGolay_snaps_to_11 (data : list float)
    (windowSize polyOrder : Z) :
  9 <= Spec.oddified windowSize <= size data ->
  11 <= size data ->
  polyOrder < 9 ->
  savitzkyGolay data windowSize polyOrder = savitzkyGolay data 11 polyOrder.
Proof.
  unfold Spec.oddified. rewrite <- oddify_even. intros Hw Hn Hp.
  unfold savitzkyGolay. change (oddify 11) with 11.
  assert (Hsel : selectCoeffs (oddify windowSize) = selectCoeffs 11).
  { destruct (selectCoeffs_odd (oddify windowSize) ltac:(lia)
                (oddify_odd windowSize))
      as (c & n & u & -> & _ & -> & H11).
    destruct (H11 ltac:(lia)) as [-> ->].
    destruct (oddify windowSize =? 5) eqn:E5; [apply Z.eqb_eq in E5; lia|].
    destruct (oddify windowSize =? 7) eqn:E7; [apply Z.eqb_eq in E7; lia|].
    reflexivity. }
  rewrite Hsel.
  replace (oddify windowSize <? 5) with false by (symmetry; apply Z.ltb_ge; lia).
  replace (oddify windowSize <=? polyOrder) with false
    by (symmetry; apply Z.leb_gt; lia).
  replace (size data <? oddify windowSize) with false
    by (symmetry; apply Z.ltb_ge; lia).
  replace (11 <=? polyOrder) with false by (symmetry; apply Z.leb_gt; lia).
  replace (size data <? 11) with false by (symmetry; apply Z.ltb_ge; lia).
  reflexivity.
Qed.

(** Windows 13 and 11 agree on thirteen samples with a one at index 5. *)
Lemma savitzkyGolay_snaps_to_11_witness :
  savitzkyGolay Samples.impulse13 13 3 = savitzkyGolay Samples.impulse13 11 3.
Proof.
  apply (savitzkyGolay_snaps_to_11 Samples.impulse13 13 3).
  - split; discriminate.
  - discriminate.
  - reflexivity.
Defined.

(** X7.  With window 9 (once made odd) nine or ten samples come back
    unchanged: the kernel applied is the 11-point one, whose two copied
    borders of five samples cover the whole vector. *)
Theorem savitzkyGolay_window9_short (data : list float)
    (windowSize polyOrder : Z) :
  9 <= Spec.oddified windowSize <= size data -> size data <= 10 ->
  savitzkyGolay data windowSize polyOrder = Some data.
Proof.
  unfold Spec.oddified. rewrite <- oddify_even. intros Hw Hn.
  destruct (savitzkyGolay_run data windowSize polyOrder)
    as [[_ Hid]|(_ & _ & c & nrm & u & out & _ & Hu & _ & Hrun & Hs & Hedge & _)];
    [exact Hid|].
  rewrite Hrun. f_equal. apply vector_ext; [exact Hs|].
  intros i Hi. rewrite Hs in Hi. apply Hedge; [exact Hi|].
  rewrite Hu.
  destruct (oddify windowSize =? 5) eqn:E5; [apply Z.eqb_eq in E5; lia|].
  destruct (oddify windowSize =? 7) eqn:E7; [apply Z.eqb_eq in E7; lia|].
  change (Z.quot 11 2) with 5. lia.
Qed.

(** Ten samples and window 9. *)
Lemma savitzkyGolay_window9_short_witness :
  savitzkyGolay [1; 5; 2; 8; 3; 9; 4; 7; 6; 0]%float 9 3
  = Some [1; 5; 2; 8; 3; 9; 4; 7; 6; 0]%float.
Proof.
  apply (savitzkyGolay_window9_short [1; 5; 2; 8; 3; 9; 4; 7; 6; 0]%float 9 3).
  - split; discriminate.
  - discriminate.
Defined.

End FilterExtras.

(** ** Spur removal runs to completion *)

Section SpurRuns.

Lemma aboveBaseline_total (sourceRef baseline : list float) (i : Z) :
  0 <= i < size sourceRef -> size baseline = size sourceRef ->
  is_Some (aboveBaseline sourceRef baseline i).
Proof.
  intros Hi Hs.
  destruct (at_is_Some sourceRef i) as [r Hr]; [lia|].
  destruct (at_is_Some baseline i) as [b Hb]; [lia|].
  rewrite (aboveBaseline_eq _ _ _ _ _ Hr Hb). eauto.
Qed.

Lemma markSpurs_total (sourceRef baseline : list float) :
  size baseline = size sourceRef ->
  exists isSpur,
    markSpurs sourceRef baseline (size sourceRef) = Some isSpur
    /\ size isSpur = size sourceRef.
Proof.
  intros Hs. unfold markSpurs. pose proof (size_nonneg sourceRef).
  loop_inv (fun (_ : Z) (v : list bool) => size v = size sourceRef)
    as (r & Hr & Hsr); [lia | apply size_filled; lia | | eauto].
  intros k v Hk Hv.
  destruct (aboveBaseline_total sourceRef baseline k) as [[] Hc]; try lia;
    rewrite Hc; simpl.
  - rewrite set_in_range by lia. eexists. split; [reflexivity|].
    now rewrite size_insert.
  - eauto.
Qed.

Lemma spurFlags_total (sourceRef : list float) :
  exists isSpur,
    spurFlags sourceRef = Some isSpur /\ size isSpur = size sourceRef.
Proof.
  unfold spurFlags, rollingMedian.
  destruct (medianFilter_total sourceRef DEFAULT_SPUR_WINDOW_SIZE)
    as (baseline & -> & Hs).
  simpl. now apply markSpurs_total.
Qed.

(** The end of a run of flagged samples. *)
Lemma skipSpurs_run (isSpur : list bool) (i : Z) :
  0 <= i < size isSpur -> at_ isSpur i = Some true ->
  exists i',
    skipSpurs isSpur (size isSpur) i = Some i'
    /\ i < i' <= size isSpur
    /\ forall k, i <= k < i' -> at_ isSpur k = Some true.
Proof.
  intros Hi Hflag. unfold skipSpurs. set (N := size isSpur) in *.
  destruct (while_loop_inv
    (fun j => i <= j <= N /\ forall k, i <= k < j -> at_ isSpur k = Some true)
    (fun j => N - j)
    (fun j => andThen (Some (j <? N)) (at_ isSpur j))
    (fun j => Some (j + 1)) (budget N) i)
    as (j & Hrun & [Hj Hall] & Hc).
  - split; [lia|]. intros; lia.
  - unfold budget. lia.
  - intros j [Hj _]. lia.
  - intros j [Hj _]. unfold andThen. simpl.
    destruct (j <? N) eqn:E; [|eauto]. apply Z.ltb_lt in E.
    apply at_is_Some. lia.
  - intros j [Hj Hall] Hc. unfold andThen in Hc. simpl in Hc.
    destruct (j <? N) eqn:E; [|discriminate]. apply Z.ltb_lt in E.
    eexists. split; [reflexivity|]. split; [|lia]. split; [lia|].
    intros k Hk. destruct (decide (k = j)) as [->|Hne]; [exact Hc|].
    apply Hall. lia.
  - exists j. split; [exact Hrun|]. split; [|exact Hall]. split; [|lia].
    destruct (decide (j = i)) as [->|Hne]; [|lia].
    unfold andThen in Hc. simpl in Hc.
    destruct (i <? N) eqn:E; [|apply Z.ltb_ge in E; lia]. congruence.
Qed.

Lemma findLeft_run (isSpur : list bool) (start : Z) :
  0 <= start < size isSpur ->
  exists left,
    findLeft isSpur (size isSpur) start = Some left
    /\ 0 <= left < size isSpur.
Proof.
  intros Hs. unfold findLeft. set (N := size isSpur) in *.
  destruct (while_loop_inv (fun l => -1 <= l <= start - 1) (fun l => l + 1)
    (fun left => andThen (Some (0 <=? left)) (at_ isSpur left))
    (fun left => Some (left - 1)) (budget N) (start - 1))
    as (l & Hrun & Hl & _).
  - lia.
  - unfold budget. lia.
  - intros; lia.
  - intros l Hl. unfold andThen. simpl.
    destruct (0 <=? l) eqn:E; [|eauto]. apply Z.leb_le in E.
    apply at_is_Some. lia.
  - intros l Hl Hc. unfold andThen in Hc. simpl in Hc.
    destruct (0 <=? l) eqn:E; [|discriminate]. apply Z.leb_le in E.
    eexists. split; [reflexivity|]. lia.
  - rewrite Hrun. simpl. eexists. split; [reflexivity|].
    destruct (l <? 0) eqn:E; [lia|]. apply Z.ltb_ge in E. lia.
Qed.

Lemma findRight_run (isSpur : list bool) (end_ : Z) :
  0 <= end_ < size isSpur ->
  exists right,
    findRight isSpur (size isSpur) end_ = Some right
    /\ 0 <= right < size isSpur.
Proof.
  intros Hs. unfold findRight. set (N := size isSpur) in *.
  destruct (while_loop_inv (fun r => end_ + 1 <= r <= N) (fun r => N - r)
    (fun right => andThen (Some (right <? N)) (at_ isSpur right))
    (fun right => Some (right + 1)) (budget N) (end_ + 1))
    as (r & Hrun & Hr & _).
  - lia.
  - unfold budget. lia.
  - intros; lia.
  - intros r Hr. unfold andThen. simpl.
    destruct (r <? N) eqn:E; [|eauto]. apply Z.ltb_lt in E.
    apply at_is_Some. lia.
  - intros r Hr Hc. unfold andThen in Hc. simpl in Hc.
    destruct (r <? N) eqn:E; [|discriminate]. apply Z.ltb_lt in E.
    eexists. split; [reflexivity|]. lia.
  - rewrite Hrun. simpl. eexists. split; [reflexivity|].
    destruct (N <=? r) eqn:E; [lia|]. apply Z.leb_gt in E. lia.
Qed.

(** One turn of method 1 succeeds, moves the index forward and writes
    flagged samples only. *)
Lemma pass1_body_run (isSpur : list bool) (freq processedMeas : list float)
    (i : Z) :
  size freq = size isSpur -> size processedMeas = size isSpur ->
  0 <= i < size isSpur ->
  exists i' pm',
    pass1_body isSpur freq (size isSpur) (i, processedMeas) = Some (i', pm')
    /\ i < i' <= size isSpur
    /\ size pm' = size isSpur
    /\ forall k, at_ isSpur k = Some false ->
         at_ pm' k = at_ processedMeas k.
Proof.
  intros Hf Hp Hi. unfold pass1_body.
  destruct (at_is_Some isSpur i) as [[] Hflag]; [lia| |]; rewrite Hflag;
    simpl.
  2:{ exists (i + 1), processedMeas. split; [reflexivity|].
      split; [lia|]. auto. }
  destruct (skipSpurs_run isSpur i Hi Hflag) as (i' & -> & Hi' & Hall).
  simpl.
  destruct (findLeft_run isSpur i Hi) as (left & -> & Hl). simpl.
  destruct (findRight_run isSpur (i' - 1)) as (right & -> & Hr); [lia|].
  simpl.
  destruct (at_is_Some processedMeas left) as [leftVal ->]; [lia|].
  destruct (at_is_Some processedMeas right) as [rightVal ->]; [lia|].
  destruct (at_is_Some freq left) as [leftFreq ->]; [lia|].
  destruct (at_is_Some freq right) as [rightFreq ->]; [lia|].
  simpl. replace (i' - 1 + 1) with i' by lia.
  match goal with
  | |- context [for_range i i' ?b processedMeas] => set (body := b)
  end.
  destruct (for_range_inv
    (fun (_ : Z) (v : list float) =>
       size v = size isSpur
       /\ forall k, at_ isSpur k = Some false -> at_ v k = at_ processedMeas k)
    body i i' processedMeas) as (pm' & Hrun & Hs' & Hkeep).
  - lia.
  - auto.
  - intros k v Hk [Hsv Hkv].
    assert (Hset : forall x, exists v',
              set_ v k x = Some v'
              /\ size v' = size isSpur
              /\ forall k0, at_ isSpur k0 = Some false ->
                   at_ v' k0 = at_ processedMeas k0).
    { intros x. rewrite set_in_range by lia. eexists.
      split; [reflexivity|]. split; [now rewrite size_insert|].
      intros k0 Hk0. destruct (decide (k0 = k)) as [->|Hne].
      - rewrite Hall in Hk0 by lia. discriminate.
      - pose proof (at_Some_range _ _ _ Hk0).
        rewrite at_insert_ne by lia. now apply Hkv. }
    unfold body.
    destruct ((left <? right)
              && gtb (qAbs (rightFreq - leftFreq)) freqTolerance).
    + destruct (at_is_Some freq k) as [fk ->]; [lia|]. simpl. apply Hset.
    + apply Hset.
  - rewrite Hrun. simpl. exists i', pm'. split; [reflexivity|].
    split; [lia|]. auto.
Qed.

(** Method 1 runs to completion, keeps the length of the measurement and
    changes flagged samples only. *)
Lemma pass1_run (isSpur : list bool) (freq processedMeas : list float) :
  size freq = size isSpur -> size processedMeas = size isSpur ->
  exists out,
    pass1 isSpur freq (size isSpur) processedMeas = Some out
    /\ size out = size isSpur
    /\ forall k, at_ isSpur k = Some false ->
         at_ out k = at_ processedMeas k.
Proof.
  intros Hf Hp. unfold pass1. set (N := size isSpur) in *.
  pose proof (size_nonneg isSpur) as HN. fold N in HN.
  destruct (while_loop_inv
    (fun st : Z * list float =>
       0 <= st.1 <= N /\ size st.2 = N
       /\ forall k, at_ isSpur k = Some false ->
            at_ st.2 k = at_ processedMeas k)
    (fun st => N - st.1)
    (fun st : Z * list float => Some (st.1 <? N))
    (pass1_body isSpur freq N) (budget N) (0, processedMeas))
    as ([i pm] & Hrun & (_ & Hs & Hkeep) & _).
  - simpl. auto with lia.
  - unfold budget. simpl. lia.
  - intros [i pm] (Hi & _). simpl in *. lia.
  - intros t _. eauto.
  - intros [i pm] (Hi & Hs & Hkeep) Hc. simpl in *.
    injection Hc as Hc. apply Z.ltb_lt in Hc.
    destruct (pass1_body_run isSpur freq pm i) as (i' & pm' & Hb & Hi' & Hs' & Hk');
      [assumption | assumption | lia |].
    exists (i', pm'). split; [exact Hb|]. simpl.
    split; [|lia]. split; [lia|]. split; [exact Hs'|].
    intros k Hk. rewrite Hk' by exact Hk. now apply Hkeep.
  - rewrite Hrun. simpl in *. eauto.
Qed.

Lemma findFalling_run (currentRef : list float) (start : Z) :
  0 <= start < size currentRef ->
  exists j,
    findFalling currentRef (size currentRef) start = Some j
    /\ start < j <= size currentRef.
Proof.
  intros Hs. unfold findFalling.
  destruct (while_loop_inv (fun j => start + 1 <= j <= size currentRef)
    (fun j => size currentRef - j)
    (fun j =>
       andThen (Some (j <? size currentRef))
         (f ← fallingEdge currentRef j; Some (negb f)))
    (fun j => Some (j + 1)) (budget (size currentRef)) (start + 1))
    as (j & Hrun & Hj & _).
  - lia.
  - unfold budget. lia.
  - intros; lia.
  - intros j Hj. unfold andThen. simpl.
    destruct (j <? size currentRef) eqn:E; [|eauto]. apply Z.ltb_lt in E.
    destruct (fallingEdge_total currentRef j) as [f ->]; [lia|].
    simpl. eauto.
  - intros j Hj Hc. unfold andThen in Hc. simpl in Hc.
    destruct (j <? size currentRef) eqn:E; [|discriminate].
    apply Z.ltb_lt in E. eexists. split; [reflexivity|]. lia.
  - exists j. split; [exact Hrun | lia].
Qed.

(** One turn of method 2 succeeds, moves the index forward and, unless
    the index is a rising edge, changes nothing; at a rising edge it
    writes from the index on. *)
Lemma pass2_body_run (currentRef freq finalMeas : list float) (i : Z) :
  size freq = size currentRef -> size finalMeas = size currentRef ->
  1 <= i < size currentRef - 1 ->
  exists i' fm',
    pass2_body currentRef freq (size currentRef) (i, finalMeas)
    = Some (i', fm')
    /\ i < i' <= size currentRef
    /\ size fm' = size currentRef
    /\ forall k, risingEdge currentRef i = Some false \/ k < i ->
         at_ fm' k = at_ finalMeas k.
Proof.
  intros Hf Hp Hi. unfold pass2_body.
  destruct (risingEdge_total currentRef i) as [[] Hr]; [lia| |];
    rewrite Hr; simpl.
  2:{ exists (i + 1), finalMeas. split; [reflexivity|].
      split; [lia|]. auto. }
  destruct (findFalling_run currentRef i) as (j & -> & Hj); [lia|]. simpl.
  destruct (at_is_Some finalMeas (i - 1)) as [leftVal El]; [lia|].
  destruct (j <? size currentRef) eqn:EjN.
  - apply Z.ltb_lt in EjN. rewrite El.
    destruct (at_is_Some finalMeas j) as [rightVal ->]; [lia|].
    destruct (at_is_Some freq (i - 1)) as [leftFreq ->]; [lia|].
    destruct (at_is_Some freq j) as [rightFreq ->]; [lia|].
    simpl.
    match goal with
    | |- context [for_range i j ?b finalMeas] => set (body := b)
    end.
    destruct (for_range_inv
      (fun (_ : Z) (v : list float) => size v = size currentRef)
      body i j finalMeas) as (fm' & Hrun & Hs').
    + lia.
    + exact Hp.
    + intros k v Hk Hsv. unfold body.
      destruct (gtb (qFabs (rightFreq - leftFreq)) freqTolerance).
      * destruct (at_is_Some freq k) as [fk ->]; [lia|]. simpl.
        rewrite set_in_range by lia. eexists. split; [reflexivity|].
        now rewrite size_insert.
      * rewrite set_in_range by lia. eexists. split; [reflexivity|].
        now rewrite size_insert.
    + rewrite Hrun. simpl. exists j, fm'. split; [reflexivity|].
      split; [lia|]. split; [exact Hs'|].
      intros k [Hk|Hk]; [discriminate|].
      apply for_range_frame in Hrun as [_ Hout]; [apply Hout; lia|].
      intros k0 w w' _ Hw. unfold body in Hw.
      destruct (gtb (qFabs (rightFreq - leftFreq)) freqTolerance); [|eauto].
      destruct (at_ freq k0); simpl in Hw; [eauto|discriminate].
  - rewrite El. simpl.
    destruct (for_range_fill leftVal i (size currentRef) finalMeas)
      as (fm' & Hrun & Hs' & _ & Hout); [lia..|].
    rewrite Hrun. simpl. exists (size currentRef), fm'.
    split; [reflexivity|]. split; [lia|]. split; [lia|].
    intros k [Hk|Hk]; [discriminate|]. apply Hout. lia.
Qed.

(** Method 2 runs to completion, keeps the length of the measurement and
    leaves every sample before the first rising edge as it was. *)
Lemma pass2_run (currentRef freq processedMeas : list float) :
  3 <= size currentRef ->
  size freq = size currentRef -> size processedMeas = size currentRef ->
  exists out,
    pass2 currentRef freq (size currentRef) processedMeas = Some out
    /\ size out = size currentRef
    /\ forall k,
         (forall m, 1 <= m <= k -> m <= size currentRef - 2 ->
            risingEdge currentRef m = Some false) ->
         at_ out k = at_ processedMeas k.
Proof.
  intros HN Hf Hp. unfold pass2, pass2_from.
  destruct (while_loop_inv
    (fun st : Z * list float =>
       1 <= st.1 <= size currentRef /\ size st.2 = size currentRef
       /\ forall k,
            (forall m, 1 <= m <= k -> m <= size currentRef - 2 ->
               risingEdge currentRef m = Some false) ->
            at_ st.2 k = at_ processedMeas k)
    (fun st => size currentRef - st.1)
    (pass2_cond (size currentRef))
    (pass2_body currentRef freq (size currentRef))
    (budget (size currentRef)) (1, processedMeas))
    as ([i fm] & Hrun & (_ & Hs & Hkeep) & _).
  - simpl. auto with lia.
  - unfold budget. simpl. lia.
  - intros [i fm] (Hi & _). simpl in *. lia.
  - intros t _. unfold pass2_cond. eauto.
  - intros [i fm] (Hi & Hs & Hkeep) Hc. unfold pass2_cond in Hc.
    simpl in *. injection Hc as Hc. apply Z.ltb_lt in Hc.
    destruct (pass2_body_run currentRef freq fm i)
      as (i' & fm' & Hb & Hi' & Hs' & Hk'); [assumption | assumption | lia |].
    exists (i', fm'). split; [exact Hb|]. simpl.
    split; [|lia]. split; [lia|]. split; [exact Hs'|].
    intros k Hk. rewrite Hk'; [now apply Hkeep|].
    destruct (Z_lt_ge_dec k i) as [Hlt|Hge]; [now right|].
    left. apply Hk; lia.
  - rewrite Hrun. simpl in *. eauto.
Qed.

End SpurRuns.

Section SpurExtras.

(** X8.  On a measurement, a reference and a frequency axis of the same
    length, [removeSpurs] runs to completion (no vector is read or written
    out of range and no scan outlasts its budget) and returns a vector of
    that length. *)
Theorem removeSpurs_total (sourceMeas sourceRef freq : list float) :
  size sourceMeas = size sourceRef -> size freq = size sourceRef ->
  exists out,
    removeSpurs sourceMeas sourceRef freq = Some out
    /\ size out = size sourceMeas.
Proof.
  intros Hm Hf. unfold removeSpurs.
  destruct (size sourceRef <? 3) eqn:E; [eauto|]. apply Z.ltb_ge in E.
  unfold removeSpurs_pass1.
  destruct (spurFlags_total sourceRef) as (isSpur & -> & Hs). simpl.
  rewrite <- Hs.
  destruct (pass1_run isSpur freq sourceMeas) as (pm & -> & Hsp & _);
    [lia..|].
  simpl. rewrite Hs.
  destruct (pass2_run sourceRef freq pm) as (out & -> & Hso & _); [lia..|].
  exists out. split; [reflexivity | lia].
Qed.

(** The scenario of the specification runs to completion on seven
    samples. *)
Lemma removeSpurs_total_witness :
  exists out,
    removeSpurs Samples.scenarioMeas Samples.scenarioRef Samples.scenarioFreq
    = Some out
    /\ size out = size Samples.scenarioMeas.
Proof.
  apply (removeSpurs_total Samples.scenarioMeas Samples.scenarioRef
           Samples.scenarioFreq); reflexivity.
Defined.

(** X9.  Method 1 changes flagged samples only: a sample whose reference
    does not exceed the rolling median by more than the threshold (its
    flag is not set) is in the result of method 1 what it was in the
    source measurement. *)
Theorem pass1_keeps_unflagged (sourceMeas sourceRef freq : list float) :
  size sourceMeas = size sourceRef -> size freq = size sourceRef ->
  exists isSpur out,
    spurFlags sourceRef = Some isSpur
    /\ removeSpurs_pass1 sourceMeas sourceRef freq = Some out
    /\ size out = size sourceMeas
    /\ forall k, at_ isSpur k = Some false -> at_ out k = at_ sourceMeas k.
Proof.
  intros Hm Hf. unfold removeSpurs_pass1.
  destruct (spurFlags_total sourceRef) as (isSpur & Hflags & Hs).
  rewrite Hflags. simpl. rewrite <- Hs.
  destruct (pass1_run isSpur freq sourceMeas) as (pm & -> & Hsp & Hkeep);
    [lia..|].
  exists isSpur, pm. split; [reflexivity|]. split; [reflexivity|].
  split; [lia | exact Hkeep].
Qed.

(** In the scenario the five samples that are not flagged keep their
    values. *)
Lemma pass1_keeps_unflagged_witness :
  exists isSpur out,
    spurFlags Samples.scenarioRef = Some isSpur
    /\ removeSpurs_pass1 Samples.scenarioMeas Samples.scenarioRef
         Samples.scenarioFreq = Some out
    /\ size out = size Samples.scenarioMeas
    /\ forall k, at_ isSpur k = Some false ->
         at_ out k = at_ Samples.scenarioMeas k.
Proof.
  apply (pass1_keeps_unflagged Samples.scenarioMeas Samples.scenarioRef
           Samples.scenarioFreq); reflexivity.
Defined.

(** X10.  Method 2 leaves every sample before the first rising edge of
    the reference as method 1 left it: index [k] is untouched when no
    index from 1 to [k] (and at most [n - 2], the last index the scan
    visits) is a rising edge.  In particular it never changes the first
    sample. *)
Theorem pass2_keeps_before_first_edge
    (currentRef freq processedMeas : list float) :
  3 <= size currentRef ->
  size freq = size currentRef -> size processedMeas = size currentRef ->
  exists out,
    pass2 currentRef freq (size currentRef) processedMeas = Some out
    /\ at_ out 0 = at_ processedMeas 0
    /\ forall k,
         (forall m, 1 <= m <= k -> m <= size currentRef - 2 ->
            risingEdge currentRef m = Some false) ->
         at_ out k = at_ processedMeas k.
Proof.
  intros HN Hf Hp.
  destruct (pass2_run currentRef freq processedMeas HN Hf Hp)
    as (out & Hrun & _ & Hkeep).
  exists out. split; [exact Hrun|]. split; [|exact Hkeep].
  apply Hkeep. intros; lia.
Qed.

(** The reference that rises at index 2: samples 0 and 1 are kept. *)
Lemma pass2_keeps_before_first_edge_witness :
  exists out,
    pass2 Samples.riseRef Samples.riseFreq (size Samples.riseRef)
      Samples.riseMeas = Some out
    /\ at_ out 0 = at_ Samples.riseMeas 0
    /\ at_ out 1 = at_ Samples.riseMeas 1.
Proof.
  destruct (pass2_keeps_before_first_edge Samples.riseRef Samples.riseFreq
              Samples.riseMeas) as (out & Hrun & H0 & Hkeep);
    [discriminate | reflexivity | reflexivity |].
  exists out. split; [exact Hrun|]. split; [exact H0|].
  apply Hkeep. intros m Hm _. assert (m = 1) as -> by lia. reflexivity.
Defined.

(** X11.  A reference made of NaN only never flags a spur and never
    shows an edge: [removeSpurs] returns the measurement unchanged,
    whatever the lengths of the vectors. *)
Theorem removeSpurs_nan_reference (sourceMeas sourceRef freq : list float) :
  (forall i r, at_ sourceRef i = Some r -> isnan r = true) ->
  removeSpurs sourceMeas sourceRef freq = Some sourceMeas.
Proof.
  intros Hnan. unfold removeSpurs.
  destruct (size sourceRef <? 3) eqn:E; [reflexivity|]. apply Z.ltb_ge in E.
  assert (H1 : removeSpurs_pass1 sourceMeas sourceRef freq = Some sourceMeas).
  { unfold removeSpurs_pass1, spurFlags, rollingMedian.
    destruct (medianFilter_total sourceRef DEFAULT_SPUR_WINDOW_SIZE)
      as (baseline & -> & Hs). simpl.
    assert (Hmark : markSpurs sourceRef baseline (size sourceRef)
                    = Some (filled (size sourceRef) false)).
    { unfold markSpurs.
      loop_inv (fun (_ : Z) v => v = filled (size sourceRef) false)
        as (r & Hr & ->); [lia | reflexivity | | exact Hr].
      intros k v Hk ->.
      destruct (at_is_Some sourceRef k) as [x Hx]; [lia|].
      unfold aboveBaseline, andThen. rewrite Hx. simpl.
      rewrite (Hnan k x Hx). simpl. eauto. }
    rewrite Hmark. simpl. apply pass1_no_flags. lia. }
  rewrite H1. simpl. apply pass2_no_edge; [exact E|].
  intros i Hi. destruct (at_is_Some sourceRef i) as [a Ha]; [lia|].
  unfold risingEdge, andThen. rewrite Ha. simpl.
  now rewrite (Hnan i a Ha).
Qed.

(** Four samples with a NaN reference. *)
Lemma removeSpurs_nan_reference_witness :
  removeSpurs [-90; -60; -91; -92]%float [nan; nan; nan; nan]
    [1; 2; 3; 4]%float
  = Some [-90; -60; -91; -92]%float.
Proof.
  apply (removeSpurs_nan_reference [-90; -60; -91; -92]%float
           [nan; nan; nan; nan] [1; 2; 3; 4]%float).
  intros i r Hr.
  apply (forall_at_zip (fun r _ => isnan r) [nan; nan; nan; nan]
           [nan; nan; nan; nan] eq_refl i r r Hr Hr).
Defined.

End SpurExtras.

Import Filtering Loader Sliders Crosshair.

(** ** Datasets through filtering and spur removal *)

Section DatasetFacts.

Lemma mapM_run {A B} (f : A -> option B) (R : A -> B -> Prop)
    (l : list A) :
  (forall x, x ∈ l -> exists y, f x = Some y /\ R x y) ->
  exists k, mapM f l = Some k /\ Forall2 R l k.
Proof.
  induction l as [|x l IH]; intros H.
  - exists []. split; [reflexivity | constructor].
  - destruct (H x) as (y & Hy & Rxy); [left|].
    destruct IH as (k & Hk & Rk).
    { intros x' Hx'. apply H. now right. }
    exists (y :: k). split; [|now constructor].
    simpl. rewrite Hy. simpl. rewrite Hk. reflexivity.
Qed.

Lemma sameRaw_refl (data : PlotData) : sameRaw data data.
Proof. repeat split. Qed.

Lemma sameRaw_trans (a b c : PlotData) :
  sameRaw a b -> sameRaw b c -> sameRaw a c.
Proof.
  intros (H1 & H2 & H3 & H4 & H5) (K1 & K2 & K3 & K4 & K5).
  repeat split; congruence.
Qed.

Lemma Forall2_sameRaw_trans (a b c : list PlotData) :
  Forall2 sameRaw a b -> Forall2 sameRaw b c -> Forall2 sameRaw a c.
Proof.
  intros Hab. revert c.
  induction Hab as [|x y a b Hxy Hab IH]; intros c Hbc.
  - inversion Hbc. constructor.
  - inversion Hbc as [|y' z b' c' Hyz Hbc']; subst.
    constructor; [exact (sameRaw_trans _ _ _ Hxy Hyz) | now apply IH].
Qed.

Lemma sameLength_keepSource (m_filteringEnabled : bool) (data : PlotData) :
  sameLength data -> sameLength (keepSource m_filteringEnabled data).
Proof.
  intros (H1 & H2 & H3 & H4). unfold keepSource.
  destruct m_filteringEnabled; repeat split; simpl; assumption.
Qed.

Lemma sameRaw_keepSource (m_filteringEnabled : bool) (data : PlotData) :
  sameRaw data (keepSource m_filteringEnabled data).
Proof. unfold keepSource. destruct m_filteringEnabled; repeat split. Qed.

Lemma movingAverage_length (data : list float) (windowSize : Z) :
  exists out, movingAverage data windowSize = Some out
              /\ size out = size data.
Proof.
  destruct (movingAverage_run data windowSize)
    as [[_ Ha]|(_ & _ & a & Ha & Hsa & _)]; eauto.
Qed.

Lemma savitzkyGolay_length (data : list float) (windowSize polyOrder : Z) :
  exists out, savitzkyGolay data windowSize polyOrder = Some out
              /\ size out = size data.
Proof.
  destruct (savitzkyGolay_run data windowSize polyOrder)
    as [[_ Hc]|(_ & _ & c0 & n0 & u0 & c & _ & _ & _ & Hc & Hsc & _)];
    eauto.
Qed.

(** A filter that keeps the length, applied to a dataset. *)
Lemma filterVectors_run (filter : list float -> option (list float))
    (data : PlotData) :
  (forall v, exists out, filter v = Some out /\ size out = size v) ->
  exists data',
    filterVectors filter data = Some data'
    /\ sameRaw data data'
    /\ (sameLength data -> sameLength data').
Proof.
  intros Hf. unfold filterVectors.
  destruct (Hf (phaseNoise data)) as (m & -> & Hm). simpl.
  destruct (hasReferenceData data) eqn:Href.
  - destruct (Hf (referenceNoise data)) as (r & -> & Hr). simpl.
    eexists. split; [reflexivity|]. split; [now repeat split|].
    intros (H1 & H2 & H3 & H4). repeat split; simpl; congruence.
  - eexists. split; [reflexivity|]. split; [now repeat split|].
    intros (H1 & H2 & H3 & H4). repeat split; simpl; congruence.
Qed.

Lemma applyDataFiltering_dataset_run (filterType : string) (window : Z)
    (data : PlotData) :
  exists data',
    applyDataFiltering_dataset filterType window data = Some data'
    /\ sameRaw data data'
    /\ (sameLength data -> sameLength data').
Proof.
  unfold applyDataFiltering_dataset.
  destruct (isEmpty (frequencyOffset data)).
  { exists data. split; [reflexivity|]. split; [apply sameRaw_refl | auto]. }
  destruct (String.eqb filterType "Moving Average").
  { apply filterVectors_run. intros v. apply movingAverage_length. }
  destruct (String.eqb filterType "Median Filter").
  { apply filterVectors_run. intros v. apply medianFilter_total. }
  destruct (String.eqb filterType "Savitzky-Golay").
  { apply filterVectors_run. intros v. apply savitzkyGolay_length. }
  eexists. split; [reflexivity|]. split; [now repeat split|].
  intros (H1 & H2 & H3 & H4). repeat split; simpl; congruence.
Qed.

Lemma applyDataFiltering_run (m_filteringEnabled : bool)
    (filterType : string) (window : Z) (m_datasets : list PlotData) :
  exists datasets',
    applyDataFiltering m_filteringEnabled filterType window m_datasets
    = Some datasets'
    /\ Forall2 (fun data data' =>
                  sameRaw data data'
                  /\ (sameLength data -> sameLength data'))
         m_datasets datasets'.
Proof.
  unfold applyDataFiltering.
  destruct (negb m_filteringEnabled || isEmpty m_datasets).
  - exists m_datasets. split; [reflexivity|].
    apply Forall2_same_length_lookup_2; [reflexivity|].
    intros i x y Hx Hy. assert (x = y) as -> by congruence.
    split; [apply sameRaw_refl | auto].
  - apply mapM_run. intros data _.
    apply applyDataFiltering_dataset_run.
Qed.

Lemma applySpurRemoval_dataset_run (m_filteringEnabled : bool)
    (data : PlotData) :
  sameLength data ->
  exists data',
    applySpurRemoval_dataset m_filteringEnabled data = Some data'
    /\ sameRaw data data' /\ sameLength data'.
Proof.
  intros Hlen. unfold applySpurRemoval_dataset.
  destruct (negb (hasReferenceData data) || isEmpty (frequencyOffset data)).
  { eexists. split; [reflexivity|].
    split; [apply sameRaw_keepSource | now apply sameLength_keepSource]. }
  destruct Hlen as (H1 & H2 & H3 & H4). cbv zeta.
  destruct (removeSpurs_total (sourceMeasOf m_filteringEnabled data)
              (sourceRefOf m_filteringEnabled data) (frequencyOffset data))
    as (out & -> & Hout).
  { unfold sourceMeasOf, sourceRefOf. destruct m_filteringEnabled; lia. }
  { unfold sourceRefOf. destruct m_filteringEnabled; lia. }
  simpl.
  assert (Hs : size out = size (frequencyOffset data)).
  { rewrite Hout. unfold sourceMeasOf. destruct m_filteringEnabled; lia. }
  destruct (size (sourceRefOf m_filteringEnabled data) <? 3);
    [|destruct m_filteringEnabled];
    (eexists; split; [reflexivity|]; split; [now repeat split|];
     repeat split; simpl; congruence).
Qed.

Lemma applySpurRemoval_run (m_filteringEnabled m_spurRemovalEnabled : bool)
    (m_datasets : list PlotData) :
  Forall sameLength m_datasets ->
  exists datasets',
    applySpurRemoval m_filteringEnabled m_spurRemovalEnabled m_datasets
    = Some datasets'
    /\ Forall2 (fun data data' => sameRaw data data' /\ sameLength data')
         m_datasets datasets'.
Proof.
  intros Hall. unfold applySpurRemoval.
  destruct (negb m_spurRemovalEnabled).
  - eexists. split; [reflexivity|].
    apply Forall2_fmap_r, Forall2_same_length_lookup_2; [reflexivity|].
    intros i x y Hx Hy. assert (x = y) as -> by congruence.
    split; [apply sameRaw_keepSource|].
    apply sameLength_keepSource.
    rewrite Forall_lookup in Hall. exact (Hall i y Hy).
  - apply mapM_run. intros data Hin.
    apply applySpurRemoval_dataset_run.
    rewrite Forall_forall in Hall. now apply Hall.
Qed.

End DatasetFacts.

(** ** The rows of a file *)

Section LoaderFacts.
Variable trimmed : string -> string.
Variable split : string -> list string.
Variable toDouble : string -> float * bool.

Lemma checkFirstLine_inv (fields : list string) (st : Load) :
  rowsInvariant st ->
  rowsInvariant (checkFirstLine fields st)
  /\ firstLineCheck (checkFirstLine fields st) = false.
Proof.
  intros Hinv. unfold checkFirstLine.
  destruct (firstLineCheck st) eqn:E; [|auto].
  destruct Hinv as (H1 & H2 & H3 & H4 & H5 & H6 & H7 & H8).
  destruct (H6 E) as [Hempty Href].
  split; [|reflexivity]. unfold rowsInvariant. simpl.
  repeat split; try assumption; try discriminate.
  intros _. apply H8, Href.
Qed.

Lemma appendRow_inv (freq noise ref : float) (st : Load) :
  rowsInvariant st -> firstLineCheck st = false ->
  (0 <? freq)%float = true ->
  (currentHasReference st = false -> isnan ref = true) ->
  rowsInvariant (set_newDataset (appendRow freq noise ref (newDataset st)) st).
Proof.
  intros (H1 & H2 & H3 & H4 & H5 & H6 & H7 & H8) Hfirst Hpos Hnan.
  unfold rowsInvariant. simpl. rewrite !length_app. simpl.
  repeat split; try assumption; try lia; try congruence.
  - apply Forall_app. split; [assumption|]. now repeat constructor.
  - intros Href. apply Forall_app. split; [now apply H8|].
    repeat constructor. apply Hnan. rewrite <- (H7 Hfirst). exact Href.
Qed.

Lemma loadData_line_inv (st : Load) (rawLine : string) :
  rowsInvariant st ->
  exists st', loadData_line trimmed split toDouble st rawLine = Some st'
              /\ rowsInvariant st'.
Proof.
  intros Hinv. unfold loadData_line. cbv zeta.
  destruct (isEmptyString (trimmed rawLine)
            || startsWith "#" (trimmed rawLine)
            || startsWith ";" (trimmed rawLine)); [eauto|].
  set (fields := split (trimmed rawLine)).
  destruct (checkFirstLine_inv fields st Hinv) as [Hinv' Hfirst].
  set (st1 := checkFirstLine fields st) in *.
  destruct (size fields <? 2) eqn:E2; [eauto|]. apply Z.ltb_ge in E2.
  destruct (at_is_Some fields 0) as [field0 ->]; [lia|].
  destruct (at_is_Some fields 1) as [field1 ->]; [lia|].
  simpl.
  destruct (toDouble field0) as [freq okFreq].
  destruct (toDouble field1) as [noise okNoise].
  assert (Href : exists ref okRef,
    (if currentHasReference st1 && (3 <=? size fields)
     then field2 ← at_ fields 2; Some (toDouble field2)
     else Some (quiet_NaN, true)) = Some (ref, okRef)).
  { destruct (currentHasReference st1 && (3 <=? size fields)) eqn:E3.
    - apply andb_true_iff in E3 as [_ E3]. apply Z.leb_le in E3.
      destruct (at_is_Some fields 2) as [field2 ->]; [lia|]. simpl.
      destruct (toDouble field2); eauto.
    - eauto. }
  destruct Href as (ref & okRef & ->). simpl.
  destruct (negb okFreq || negb okNoise || negb okRef); [eauto|].
  unfold gtb. destruct (0 <? freq)%float eqn:Epos; [|eauto].
  destruct (currentHasReference st1) eqn:Ecur.
  - eexists. split; [reflexivity|].
    apply appendRow_inv; [assumption..|]. congruence.
  - eexists. split; [reflexivity|].
    apply appendRow_inv; [assumption..|]. reflexivity.
Qed.

Lemma for_each_inv {A S} (P : S -> Prop) (body : S -> A -> option S)
    (l : list A) (s : S) :
  P s ->
  (forall s x, P s -> exists s', body s x = Some s' /\ P s') ->
  exists s', for_each body l s = Some s' /\ P s'.
Proof.
  intros Hs Hbody. revert s Hs.
  induction l as [|x l IH]; intros s Hs; simpl; [eauto|].
  destruct (Hbody s x Hs) as (s' & -> & Hs'). simpl. now apply IH.
Qed.

Lemma loadData_rows_inv (lines : list string) (plotReferenceDefault : bool) :
  exists st,
    loadData_rows trimmed split toDouble lines plotReferenceDefault = Some st
    /\ rowsInvariant st.
Proof.
  unfold loadData_rows. apply for_each_inv.
  - unfold rowsInvariant. simpl. repeat split; auto; discriminate.
  - intros s x Hs. now apply loadData_line_inv.
Qed.

End LoaderFacts.

Lemma loaded_sameLength (data : PlotData) : loaded data -> sameLength data.
Proof.
  intros (_ & H1 & H2 & H3 & H4 & _). unfold sameLength.
  rewrite H3, H4. auto.
Qed.

(** ** The data path from the file to the plot *)

Section DatasetExtras.

(** X12.  Whatever the lines of the file and whatever the string
    functions return, [loadData] reads no field that does not exist and
    either leaves [m_datasets] as it is or appends one dataset that is not
    empty, whose three raw vectors have the same length, whose filtered
    vectors are copies of the raw ones, whose frequencies are all greater
    than zero (so none is NaN), and whose reference is NaN throughout
    when the file has no reference column. *)
Theorem loadData_appends_loaded_dataset
    (trimmed : string -> string) (split : string -> list string)
    (toDouble : string -> float * bool)
    (lines : list string) (plotReferenceDefault : bool)
    (m_datasets : list PlotData) :
  exists datasets',
    loadData trimmed split toDouble lines plotReferenceDefault m_datasets
    = Some datasets'
    /\ (datasets' = m_datasets
        \/ exists data, datasets' = m_datasets ++ [data] /\ loaded data).
Proof.
  unfold loadData.
  destruct (loadData_rows_inv trimmed split toDouble lines
              plotReferenceDefault)
    as (st & -> & H1 & H2 & H3 & H4 & H5 & H6 & H7 & H8).
  simpl.
  destruct (isEmpty (frequencyOffset (newDataset st))) eqn:E; [eauto|].
  eexists. split; [reflexivity|]. right. eexists. split; [reflexivity|].
  unfold loaded, size. simpl. repeat split; try congruence.
  - intros Hnil. now rewrite Hnil in E.
  - intros i f Hf. apply at_Some_lookup in Hf.
    rewrite Forall_lookup in H5. exact (H5 _ _ Hf).
  - intros Href i r Hr. apply at_Some_lookup in Hr.
    specialize (H8 Href). rewrite Forall_lookup in H8. exact (H8 _ _ Hr).
Qed.


(** X14.  On datasets whose five vectors have one length each,
    [applySpurRemoval] runs to completion in every combination of the two
    switches, leaves the raw vectors and flags alone, and returns datasets
    whose five vectors still have one length. *)
Theorem applySpurRemoval_same_length
    (m_filteringEnabled m_spurRemovalEnabled : bool)
    (m_datasets : list PlotData) :
  Forall sameLength m_datasets ->
  exists datasets',
    applySpurRemoval m_filteringEnabled m_spurRemovalEnabled m_datasets
    = Some datasets'
    /\ Forall2 sameRaw m_datasets datasets'
    /\ Forall sameLength datasets'.
Proof.
  intros Hall.
  destruct (applySpurRemoval_run m_filteringEnabled m_spurRemovalEnabled
              m_datasets Hall) as (datasets' & Hrun & H2).
  exists datasets'. split; [exact Hrun|]. split.
  - eapply Forall2_impl; [exact H2|]. now intros x y [H _].
  - eapply Forall2_Forall_r; [exact H2|].
    apply Forall_forall. now intros x _ y [_ H].
Qed.

(** The scenario dataset, spur removal on, filtering off. *)
Lemma applySpurRemoval_same_length_witness :
  exists datasets',
    applySpurRemoval false true [Datasets.scenario] = Some datasets'
    /\ Forall2 sameRaw [Datasets.scenario] datasets'
    /\ Forall sameLength datasets'.
Proof.
  apply (applySpurRemoval_same_length false true [Datasets.scenario]).
  repeat constructor.
Defined.

(** X15.  Filtering followed by the spur removal of [updatePlot]: on
    datasets whose five vectors have one length each (as [loadData] builds
    them), for every filter name, window and combination of the two
    switches the two steps run to completion, the raw vectors are
    untouched, and the vectors [updatePlot] plots against the frequencies
    (measured and reference) have exactly one value per frequency. *)
Theorem filtering_then_spur_removal_plottable
    (m_filteringEnabled m_spurRemovalEnabled : bool)
    (filterType : string) (window : Z) (m_datasets : list PlotData) :
  Forall sameLength m_datasets ->
  exists datasets',
    applyDataFiltering_updatePlot m_filteringEnabled m_spurRemovalEnabled
      filterType window m_datasets = Some datasets'
    /\ Forall2 sameRaw m_datasets datasets'
    /\ Forall (fun data =>
                 size (noiseData m_filteringEnabled m_spurRemovalEnabled data)
                 = size (frequencyOffset data)
                 /\ size (refData m_filteringEnabled data)
                    = size (frequencyOffset data))
         datasets'.
Proof.
  intros Hall. unfold applyDataFiltering_updatePlot.
  destruct (applyDataFiltering_run m_filteringEnabled filterType window
              m_datasets) as (filtered & -> & H1).
  simpl.
  assert (Hlen : Forall sameLength filtered).
  { eapply Forall2_Forall_r; [exact H1|].
    eapply Forall_impl; [exact Hall|]. intros x Hx y [_ H]. now apply H. }
  destruct (applySpurRemoval_run m_filteringEnabled m_spurRemovalEnabled
              filtered Hlen) as (datasets' & -> & H2).
  exists datasets'. split; [reflexivity|]. split.
  - apply (Forall2_sameRaw_trans _ filtered).
    + eapply Forall2_impl; [exact H1|]. now intros x y [H _].
    + eapply Forall2_impl; [exact H2|]. now intros x y [H _].
  - eapply Forall2_Forall_r; [exact H2|].
    apply Forall_forall. intros x _ y [_ (K1 & K2 & K3 & K4)].
    unfold noiseData, refData.
    destruct m_spurRemovalEnabled, m_filteringEnabled; auto.
Qed.

(** The scenario dataset through the median filter of window 3 and the
    spur removal. *)
Lemma filtering_then_spur_removal_plottable_witness :
  exists datasets',
    applyDataFiltering_updatePlot true true "Median Filter" 3
      [Datasets.scenario] = Some datasets'
    /\ Forall2 sameRaw [Datasets.scenario] datasets'
    /\ Forall (fun data =>
                 size (noiseData true true data)
                 = size (frequencyOffset data)
                 /\ size (refData true data) = size (frequencyOffset data))
         datasets'.
Proof.
  apply (filtering_then_spur_removal_plottable true true "Median Filter" 3
           [Datasets.scenario]).
  repeat constructor.
Defined.

End DatasetExtras.

(** ** The slider indices *)

Section SliderFacts.

Lemma shiftr_1_half (len : Z) :
  0 < len -> 0 <= Z.shiftr len 1 < len.
Proof.
  intros H. rewrite Z.shiftr_div_pow2 by lia. change (2 ^ 1) with 2.
  split; [apply Z.div_pos; lia | apply Z.div_lt; lia].
Qed.

(** The bisection ends inside the vector, whatever the vector holds. *)
Lemma lower_bound_run (v : list float) (value : float) :
  exists idx, lower_bound v value = Some idx /\ 0 <= idx <= size v.
Proof.
  unfold lower_bound.
  destruct (while_loop_inv
    (fun st : Z * Z => 0 <= st.1 /\ 0 <= st.2 /\ st.1 + st.2 <= size v)
    (fun st => st.2) (fun st => Some (0 <? st.2))
    (lower_bound_step v value) (budget (size v)) (0, size v))
    as ([first len] & -> & (H1 & H2 & H3) & _).
  - simpl. pose proof (size_nonneg v). lia.
  - unfold budget. simpl. pose proof (size_nonneg v). lia.
  - intros [first len] (_ & H & _). exact H.
  - intros t _. eauto.
  - intros [first len] (H1 & H2 & H3) [= Hc]. simpl in *.
    apply Z.ltb_lt in Hc. pose proof (shiftr_1_half len Hc) as Hh.
    unfold lower_bound_step.
    destruct (at_is_Some v (first + Z.shiftr len 1)) as [x ->]; [lia|].
    simpl. destruct (x <? value)%float.
    + eexists. split; [reflexivity|]. simpl. lia.
    + eexists. split; [reflexivity|]. simpl. lia.
  - simpl in *. exists first. split; [reflexivity | lia].
Qed.

(** In a vector sorted in ascending order, everything before an element
    below [value] is below [value]. *)
Lemma sorted_below (v : list float) (value : float) :
  (forall i a b, 1 <= i -> at_ v i = Some a -> at_ v (i - 1) = Some b ->
     (b <=? a)%float = true) ->
  forall (d : nat) (i j : Z) (a b : float),
    i + Z.of_nat d = j ->
    at_ v j = Some a -> (a <? value)%float = true ->
    at_ v i = Some b -> (b <? value)%float = true.
Proof.
  intros Hsorted d. induction d as [|d IH]; intros i j a b Hij Ha Hlt Hb.
  - assert (i = j) as -> by lia. congruence.
  - pose proof (at_Some_range _ _ _ Ha) as Rj.
    pose proof (at_Some_range _ _ _ Hb) as Ri.
    destruct (at_is_Some v (i + 1)) as [c Hc]; [lia|].
    assert (Hc' : (c <? value)%float = true).
    { apply (IH (i + 1) j a c); [lia | assumption..]. }
    apply (leb_ltb_trans b c value); [|exact Hc'].
    apply (Hsorted (i + 1) c b); [lia | exact Hc|].
    now replace (i + 1 - 1) with i by lia.
Qed.

Lemma lower_bound_sorted (v : list float) (value : float) :
  (forall i a b, 1 <= i -> at_ v i = Some a -> at_ v (i - 1) = Some b ->
     (b <=? a)%float = true) ->
  forall idx, lower_bound v value = Some idx ->
  forall k a, at_ v k = Some a -> (a <? value)%float = (k <? idx).
Proof.
  intros Hsorted idx Hrun. unfold lower_bound in Hrun.
  destruct (while_loop _ _ _ _) as [[first len]|] eqn:Hloop;
    [|discriminate]. injection Hrun as <-. simpl.
  apply (while_loop_partial
    (fun st : Z * Z =>
       0 <= st.1 /\ 0 <= st.2 /\ st.1 + st.2 <= size v
       /\ (forall k a, at_ v k = Some a -> k < st.1 ->
             (a <? value)%float = true)
       /\ (forall k a, at_ v k = Some a -> st.1 + st.2 <= k ->
             (a <? value)%float = false))) in Hloop.
  - destruct Hloop as [(H1 & H2 & H3 & Hlo & Hhi) [= Hc]]. simpl in *.
    apply Z.ltb_ge in Hc. assert (len = 0) as -> by lia.
    intros k a Ha. destruct (k <? first) eqn:E.
    + apply Z.ltb_lt in E. now apply (Hlo k).
    + apply Z.ltb_ge in E. apply (Hhi k); [assumption | lia].
  - simpl. pose proof (size_nonneg v).
    repeat split; try lia.
    + intros k a Ha Hk. apply at_Some_range in Ha. lia.
    + intros k a Ha Hk. apply at_Some_range in Ha. lia.
  - intros [f l] [f' l'] (H1 & H2 & H3 & Hlo & Hhi) [= Hc] Hstep.
    simpl in *. apply Z.ltb_lt in Hc.
    pose proof (shiftr_1_half l Hc) as Hh.
    unfold lower_bound_step in Hstep.
    destruct (at_ v (f + Z.shiftr l 1)) as [x|] eqn:Hx; [|discriminate].
    simpl in Hstep. destruct (x <? value)%float eqn:Ex;
      injection Hstep as <- <-; simpl.
    + repeat split; try lia; [|intros k a Ha Hk; apply (Hhi k a Ha); lia].
      intros k a Ha Hk.
      apply (sorted_below v value Hsorted
               (Z.to_nat (f + Z.shiftr l 1 - k)) k (f + Z.shiftr l 1) x a);
        [lia | assumption..].
    + repeat split; try lia; [exact Hlo|].
      intros k a Ha Hk.
      destruct (a <? value)%float eqn:Ea; [|reflexivity].
      rewrite <- Ex. symmetry.
      apply (sorted_below v value Hsorted
               (Z.to_nat (k - (f + Z.shiftr l 1))) (f + Z.shiftr l 1) k a x);
        [lia | assumption..].
Qed.

Lemma FREQ_POINTS_sorted (i : Z) (a b : float) :
  1 <= i -> at_ FREQ_POINTS i = Some a -> at_ FREQ_POINTS (i - 1) = Some b ->
  (b <=? a)%float = true.
Proof.
  apply (forall_at_consecutive (fun a b => (b <=? a)%float) FREQ_POINTS).
  reflexivity.
Qed.

Lemma findClosestFreqStepIndex_run (freq : float) :
  exists idx lb,
    findClosestFreqStepIndex freq = Some idx
    /\ lower_bound FREQ_POINTS freq = Some lb
    /\ 0 <= idx < size FREQ_POINTS
    /\ lb - 1 <= idx <= lb.
Proof.
  unfold findClosestFreqStepIndex.
  change (isEmpty FREQ_POINTS) with false. cbv iota.
  destruct (lower_bound_run FREQ_POINTS freq) as (lb & Hlb & Hr).
  rewrite Hlb. simpl.
  change (size FREQ_POINTS) with 9 in *.
  destruct (lb =? 0) eqn:E0.
  { apply Z.eqb_eq in E0. exists 0, lb. repeat split; try lia; auto. }
  apply Z.eqb_neq in E0.
  destruct (lb =? 9) eqn:E9.
  { apply Z.eqb_eq in E9. exists 8, lb. repeat split; try lia; auto. }
  apply Z.eqb_neq in E9.
  destruct (at_is_Some FREQ_POINTS lb) as [upper ->].
  { change (size FREQ_POINTS) with 9. lia. }
  destruct (at_is_Some FREQ_POINTS (lb - 1)) as [lower ->].
  { change (size FREQ_POINTS) with 9. lia. }
  simpl. destruct (qFabs (upper - freq) <? qFabs (lower - freq))%float.
  - exists lb, lb. repeat split; try lia; auto.
  - exists (lb - 1), lb. repeat split; try lia; auto.
Qed.

Lemma min_element_is_Some (v : list float) :
  v <> [] -> is_Some (min_element v).
Proof. destruct v; [congruence | simpl; eauto]. Qed.

Lemma max_element_is_Some (v : list float) :
  v <> [] -> is_Some (max_element v).
Proof. destruct v; [congruence | simpl; eauto]. Qed.

End SliderFacts.

Section SliderExtras.

(** X16.  On a vector sorted in ascending order (each element at most
    its successor, so none is NaN) the bisection of [std::lower_bound]
    ends and returns the partition point: exactly the elements at
    indices below the result are less than the value searched. *)
Theorem lower_bound_partition_point (v : list float) (value : float) :
  (forall i a b, 1 <= i -> at_ v i = Some a -> at_ v (i - 1) = Some b ->
     (b <=? a)%float = true) ->
  exists idx,
    lower_bound v value = Some idx
    /\ 0 <= idx <= size v
    /\ forall k a, at_ v k = Some a -> (a <? value)%float = (k <? idx).
Proof.
  intros Hsorted.
  destruct (lower_bound_run v value) as (idx & Hrun & Hr).
  exists idx. split; [exact Hrun|]. split; [exact Hr|].
  exact (lower_bound_sorted v value Hsorted idx Hrun).
Qed.

(** The table of slider steps, searched for 50 Hz. *)
Lemma lower_bound_partition_point_witness :
  exists idx,
    lower_bound FREQ_POINTS 50 = Some idx
    /\ 0 <= idx <= size FREQ_POINTS
    /\ forall k a, at_ FREQ_POINTS k = Some a -> (a <? 50)%float = (k <? idx).
Proof.
  apply (lower_bound_partition_point FREQ_POINTS 50).
  apply (forall_at_consecutive (fun a b => (b <=? a)%float) FREQ_POINTS).
  reflexivity.
Defined.

(** X17.  For every double, NaN and the infinities included,
    [findClosestFreqStepIndex] returns a valid index of [FREQ_POINTS],
    and the step it returns brackets the frequency: every step to its
    left is less than the frequency and no step to its right is. *)
Theorem findClosestFreqStepIndex_brackets (freq : float) :
  exists idx,
    findClosestFreqStepIndex freq = Some idx
    /\ 0 <= idx < size FREQ_POINTS
    /\ forall k a, at_ FREQ_POINTS k = Some a ->
         (k < idx -> (a <? freq)%float = true)
         /\ (idx < k -> (a <? freq)%float = false).
Proof.
  destruct (findClosestFreqStepIndex_run freq)
    as (idx & lb & Hrun & Hlb & Hr & Hnear).
  exists idx. split; [exact Hrun|]. split; [exact Hr|].
  intros k a Ha.
  rewrite (lower_bound_sorted FREQ_POINTS freq FREQ_POINTS_sorted lb Hlb k a Ha).
  split; intros Hk; [apply Z.ltb_lt | apply Z.ltb_ge]; lia.
Qed.

(** X18.  Every slider step is its own closest step: on the frequency
    stored at index [i] of [FREQ_POINTS], [findClosestFreqStepIndex]
    returns [i]. *)
Theorem findClosestFreqStepIndex_fixes_steps (i : Z) (f : float) :
  at_ FREQ_POINTS i = Some f -> findClosestFreqStepIndex f = Some i.
Proof.
  intros Hf. pose proof (at_Some_range _ _ _ Hf) as Hi.
  change (size FREQ_POINTS) with 9 in Hi.
  assert (Hcases : i = 0 \/ i = 1 \/ i = 2 \/ i = 3 \/ i = 4 \/ i = 5
                   \/ i = 6 \/ i = 7 \/ i = 8) by lia.
  repeat (destruct Hcases as [->|Hcases]); try subst i;
    injection Hf as <-; vm_compute; reflexivity.
Qed.

(** The step of 100 Hz. *)
Lemma findClosestFreqStepIndex_fixes_steps_witness :
  findClosestFreqStepIndex 100 = Some 3.
Proof.
  apply (findClosestFreqStepIndex_fixes_steps 3 100). reflexivity.
Defined.

(** X19.  The two slider indices [loadData] derives from the frequencies
    of the first dataset are valid indices of [FREQ_POINTS] with the
    minimum not above the maximum, whatever the frequencies are. *)
Theorem loadData_sliders_ordered (frequencyOffset : list float) :
  frequencyOffset <> [] ->
  exists r, loadData_sliders frequencyOffset = Some r /\ ordered r.
Proof.
  intros Hne. unfold loadData_sliders.
  destruct (min_element_is_Some _ Hne) as [minFreqData ->].
  destruct (max_element_is_Some _ Hne) as [maxFreqData ->].
  simpl.
  repeat match goal with
  | |- context [findClosestFreqStepIndex ?a] =>
      let idx := fresh "idx" in
      let H := fresh "Hidx" in
      destruct (findClosestFreqStepIndex_run a)
        as (idx & ? & -> & _ & H & _);
      simpl
  end.
  unfold ordered. change (size FREQ_POINTS) with 9 in *.
  repeat match goal with
  | |- context [?a <? ?b] => destruct (Z.ltb_spec a b)
  end;
    first [ exfalso; lia
          | eexists; split; [reflexivity|]; simpl; lia ].
Qed.

(** The frequencies of the scenario. *)
Lemma loadData_sliders_ordered_witness :
  exists r, loadData_sliders Samples.scenarioFreq = Some r /\ ordered r.
Proof.
  apply (loadData_sliders_ordered Samples.scenarioFreq). discriminate.
Defined.

(** X20.  The two slider handlers keep the indices valid and ordered:
    from indices with the minimum not above the maximum, and for every
    value a slider of range [0 .. FREQ_POINTS.size() - 1] can report,
    both handlers leave indices that are valid with the minimum not above
    the maximum; the minimum ends strictly below the maximum unless the
    maximum is the first step (for the minimum slider) or the minimum is
    the last step (for the maximum slider). *)
Theorem slider_handlers_keep_order (value : Z) (r : Range) :
  ordered r -> 0 <= value <= size FREQ_POINTS - 1 ->
  ordered (onMinFreqSliderChanged value r)
  /\ ordered (onMaxFreqSliderChanged value r)
  /\ (0 < m_maxFreqSliderIndex r ->
      m_minFreqSliderIndex (onMinFreqSliderChanged value r)
      < m_maxFreqSliderIndex (onMinFreqSliderChanged value r))
  /\ (m_minFreqSliderIndex r < size FREQ_POINTS - 1 ->
      m_minFreqSliderIndex (onMaxFreqSliderChanged value r)
      < m_maxFreqSliderIndex (onMaxFreqSliderChanged value r)).
Proof.
  unfold ordered, onMinFreqSliderChanged, onMaxFreqSliderChanged,
    slider_setValue.
  change (size FREQ_POINTS) with 9.
  intros (H1 & H2 & H3) Hv.
  destruct (m_maxFreqSliderIndex r <=? value) eqn:E1;
    [apply Z.leb_le in E1 | apply Z.leb_gt in E1];
    (destruct (value <=? m_minFreqSliderIndex r) eqn:E2;
       [apply Z.leb_le in E2 | apply Z.leb_gt in E2]);
    simpl; lia.
Qed.

(** From the initial indices, the minimum slider moved to the last
    step. *)
Lemma slider_handlers_keep_order_witness :
  ordered (onMinFreqSliderChanged 8 initialRange)
  /\ ordered (onMaxFreqSliderChanged 8 initialRange)
  /\ m_minFreqSliderIndex (onMinFreqSliderChanged 8 initialRange) = 7.
Proof.
  destruct (slider_handlers_keep_order 8 initialRange) as (H1 & H2 & _).
  - unfold ordered. simpl. change (size FREQ_POINTS) with 9. lia.
  - change (size FREQ_POINTS) with 9. lia.
  - split; [exact H1|]. split; [exact H2|]. reflexivity.
Defined.

(** X21.  For every pair of valid slider indices, ordered or not,
    [updatePlot] gives the frequency axis a lower bound of at least 0.1 Hz
    and an upper bound strictly above the lower one: the range of the
    logarithmic axis is never empty and never reaches zero. *)
Theorem updatePlot_xRange_valid (r : Range) :
  0 <= m_minFreqSliderIndex r < size FREQ_POINTS ->
  0 <= m_maxFreqSliderIndex r < size FREQ_POINTS ->
  exists xMin xMax,
    updatePlot_xRange r = Some (xMin, xMax)
    /\ (X_AXIS_MIN <=? xMin)%float = true
    /\ (xMin <? xMax)%float = true.
Proof.
  destruct r as [mn mx]. simpl. change (size FREQ_POINTS) with 9.
  intros Hmn Hmx.
  assert (Cmn : mn = 0 \/ mn = 1 \/ mn = 2 \/ mn = 3 \/ mn = 4 \/ mn = 5
                \/ mn = 6 \/ mn = 7 \/ mn = 8) by lia.
  assert (Cmx : mx = 0 \/ mx = 1 \/ mx = 2 \/ mx = 3 \/ mx = 4 \/ mx = 5
                \/ mx = 6 \/ mx = 7 \/ mx = 8) by lia.
  repeat (destruct Cmn as [->|Cmn]); try subst mn;
    repeat (destruct Cmx as [->|Cmx]); try subst mx;
    (eexists; eexists; split; [lazy; reflexivity|];
     split; vm_compute; reflexivity).
Qed.

(** The initial indices: the axis runs from 0.1 Hz to 10 MHz. *)
Lemma updatePlot_xRange_valid_witness :
  exists xMin xMax,
    updatePlot_xRange initialRange = Some (xMin, xMax)
    /\ (X_AXIS_MIN <=? xMin)%float = true
    /\ (xMin <? xMax)%float = true.
Proof.
  apply (updatePlot_xRange_valid initialRange); simpl;
    change (size FREQ_POINTS) with 9; lia.
Defined.

End SliderExtras.

(** ** The spot noise table and the crosshair *)

Section ClosestFacts.
Variable qLn : float -> float.

Lemma spotNoise_entry_sample (data : list (float * float))
    (xMinView xMaxView : float) (info : FrequencyPointInfo) (f v : float) :
  spotNoise_entry qLn data xMinView xMaxView info = Some (f, v) ->
  (f, v) ∈ data
  /\ (value info <? xMinView)%float = false
  /\ gtb (value info) xMaxView = false
  /\ (qFabs (qLn f - qLn (value info)) <? qLn 5)%float = true.
Proof.
  unfold spotNoise_entry. cbv zeta.
  destruct (value info <? xMinView)%float; [discriminate|].
  destruct (gtb (value info) xMaxView); [discriminate|]. cbn [orb].
  pose proof (findClosest_first qLn (value info) data) as Hc.
  cbv zeta in Hc.
  destruct (found (findClosest qLn (value info) data)); [|discriminate].
  destruct Hc as (k & p & (Hk & _) & Hf & Hn & _).
  cbn [andb].
  destruct (qFabs (qLn (closestFreq (findClosest qLn (value info) data))
                   - qLn (value info)) <? qLn 5)%float eqn:E;
    [|discriminate].
  intros [= Hf' Hv']. rewrite Hf' in E.
  split; [|auto].
  apply list_elem_of_lookup. exists k. rewrite Hk.
  destruct p as [pf pv]. simpl in *. congruence.
Qed.

Lemma firstVisibleData_hidden (hidden rest : list PlotData) :
  Forall (fun data => isVisible data = false) hidden ->
  firstVisibleData (hidden ++ rest) = firstVisibleData rest.
Proof.
  intros H. induction H as [|d hidden Hd _ IH]; [reflexivity|].
  unfold firstVisibleData in *. simpl. now rewrite Hd.
Qed.

(** The crosshair's loop from any state: with a positive cursor
    frequency it is the spot-noise search over the samples of positive
    frequency, otherwise it changes nothing. *)
Lemma crosshair_fold (x : float) (data : list (float * float))
    (st : Closest) :
  foldl (crosshair_step qLn x) st data
  = if gtb x 0 then
      foldl (closest_step qLn x) st
        (List.filter (fun it => gtb it.1 0) data)
    else st.
Proof.
  revert st. induction data as [|it data IH]; intros st.
  - simpl. now destruct (gtb x 0).
  - simpl. rewrite IH. unfold crosshair_step.
    destruct (gtb x 0) eqn:Ex; [|reflexivity]. cbn [andb]. cbv zeta.
    destruct (gtb it.1 0); reflexivity.
Qed.

End ClosestFacts.

Section ClosestExtras.
Variable qLn : float -> float.

(** X22.  The spot noise table holds nothing but samples of the curve
    under the names of targets in view: an entry is stored under the
    display name of one of the nine targets, that target is neither below
    the lower nor above the upper bound of the axis, the entry is a
    (frequency, noise) pair of the graph's data, and its frequency is
    within a factor of 5 of the target on the logarithmic scale. *)
Theorem extractSpotNoise_entries_are_samples (data : list (float * float))
    (xMinView xMaxView : float) (name : string) (f v : float) :
  extractSpotNoise qLn data xMinView xMaxView !! name = Some (f, v) ->
  (f, v) ∈ data
  /\ exists info,
       info ∈ FREQ_POINT_INFOS /\ displayName info = name
       /\ (value info <? xMinView)%float = false
       /\ gtb (value info) xMaxView = false
       /\ (qFabs (qLn f - qLn (value info)) <? qLn 5)%float = true.
Proof.
  intros Hlook.
  destruct (decide (name ∈ displayName <$> FREQ_POINT_INFOS)) as [Hin|Hout].
  - apply list_elem_of_fmap in Hin as (info & -> & Hin).
    rewrite (extractSpotNoise_lookup qLn data xMinView xMaxView info Hin)
      in Hlook.
    apply spotNoise_entry_sample in Hlook as (Hs & H1 & H2 & H3).
    split; [exact Hs|]. exists info. auto.
  - unfold extractSpotNoise in Hlook.
    rewrite (spotNoise_fold_other qLn data xMinView xMaxView
               FREQ_POINT_INFOS ∅ name Hout) in Hlook.
    rewrite lookup_empty in Hlook. discriminate.
Qed.

(** X23.  [calculateSpotNoise] takes the table from the first dataset
    that is visible, has a measured graph and is not empty: hidden
    datasets before it and all datasets after it do not matter, and with
    no visible dataset the table is empty. *)
Theorem calculateSpotNoise_first_visible
    (hidden rest : list PlotData) (data : PlotData)
    (dataContainer : list (float * float)) (xMinView xMaxView : float) :
  Forall (fun d => isVisible d = false) hidden ->
  isVisible data = true ->
  graphMeasured data = Some dataContainer ->
  frequencyOffset data <> [] ->
  calculateSpotNoise qLn (hidden ++ data :: rest) xMinView xMaxView
  = extractSpotNoise qLn dataContainer xMinView xMaxView
  /\ calculateSpotNoise qLn hidden xMinView xMaxView = ∅.
Proof.
  intros Hhidden Hvis Hgraph Hne. unfold calculateSpotNoise. split.
  - rewrite (firstVisibleData_hidden hidden (data :: rest) Hhidden).
    unfold firstVisibleData. simpl. rewrite Hvis, Hgraph. simpl.
    destruct (frequencyOffset data) eqn:E; [congruence|]. simpl.
    now rewrite Hgraph.
  - rewrite <- (app_nil_r hidden).
    rewrite (firstVisibleData_hidden hidden [] Hhidden). reflexivity.
Qed.

(** X24.  The crosshair search of [onPlotMouseMove] is the spot-noise
    search restricted to positive frequencies: when the frequency under
    the cursor is greater than zero it returns what the search of
    [calculateSpotNoise] returns for that frequency on the samples whose
    frequency is greater than zero, and otherwise it finds nothing. *)
Theorem crosshair_is_positive_search (x : float)
    (dataContainer : list (float * float)) :
  crosshair qLn x dataContainer
  = if gtb x 0 then
      findClosest qLn x (List.filter (fun it => gtb it.1 0) dataContainer)
    else closest_init.
Proof. unfold crosshair, findClosest. apply crosshair_fold. Qed.

(** X25.  When the crosshair search finds a point, the frequency under
    the cursor is greater than zero (so it is not NaN), and the point is a
    sample of the graph whose frequency is greater than zero: the
    logarithm is never taken of a non-positive number for a point that is
    shown. *)
Theorem crosshair_found_positive (x : float)
    (dataContainer : list (float * float)) :
  found (crosshair qLn x dataContainer) = true ->
  (0 <? x)%float = true
  /\ (0 <? closestFreq (crosshair qLn x dataContainer))%float = true
  /\ (closestFreq (crosshair qLn x dataContainer),
      closestNoise (crosshair qLn x dataContainer)) ∈ dataContainer.
Proof.
  unfold crosshair. rewrite crosshair_fold. unfold gtb.
  destruct (0 <? x)%float; [|discriminate].
  intros Hfound. split; [reflexivity|].
  pose proof (findClosest_first qLn x
    (List.filter (fun it : float * float => (0 <? it.1)%float) dataContainer))
    as Hc.
  cbv zeta in Hc. unfold findClosest in Hc. rewrite Hfound in Hc.
  destruct Hc as (k & [pf pv] & (Hk & _) & -> & -> & _). simpl.
  assert (Hin : In (pf, pv)
    (List.filter (fun it : float * float => (0 <? it.1)%float) dataContainer)).
  { apply list_elem_of_In, list_elem_of_lookup. eauto. }
  apply filter_In in Hin as [Hin Hpos].
  split; [exact Hpos | now apply list_elem_of_In].
Qed.

End ClosestExtras.

(** The curve of three samples, the axis from 1 Hz to 1 MHz: the entry
    of 1 kHz. *)
Lemma extractSpotNoise_entries_are_samples_witness :
  (1000, -120)%float ∈ Samples.curve
  /\ exists info,
       info ∈ FREQ_POINT_INFOS /\ displayName info = "1 kHz"
       /\ (value info <? 1)%float = false
       /\ gtb (value info) 1000000 = false
       /\ (qFabs (Log.ln 1000 - Log.ln (value info)) <? Log.ln 5)%float = true.
Proof.
  apply (extractSpotNoise_entries_are_samples Log.ln Samples.curve 1 1000000
           "1 kHz" 1000 (-120)).
  vm_compute. reflexivity.
Defined.

(** A hidden dataset, the plotted curve, and a dataset after it. *)
Lemma calculateSpotNoise_first_visible_witness :
  calculateSpotNoise Log.ln
    ([Datasets.hidden] ++ Datasets.plotted :: [Datasets.scenario]) 1 1000000
  = extractSpotNoise Log.ln Samples.curve 1 1000000
  /\ calculateSpotNoise Log.ln [Datasets.hidden] 1 1000000 = ∅.
Proof.
  apply (calculateSpotNoise_first_visible Log.ln [Datasets.hidden]
           [Datasets.scenario] Datasets.plotted Samples.curve 1 1000000).
  - repeat constructor.
  - reflexivity.
  - reflexivity.
  - discriminate.
Defined.

(** The cursor at 900 Hz over the curve of three samples. *)
Lemma crosshair_found_positive_witness :
  (0 <? 900)%float = true
  /\ (0 <? closestFreq (crosshair Log.ln 900 Samples.curve))%float = true
  /\ (closestFreq (crosshair Log.ln 900 Samples.curve),
      closestNoise (crosshair Log.ln 900 Samples.curve)) ∈ Samples.curve.
Proof.
  apply (crosshair_found_positive Log.ln 900 Samples.curve).
  vm_compute. reflexivity.
Defined.

(** ** The interpolator at a zero term *)

Section InterpolatorFacts.

Lemma is_finite_SF (b : float) :
  is_finite b = true ->
  (exists s, Prim2SF b = S754_zero s)
  \/ (exists s m e, Prim2SF b = S754_finite s m e).
Proof.
  unfold is_finite, is_nan, is_infinity.
  rewrite !FloatAxioms.eqb_spec, abs_spec, Prim2SF_infinity.
  unfold SFeqb.
  destruct (Prim2SF b) as [[]|[]| |s m e]; intros H; try discriminate H;
    eauto.
Qed.

Lemma is_finite_not_nan (b : float) : is_finite b = true -> is_nan b = false.
Proof.
  unfold is_finite. destruct (is_nan b); [discriminate | reflexivity].
Qed.

Lemma SFcompare_finite_refl (s : bool) (m : positive) (e : Z) :
  SFcompare (S754_finite s m e) (S754_finite s m e) = Some Eq.
Proof.
  pose proof (SFcompare_swap (S754_finite s m e) (S754_finite s m e)) as H.
  destruct (SFcompare (S754_finite s m e) (S754_finite s m e)) as [[]|] eqn:E;
    try reflexivity; try discriminate H.
  unfold SFcompare in E. destruct s; destruct (e ?= e); discriminate E.
Qed.

(** A zero times a finite double is a zero. *)
Lemma mul_zero_l (a b : float) :
  (exists s, Prim2SF a = S754_zero s) -> is_finite b = true ->
  exists s, Prim2SF (a * b) = S754_zero s.
Proof.
  intros [sa Ha] Hb. rewrite mul_spec, Ha.
  destruct (is_finite_SF b Hb) as [[s ->]|(s & m & e & ->)];
    simpl; eauto.
Qed.

Lemma mul_zero_r (a b : float) :
  is_finite a = true -> (exists s, Prim2SF b = S754_zero s) ->
  exists s, Prim2SF (a * b) = S754_zero s.
Proof.
  intros Ha [sb Hb]. rewrite mul_spec, Hb.
  destruct (is_finite_SF a Ha) as [[s ->]|(s & m & e & ->)];
    simpl; eauto.
Qed.

(** Adding a zero divided by a divisor that is neither zero nor NaN to a
    finite double gives that double (a zero may change its sign). *)
Lemma add_zero_quotient (y p d : float) :
  is_finite y = true -> (exists s, Prim2SF p = S754_zero s) ->
  is_nan d = false -> (d =? 0)%float = false ->
  (y + p / d =? y)%float = true.
Proof.
  intros Hy [sp Hp] Hnan Hzero.
  unfold is_nan in Hnan.
  rewrite FloatAxioms.eqb_spec in Hnan, Hzero. rewrite Prim2SF_zero in Hzero.
  rewrite FloatAxioms.eqb_spec, add_spec, div_spec, Hp.
  unfold SFeqb in *.
  assert (Hq : exists s, SF64div (S754_zero sp) (Prim2SF d) = S754_zero s).
  { destruct (Prim2SF d) as [[]|[]| |s m e]; simpl in *;
      try discriminate; eauto. }
  destruct Hq as [sq ->].
  destruct (is_finite_SF y Hy) as [[s ->]|(s & m & e & ->)].
  - destruct s, sq; reflexivity.
  - change (SF64add (S754_finite s m e) (S754_zero sq))
      with (S754_finite s m e).
    now rewrite SFcompare_finite_refl.
Qed.

Lemma guard_divisor_nonzero (d : float) :
  (qFabs d <? epsilon)%float = false -> (d =? 0)%float = false.
Proof.
  intros E. destruct (d =? 0)%float eqn:E0; [|reflexivity].
  apply zero_below_epsilon in E0. congruence.
Qed.

Lemma eqb_refl_finite (y : float) :
  is_finite y = true -> (y =? y)%float = true.
Proof.
  intros H. apply is_finite_not_nan in H. unfold is_nan in H.
  now destruct (y =? y)%float.
Qed.

End InterpolatorFacts.

Section InterpolatorExtras.

(** X26.  Between two anchors of the same finite value the interpolation
    is that value: when [x - x1] is finite and [x2 - x1] is not NaN,
    [linearInterpolate x1 y x2 y x] equals [y] (as doubles compare, so a
    zero may come back with the other sign), in the guarded case as in
    the computed one. *)
Theorem linearInterpolate_flat (x1 x2 x y : float) :
  is_finite y = true -> is_finite (x - x1) = true ->
  is_nan (x2 - x1) = false ->
  (linearInterpolate x1 y x2 y x =? y)%float = true.
Proof.
  intros Hy Hx Hd. unfold linearInterpolate.
  destruct (qFabs (x2 - x1) <? epsilon)%float eqn:E.
  - now apply eqb_refl_finite.
  - apply add_zero_quotient;
      [exact Hy | | exact Hd | now apply guard_divisor_nonzero].
    rewrite (sub_self_finite y Hy).
    apply mul_zero_l; [|exact Hx]. exists false. apply Prim2SF_zero.
Qed.

(** Anchors at 10 Hz and 1 kHz, both at -100 dBc/Hz. *)
Lemma linearInterpolate_flat_witness :
  (linearInterpolate 10 (-100) 1000 (-100) 300 =? -100)%float = true.
Proof.
  apply (linearInterpolate_flat 10 1000 300 (-100)); reflexivity.
Defined.

(** X27.  At its left anchor the interpolation returns the left value:
    for finite [x1] and [y1], a finite difference [y2 - y1] and a
    difference [x2 - x1] that is not NaN,
    [linearInterpolate x1 y1 x2 y2 x1] equals [y1] (as doubles compare). *)
Theorem linearInterpolate_left_anchor (x1 y1 x2 y2 : float) :
  is_finite x1 = true -> is_finite y1 = true ->
  is_finite (y2 - y1) = true -> is_nan (x2 - x1) = false ->
  (linearInterpolate x1 y1 x2 y2 x1 =? y1)%float = true.
Proof.
  intros Hx Hy Hdy Hd. unfold linearInterpolate.
  destruct (qFabs (x2 - x1) <? epsilon)%float eqn:E.
  - now apply eqb_refl_finite.
  - apply add_zero_quotient;
      [exact Hy | | exact Hd | now apply guard_divisor_nonzero].
    rewrite (sub_self_finite x1 Hx).
    apply mul_zero_r; [exact Hdy|]. exists false. apply Prim2SF_zero.
Qed.

(** From (10 Hz, -100) to (1 kHz, -140), at 10 Hz. *)
Lemma linearInterpolate_left_anchor_witness :
  (linearInterpolate 10 (-100) 1000 (-140) 10 =? -100)%float = true.
Proof.
  apply (linearInterpolate_left_anchor 10 (-100) 1000 (-140)); reflexivity.
Defined.

End InterpolatorExtras.

(** ** Method 1 on a run of flagged samples *)

Section RunFacts.
Import Runs.

Lemma skipSpurs_stop (isSpur : list bool) (i : Z) :
  0 <= i < size isSpur -> at_ isSpur i = Some true ->
  exists i',
    skipSpurs isSpur (size isSpur) i = Some i'
    /\ i < i' <= size isSpur
    /\ (forall k, i <= k < i' -> at_ isSpur k = Some true)
    /\ (i' = size isSpur \/ at_ isSpur i' = Some false).
Proof.
  intros Hi Hflag.
  destruct (skipSpurs_run isSpur i Hi Hflag) as (i' & Hrun & Hi' & Hall).
  exists i'. split; [exact Hrun|]. split; [exact Hi'|].
  split; [exact Hall|].
  unfold skipSpurs in Hrun.
  apply (while_loop_partial (fun _ => True)) in Hrun as [_ Hc]; auto.
  unfold andThen in Hc. simpl in Hc.
  destruct (i' <? size isSpur) eqn:E; [now right|].
  apply Z.ltb_ge in E. left. lia.
Qed.

Lemma findLeft_boundary (isSpur : list bool) (start : Z) :
  0 <= start -> start = 0 \/ at_ isSpur (start - 1) = Some false ->
  findLeft isSpur (size isSpur) start = Some (Z.max 0 (start - 1)).
Proof.
  intros Hs Hb. unfold findLeft, budget. rewrite while_loop_exit.
  - simpl. destruct (start - 1 <? 0) eqn:E;
      [apply Z.ltb_lt in E | apply Z.ltb_ge in E]; f_equal; lia.
  - unfold andThen. simpl. destruct Hb as [->|Hb]; [reflexivity|].
    rewrite Hb. now destruct (0 <=? start - 1).
Qed.

Lemma findRight_boundary (isSpur : list bool) (end_ : Z) :
  end_ = size isSpur - 1 \/ at_ isSpur (end_ + 1) = Some false ->
  findRight isSpur (size isSpur) end_
  = Some (Z.min (size isSpur - 1) (end_ + 1)).
Proof.
  intros Hb. unfold findRight, budget. rewrite while_loop_exit.
  - simpl. destruct Hb as [->|Hb].
    + replace (size isSpur - 1 + 1) with (size isSpur) by lia.
      rewrite Z.leb_refl. f_equal. lia.
    + apply at_Some_range in Hb.
      destruct (size isSpur <=? end_ + 1) eqn:E;
        [apply Z.leb_le in E | apply Z.leb_gt in E]; f_equal; lia.
  - unfold andThen. simpl. destruct Hb as [->|Hb].
    + replace (size isSpur - 1 + 1) with (size isSpur) by lia.
      now rewrite Z.ltb_irrefl.
    + rewrite Hb. now destruct (end_ + 1 <? size isSpur).
Qed.

Lemma maximalRun_end (isSpur : list bool) (s e e' : Z) :
  maximalRun isSpur s e -> maximalRun isSpur s e' -> e = e'.
Proof.
  intros (H1 & H2 & H3 & _ & H5) (K1 & K2 & K3 & _ & K5).
  destruct (Z.lt_trichotomy e e') as [Hlt|[Heq|Hgt]]; [|exact Heq|].
  - destruct H5 as [->|H5]; [lia|].
    rewrite K3 in H5 by lia. discriminate.
  - destruct K5 as [->|K5]; [lia|].
    rewrite H3 in K5 by lia. discriminate.
Qed.

(** A flagged sample that starts a run starts a maximal one. *)
Lemma maximalRun_from (isSpur : list bool) (i : Z) :
  0 <= i < size isSpur -> at_ isSpur i = Some true ->
  i = 0 \/ at_ isSpur (i - 1) = Some false ->
  exists e, maximalRun isSpur i e
            /\ skipSpurs isSpur (size isSpur) i = Some (e + 1).
Proof.
  intros Hi Hflag Hb.
  destruct (skipSpurs_stop isSpur i Hi Hflag) as (i' & Hrun & Hi' & Hall & Hstop).
  exists (i' - 1). replace (i' - 1 + 1) with i' by lia.
  split; [|exact Hrun].
  unfold maximalRun. split; [lia|]. split; [lia|].
  split; [intros k Hk; apply Hall; lia|]. split; [exact Hb|].
  destruct Hstop as [->|Hstop]; [now left|].
  right. now replace (i' - 1 + 1) with i' by lia.
Qed.

(** The turn of method 1 at the start of a maximal run: it writes the
    bridge between the neighbours of the run into the run and nothing
    else. *)
Lemma pass1_body_bridge (isSpur : list bool) (freq processedMeas : list float)
    (s e : Z) :
  size freq = size isSpur -> size processedMeas = size isSpur ->
  maximalRun isSpur s e ->
  exists pm',
    pass1_body isSpur freq (size isSpur) (s, processedMeas)
    = Some (e + 1, pm')
    /\ size pm' = size isSpur
    /\ (forall j, s <= j <= e ->
          at_ pm' j
          = bridged freq processedMeas (Z.max 0 (s - 1))
              (Z.min (size isSpur - 1) (e + 1)) j)
    /\ (forall k, ~ s <= k <= e -> at_ pm' k = at_ processedMeas k).
Proof.
  intros Hf Hp Hmax.
  pose proof Hmax as (H1 & H2 & H3 & H4 & H5).
  destruct (maximalRun_from isSpur s) as (e' & Hmax' & Hskip);
    [lia | apply H3; lia | exact H4 |].
  assert (e' = e) as -> by exact (maximalRun_end _ _ _ _ Hmax' Hmax).
  unfold pass1_body. rewrite (H3 s) by lia. simpl.
  rewrite Hskip. simpl.
  rewrite (findLeft_boundary isSpur s) by (lia || exact H4). simpl.
  replace (e + 1 - 1) with e by lia.
  rewrite (findRight_boundary isSpur e H5). simpl.
  set (left := Z.max 0 (s - 1)). set (right := Z.min (size isSpur - 1) (e + 1)).
  unfold bridged.
  destruct (at_is_Some processedMeas left) as [leftVal ->]; [lia|].
  destruct (at_is_Some processedMeas right) as [rightVal ->]; [lia|].
  destruct (at_is_Some freq left) as [leftFreq ->]; [lia|].
  destruct (at_is_Some freq right) as [rightFreq ->]; [lia|].
  simpl.
  set (f := fun j : Z =>
    fj ← at_ freq j;
    Some (if (left <? right)
             && gtb (qAbs (rightFreq - leftFreq)) freqTolerance
          then linearInterpolate leftFreq leftVal rightFreq rightVal fj
          else leftVal)).
  destruct (for_range_write f s (e + 1) processedMeas)
    as (pm' & Hrun & Hs' & Hin & Hout); [lia | lia | |].
  { intros j Hj. unfold f.
    destruct (at_is_Some freq j) as [fj ->]; [lia|]. simpl. eauto. }
  erewrite for_range_ext; [rewrite Hrun|].
  - simpl. exists pm'. split; [reflexivity|]. split; [lia|].
    split.
    + intros j Hj. apply Hin. lia.
    + intros k Hk. apply Hout. lia.
  - intros k t Hk. unfold f. simpl.
    destruct (at_is_Some freq k) as [fk ->]; [lia|]. simpl.
    now destruct ((left <? right)
                  && gtb (qAbs (rightFreq - leftFreq)) freqTolerance).
Qed.

(** The bridge depends on the two neighbours and on the frequencies
    only. *)
Lemma bridged_ext (freq meas meas' : list float) (left right j : Z) :
  at_ meas' left = at_ meas left -> at_ meas' right = at_ meas right ->
  bridged freq meas' left right j = bridged freq meas left right j.
Proof. intros Hl Hr. unfold bridged. now rewrite Hl, Hr. Qed.

Lemma pass1_bridge (isSpur : list bool) (freq meas : list float) (s e : Z) :
  size freq = size isSpur -> size meas = size isSpur ->
  maximalRun isSpur s e ->
  exists out,
    pass1 isSpur freq (size isSpur) meas = Some out
    /\ forall j, s <= j <= e ->
         at_ out j
         = bridged freq meas (Z.max 0 (s - 1))
             (Z.min (size isSpur - 1) (e + 1)) j.
Proof.
  intros Hf Hp Hmax. pose proof Hmax as (H1 & H2 & H3 & H4 & H5).
  set (left := Z.max 0 (s - 1)).
  set (right := Z.min (size isSpur - 1) (e + 1)).
  unfold pass1.
  destruct (while_loop_inv
    (fun st : Z * list float =>
       0 <= st.1 <= size isSpur /\ size st.2 = size isSpur
       /\ (st.1 = 0 \/ at_ isSpur (st.1 - 1) = Some false
           \/ st.1 = size isSpur \/ at_ isSpur st.1 = Some false)
       /\ ((st.1 <= s
            /\ (forall k, st.1 <= k -> at_ st.2 k = at_ meas k)
            /\ (forall k, at_ isSpur k = Some false ->
                  at_ st.2 k = at_ meas k))
           \/ (e < st.1
               /\ forall j, s <= j <= e ->
                    at_ st.2 j = bridged freq meas left right j)))
    (fun st => size isSpur - st.1)
    (fun st : Z * list float => Some (st.1 <? size isSpur))
    (pass1_body isSpur freq (size isSpur)) (budget (size isSpur)) (0, meas))
    as ([i pm] & Hrun & (Hi & _ & _ & Hphase) & Hc).
  - simpl. split; [lia|]. split; [exact Hp|]. split; [now left|].
    left. split; [lia|]. auto.
  - unfold budget. simpl. lia.
  - intros [i pm] (Hi & _). simpl in *. lia.
  - intros t _. eauto.
  - intros [i pm] (Hi & Hs & Hb & Hphase) [= Hc]. simpl in *.
    apply Z.ltb_lt in Hc.
    destruct (at_is_Some isSpur i) as [[] Hflag]; [lia| |].
    + (* a run starts at [i] *)
      assert (Hstart : i = 0 \/ at_ isSpur (i - 1) = Some false).
      { destruct Hb as [Hb|[Hb|[Hb|Hb]]]; auto; [lia | congruence]. }
      destruct (maximalRun_from isSpur i) as (e' & Hmax' & _);
        [lia | exact Hflag | exact Hstart |].
      pose proof Hmax' as (K1 & K2 & K3 & K4 & K5).
      destruct (pass1_body_bridge isSpur freq pm i e' Hf Hs Hmax')
        as (pm' & Hbody & Hs' & Hin & Hout).
      exists (e' + 1, pm'). split; [exact Hbody|]. simpl.
      split; [|lia]. split; [lia|]. split; [exact Hs'|].
      split.
      { destruct K5 as [->|K5]; [right; right; left; lia|].
        right. right. right. exact K5. }
      destruct Hphase as [(Hle & Hrest & Hkeep)|(Hgt & Hdone)].
      * destruct (decide (i = s)) as [->|Hne].
        -- (* the run of the statement *)
           assert (e' = e) as -> by exact (maximalRun_end _ _ _ _ Hmax' Hmax).
           right. split; [lia|]. intros j Hj. rewrite (Hin j Hj).
           apply bridged_ext.
           ++ fold left. destruct H4 as [->|H4];
                [apply Hrest; unfold left; lia | ].
              apply Hkeep. unfold left.
              pose proof (at_Some_range _ _ _ H4).
              now replace (Z.max 0 (s - 1)) with (s - 1) by lia.
           ++ fold right. apply Hrest. unfold right. lia.
        -- (* an earlier run, which ends before [s - 1] *)
           assert (He' : e' + 1 <= s - 1).
           { destruct H4 as [->|H4]; [lia|].
             destruct (Z_lt_ge_dec (e' + 1) s) as [Hlt|Hge].
             - destruct (decide (e' + 1 = s - 1 + 1)) as [Heq|]; [|lia].
               destruct K5 as [K5|K5]; [lia|].
               rewrite H3 in K5 by lia. discriminate.
             - rewrite K3 in H4 by lia. discriminate. }
           left. split; [lia|]. split.
           ++ intros k Hk. rewrite Hout by lia. apply Hrest. lia.
           ++ intros k Hk. rewrite Hout; [now apply Hkeep|].
              intros Hin'. rewrite K3 in Hk by exact Hin'. discriminate.
      * right. split; [lia|]. intros j Hj.
        rewrite Hout by lia. now apply Hdone.
    + (* no spur at [i] *)
      exists (i + 1, pm). unfold pass1_body. rewrite Hflag. simpl.
      split; [reflexivity|]. split; [|lia]. split; [lia|].
      split; [exact Hs|]. split.
      { right. left. now replace (i + 1 - 1) with i by lia. }
      destruct Hphase as [(Hle & Hrest & Hkeep)|(Hgt & Hdone)].
      * left. assert (i <> s) by (intros ->; rewrite H3 in Hflag by lia;
                                  discriminate).
        split; [lia|]. split; [|exact Hkeep].
        intros k Hk. apply Hrest. lia.
      * right. split; [lia | exact Hdone].
  - simpl in *. injection Hc as Hc. apply Z.ltb_ge in Hc.
    rewrite Hrun. simpl. exists pm. split; [reflexivity|].
    destruct Hphase as [(Hle & _)|(_ & Hdone)]; [lia | exact Hdone].
Qed.

End RunFacts.

(** ** Method 2 on a matched pair of edges *)

Section EdgeFacts.
Import Runs.

(** The search for a falling edge stops at the first one. *)
Lemma findFalling_first (currentRef : list float) (start j : Z) :
  0 <= start < j -> j < size currentRef ->
  fallingEdge currentRef j = Some true ->
  (forall m, start < m < j -> fallingEdge currentRef m = Some false) ->
  findFalling currentRef (size currentRef) start = Some j.
Proof.
  intros Hs Hj Hfall Hnone. unfold findFalling.
  destruct (while_loop_inv (fun t => start + 1 <= t <= j)
    (fun t => j - t)
    (fun t =>
       andThen (Some (t <? size currentRef))
         (f ← fallingEdge currentRef t; Some (negb f)))
    (fun t => Some (t + 1)) (budget (size currentRef)) (start + 1))
    as (t & Hrun & Ht & Hc).
  - lia.
  - unfold budget. lia.
  - intros; lia.
  - intros t Ht. unfold andThen. simpl.
    destruct (t <? size currentRef) eqn:E; [|eauto]. apply Z.ltb_lt in E.
    destruct (fallingEdge_total currentRef t) as [f ->]; [lia|].
    simpl. eauto.
  - intros t Ht Hc. unfold andThen in Hc. simpl in Hc.
    destruct (t <? size currentRef) eqn:E; [|discriminate].
    eexists. split; [reflexivity|].
    destruct (decide (t = j)) as [->|Hne]; [|lia].
    rewrite Hfall in Hc. discriminate.
  - rewrite Hrun. f_equal.
    destruct (decide (t = j)) as [->|Hne]; [reflexivity|].
    unfold andThen in Hc. simpl in Hc.
    destruct (t <? size currentRef) eqn:E; [|apply Z.ltb_ge in E; lia].
    rewrite Hnone in Hc by lia. discriminate.
Qed.

(** The turn of method 2 at a rising edge whose falling edge is at [j]:
    it writes the line between the sample before the edge and the sample
    at [j] into [start .. j - 1] and nothing else. *)
Lemma pass2_body_matched (currentRef freq finalMeas : list float)
    (start j : Z) :
  size freq = size currentRef -> size finalMeas = size currentRef ->
  1 <= start < j -> j < size currentRef ->
  risingEdge currentRef start = Some true ->
  findFalling currentRef (size currentRef) start = Some j ->
  exists fm',
    pass2_body currentRef freq (size currentRef) (start, finalMeas)
    = Some (j, fm')
    /\ size fm' = size currentRef
    /\ (forall k, start <= k < j ->
          at_ fm' k = ramped freq finalMeas (start - 1) j k)
    /\ (forall k, ~ start <= k < j -> at_ fm' k = at_ finalMeas k).
Proof.
  intros Hf Hp Hs Hj Hrise Hfind. unfold pass2_body.
  rewrite Hrise. simpl. rewrite Hfind. simpl.
  destruct (j <? size currentRef) eqn:E; [|apply Z.ltb_ge in E; lia].
  unfold ramped.
  destruct (at_is_Some finalMeas (start - 1)) as [leftVal ->]; [lia|].
  destruct (at_is_Some finalMeas j) as [rightVal ->]; [lia|].
  destruct (at_is_Some freq (start - 1)) as [leftFreq ->]; [lia|].
  destruct (at_is_Some freq j) as [rightFreq ->]; [lia|].
  simpl.
  set (f := fun k : Z =>
    fk ← at_ freq k;
    Some (if gtb (qFabs (rightFreq - leftFreq)) freqTolerance
          then linearInterpolate leftFreq leftVal rightFreq rightVal fk
          else leftVal)).
  destruct (for_range_write f start j finalMeas)
    as (fm' & Hrun & Hs' & Hin & Hout); [lia | lia | |].
  { intros k Hk. unfold f.
    destruct (at_is_Some freq k) as [fk ->]; [lia|]. simpl. eauto. }
  erewrite for_range_ext; [rewrite Hrun|].
  - simpl. exists fm'. split; [reflexivity|]. split; [lia|]. auto.
  - intros k t Hk. unfold f. simpl.
    destruct (at_is_Some freq k) as [fk ->]; [lia|]. simpl.
    now destruct (gtb (qFabs (rightFreq - leftFreq)) freqTolerance).
Qed.

Lemma pass2_first_pair (currentRef freq processedMeas : list float)
    (i j : Z) :
  size freq = size currentRef -> size processedMeas = size currentRef ->
  1 <= i <= size currentRef - 2 -> i < j < size currentRef ->
  risingEdge currentRef i = Some true ->
  (forall m, 1 <= m < i -> risingEdge currentRef m = Some false) ->
  fallingEdge currentRef j = Some true ->
  (forall m, i < m < j -> fallingEdge currentRef m = Some false) ->
  exists out,
    pass2 currentRef freq (size currentRef) processedMeas = Some out
    /\ (forall k, i <= k < j ->
          at_ out k = ramped freq processedMeas (i - 1) j k)
    /\ (forall k, 0 <= k < i -> at_ out k = at_ processedMeas k).
Proof.
  intros Hf Hp Hi Hj Hrise Hfirst Hfall Hnone.
  assert (Hfind : findFalling currentRef (size currentRef) i = Some j).
  { apply findFalling_first; auto; lia. }
  unfold pass2, pass2_from.
  destruct (while_loop_inv
    (fun st : Z * list float =>
       1 <= st.1 <= size currentRef /\ size st.2 = size currentRef
       /\ ((st.1 <= i /\ st.2 = processedMeas)
           \/ (j <= st.1
               /\ (forall k, i <= k < j ->
                     at_ st.2 k = ramped freq processedMeas (i - 1) j k)
               /\ (forall k, 0 <= k < i ->
                     at_ st.2 k = at_ processedMeas k))))
    (fun st => size currentRef - st.1)
    (pass2_cond (size currentRef))
    (pass2_body currentRef freq (size currentRef))
    (budget (size currentRef)) (1, processedMeas))
    as ([t fm] & Hrun & (Ht & _ & Hphase) & Hc).
  - simpl. split; [lia|]. split; [exact Hp|]. left. split; [lia|reflexivity].
  - unfold budget. simpl. lia.
  - intros [t fm] (Ht & _). simpl in *. lia.
  - intros t _. unfold pass2_cond. eauto.
  - intros [t fm] (Ht & Hs & Hphase) Hc. unfold pass2_cond in Hc.
    simpl in *. injection Hc as Hc. apply Z.ltb_lt in Hc.
    destruct Hphase as [(Hle & ->)|(Hge & Hin & Hout)].
    + destruct (decide (t = i)) as [->|Hne].
      * destruct (pass2_body_matched currentRef freq processedMeas i j)
          as (fm' & Hb & Hs' & Hin' & Hout'); auto; try lia.
        exists (j, fm'). split; [exact Hb|]. simpl.
        split; [|lia]. split; [lia|]. split; [exact Hs'|].
        right. split; [lia|]. split; [exact Hin'|].
        intros k Hk. apply Hout'. lia.
      * exists (t + 1, processedMeas). unfold pass2_body.
        rewrite Hfirst by lia. simpl. split; [reflexivity|].
        split; [|lia]. split; [lia|]. split; [exact Hp|].
        left. split; [lia|reflexivity].
    + destruct (pass2_body_run currentRef freq fm t)
        as (t' & fm' & Hb & Ht' & Hs' & Hk'); [assumption..|lia|].
      exists (t', fm'). split; [exact Hb|]. simpl.
      split; [|lia]. split; [lia|]. split; [exact Hs'|].
      right. split; [lia|]. split.
      * intros k Hk. rewrite Hk' by (right; lia). now apply Hin.
      * intros k Hk. rewrite Hk' by (right; lia). now apply Hout.
  - rewrite Hrun. simpl in *. exists fm. split; [reflexivity|].
    unfold pass2_cond in Hc. simpl in Hc. injection Hc as Hc.
    apply Z.ltb_ge in Hc.
    destruct Hphase as [(Hle & _)|(_ & Hin & Hout)]; [lia|]. auto.
Qed.

End EdgeFacts.

Section RunExtras.
Import Runs.

(** X28.  What method 1 writes: on vectors of equal length, every
    maximal run [s .. e] of flagged samples is replaced by the line
    through the source measurement at the run's two neighbours, index
    [s - 1] (index 0 when the run starts the vector) and index [e + 1]
    (the last index when the run ends the vector), evaluated at each
    sample's frequency; when the two neighbours are the same sample or
    their frequencies are within 1e-9 of each other, the run is filled
    with the left neighbour's value. *)
Theorem pass1_bridges_runs (sourceMeas sourceRef freq : list float) :
  size sourceMeas = size sourceRef -> size freq = size sourceRef ->
  exists isSpur out,
    spurFlags sourceRef = Some isSpur
    /\ removeSpurs_pass1 sourceMeas sourceRef freq = Some out
    /\ forall s e j, maximalRun isSpur s e -> s <= j <= e ->
         at_ out j
         = bridged freq sourceMeas (Z.max 0 (s - 1))
             (Z.min (size sourceRef - 1) (e + 1)) j.
Proof.
  intros Hm Hf. unfold removeSpurs_pass1.
  destruct (spurFlags_total sourceRef) as (isSpur & Hflags & Hs).
  rewrite Hflags. simpl. rewrite <- Hs.
  destruct (pass1_run isSpur freq sourceMeas) as (out & Hrun & _);
    [lia..|].
  exists isSpur, out. split; [reflexivity|]. split; [exact Hrun|].
  intros s e j Hmax Hj.
  destruct (pass1_bridge isSpur freq sourceMeas s e) as (out' & Hrun' & Hval);
    [lia | lia | exact Hmax |].
  assert (out' = out) as -> by congruence.
  now apply Hval.
Qed.

(** The scenario of the specification, whose flagged run is [3 .. 4]. *)
Lemma pass1_bridges_runs_witness :
  exists isSpur out,
    spurFlags Samples.scenarioRef = Some isSpur
    /\ removeSpurs_pass1 Samples.scenarioMeas Samples.scenarioRef
         Samples.scenarioFreq = Some out
    /\ forall s e j, maximalRun isSpur s e -> s <= j <= e ->
         at_ out j
         = bridged Samples.scenarioFreq Samples.scenarioMeas
             (Z.max 0 (s - 1))
             (Z.min (size Samples.scenarioRef - 1) (e + 1)) j.
Proof.
  apply (pass1_bridges_runs Samples.scenarioMeas Samples.scenarioRef
           Samples.scenarioFreq); reflexivity.
Defined.

(** X29.  What method 2 writes at the first rising edge of the reference
    when a falling edge follows it: with the rising edge at [i] (none
    before it) and the first falling edge after it at [j], the samples
    [i .. j - 1] become the line through the result of method 1 at
    [i - 1] and at [j], evaluated at each sample's frequency (the value at
    [i - 1] when the two frequencies are within 1e-9 of each other), and
    the samples before [i] are unchanged. *)
Theorem pass2_bridges_first_pair
    (currentRef freq processedMeas : list float) (i j : Z) :
  size freq = size currentRef -> size processedMeas = size currentRef ->
  1 <= i <= size currentRef - 2 -> i < j < size currentRef ->
  risingEdge currentRef i = Some true ->
  (forall m, 1 <= m < i -> risingEdge currentRef m = Some false) ->
  fallingEdge currentRef j = Some true ->
  (forall m, i < m < j -> fallingEdge currentRef m = Some false) ->
  exists out,
    pass2 currentRef freq (size currentRef) processedMeas = Some out
    /\ (forall k, i <= k < j ->
          at_ out k = ramped freq processedMeas (i - 1) j k)
    /\ (forall k, 0 <= k < i -> at_ out k = at_ processedMeas k).
Proof. apply pass2_first_pair. Qed.

(** The scenario of the specification: the reference rises at index 3
    and falls at index 5. *)
Lemma pass2_bridges_first_pair_witness :
  exists out,
    pass2 Samples.scenarioRef Samples.scenarioFreq
      (size Samples.scenarioRef) Samples.scenarioMeas = Some out
    /\ (forall k, 3 <= k < 5 ->
          at_ out k
          = ramped Samples.scenarioFreq Samples.scenarioMeas (3 - 1) 5 k)
    /\ (forall k, 0 <= k < 3 -> at_ out k = at_ Samples.scenarioMeas k).
Proof.
  apply (pass2_bridges_first_pair Samples.scenarioRef Samples.scenarioFreq
           Samples.scenarioMeas 3 5).
  - reflexivity.
  - reflexivity.
  - change (size Samples.scenarioRef) with 7. lia.
  - change (size Samples.scenarioRef) with 7. lia.
  - reflexivity.
  - intros m Hm. assert (m = 1 \/ m = 2) as [-> | ->] by lia; reflexivity.
  - reflexivity.
  - intros m Hm. assert (m = 4) as -> by lia. reflexivity.
Defined.

End RunExtras.

(** ** Spur removal run again *)

Section AgainFacts.

Lemma keepSource_again (data : PlotData) :
  keepSource false (keepSource false data) = keepSource false data.
Proof. reflexivity. Qed.

Lemma applySpurRemoval_dataset_again (data data' : PlotData) :
  applySpurRemoval_dataset false data = Some data' ->
  applySpurRemoval_dataset false data' = Some data'.
Proof.
  unfold applySpurRemoval_dataset, sourceRefOf, sourceMeasOf.
  destruct (negb (hasReferenceData data) || isEmpty (frequencyOffset data))
    eqn:Eskip.
  - intros [= <-]. simpl. rewrite Eskip. reflexivity.
  - cbv zeta.
    destruct (removeSpurs (phaseNoise data) (referenceNoise data)
                (frequencyOffset data)) as [finalMeas|] eqn:Erun;
      [|discriminate].
    simpl.
    destruct (size (referenceNoise data) <? 3) eqn:E3;
      intros [= <-]; simpl; rewrite Eskip, Erun; simpl; rewrite E3;
      reflexivity.
Qed.

Lemma mapM_again {A} (f : A -> option A) (l k : list A) :
  (forall x y, f x = Some y -> f y = Some y) ->
  mapM f l = Some k -> mapM f k = Some k.
Proof.
  intros Hf H. apply mapM_Some in H. apply mapM_Some.
  induction H as [|x y l k Hxy _ IH]; constructor; eauto.
Qed.

End AgainFacts.

Section AgainExtras.

(** X30.  With filtering off the spur removal starts from the raw
    vectors every time, so running it again changes nothing: when
    [applySpurRemoval] returns, a second call on its result returns the
    same datasets, with spur removal enabled or not. *)
Theorem applySpurRemoval_unfiltered_idempotent (m_spurRemovalEnabled : bool)
    (m_datasets datasets' : list PlotData) :
  applySpurRemoval false m_spurRemovalEnabled m_datasets = Some datasets' ->
  applySpurRemoval false m_spurRemovalEnabled datasets' = Some datasets'.
Proof.
  unfold applySpurRemoval. destruct (negb m_spurRemovalEnabled).
  - intros [= <-]. f_equal. rewrite <- list_fmap_compose.
    apply list_fmap_ext. intros _ data _. apply keepSource_again.
  - apply mapM_again. exact applySpurRemoval_dataset_again.
Qed.

(** The scenario dataset, twice through the spur removal. *)
Lemma applySpurRemoval_unfiltered_idempotent_witness :
  exists datasets',
    applySpurRemoval false true [Datasets.scenario] = Some datasets'
    /\ applySpurRemoval false true datasets' = Some datasets'.
Proof.
  destruct (applySpurRemoval_run false true [Datasets.scenario])
    as (datasets' & Hrun & _); [repeat constructor|].
  exists datasets'. split; [exact Hrun|].
  exact (applySpurRemoval_unfiltered_idempotent true [Datasets.scenario]
           datasets' Hrun).
Defined.

End AgainExtras.
